(** * dom-tools: a shallow embedding of [lib/index.js]

    The library is a set of helpers around the DOM and around an Electron
    webview.  The development models

    - JavaScript strings as sequences of UTF-16 code units,
    - JavaScript numbers as binary64 values, with the arithmetic of IEEE 754
      as [SpecFloat] specifies it,
    - the runtime services the helpers call ([JSON.parse], [JSON.stringify],
      [String.prototype.trim], the evaluation of a single-quoted string
      literal by the remote page, [DOMTokenList]),
    - the helpers themselves, with explicit state passing for the document
      and an explicit list of the actions each call performs. *)

From Stdlib Require Import NArith ZArith QArith Qround Lqa List Ascii String Bool Lia.
From Stdlib Require Import Floats.SpecFloat.
From stdpp Require Import base option list gmap.
Import ListNotations.

Local Set Warnings "-register-all".

(** ** JavaScript strings *)

Module JsString.

Open Scope N_scope.

(** A string value is a sequence of 16-bit code units. *)
Definition code_unit := N.
Definition js_string := list code_unit.

(** [u "text"] is the string whose code units are the bytes of an ASCII
    Rocq literal. *)
Definition u (s : string) : js_string :=
  map N_of_ascii (list_ascii_of_string s).

Definition chr (a : ascii) (c : code_unit) : bool := c =? N_of_ascii a.

Definition dquote : code_unit := 34.
Definition squote : code_unit := 39.
Definition backslash : code_unit := 92.

Definition js_string_eqb (a b : js_string) : bool :=
  bool_decide (a = b).

(** [Array.prototype.join] on strings. *)
Fixpoint join (sep : js_string) (l : list js_string) : js_string :=
  match l with
  | [] => []
  | [x] => x
  | x :: rest => x ++ sep ++ join sep rest
  end.

Definition is_digit (c : code_unit) : bool := (48 <=? c) && (c <=? 57).

Definition hex_value (c : code_unit) : option N :=
  if is_digit c then Some (c - 48)
  else if (97 <=? c) && (c <=? 102) then Some (c - 87)
  else if (65 <=? c) && (c <=? 70) then Some (c - 55)
  else None.

Definition hex_digit (n : N) : code_unit :=
  if n <? 10 then 48 + n else 87 + n.

(** Four lower-case hexadecimal digits, as [JSON.stringify] prints them. *)
Definition hex4 (n : N) : js_string :=
  [hex_digit (n / 4096 mod 16); hex_digit (n / 256 mod 16);
   hex_digit (n / 16 mod 16); hex_digit (n mod 16)].

Definition is_high_surrogate (c : code_unit) : bool :=
  (55296 <=? c) && (c <=? 56319).
Definition is_low_surrogate (c : code_unit) : bool :=
  (56320 <=? c) && (c <=? 57343).

(** UTF-16 encoding of a code point (used by the [\u{...}] escape). *)
Definition utf16 (cp : N) : js_string :=
  if cp <? 65536 then [cp]
  else [55296 + (cp - 65536) / 1024; 56320 + (cp - 65536) mod 1024].

(** WhiteSpace and LineTerminator of ECMAScript: what [trim] strips. *)
Definition is_js_whitespace (c : code_unit) : bool :=
  (c =? 9) || (c =? 10) || (c =? 11) || (c =? 12) || (c =? 13) ||
  (c =? 32) || (c =? 160) || (c =? 5760) ||
  ((8192 <=? c) && (c <=? 8202)) ||
  (c =? 8232) || (c =? 8233) || (c =? 8239) || (c =? 8287) ||
  (c =? 12288) || (c =? 65279).

Fixpoint trimStart (s : js_string) : js_string :=
  match s with
  | c :: r => if is_js_whitespace c then trimStart r else s
  | [] => []
  end.

Definition trimEnd (s : js_string) : js_string := rev (trimStart (rev s)).

(** [String.prototype.trim]. *)
Definition trim (s : js_string) : js_string := trimEnd (trimStart s).

(** Decimal digits of a natural number, [Number.prototype.toString] on a
    non-negative integer. *)
Fixpoint decimal_fuel (fuel : nat) (n : N) (acc : js_string) : js_string :=
  match fuel with
  | O => acc
  | S fuel =>
      let acc := (48 + n mod 10) :: acc in
      if n <? 10 then acc else decimal_fuel fuel (n / 10) acc
  end.

Definition decimal (n : N) : js_string :=
  decimal_fuel (S (N.to_nat (N.log2 n))) n [].

End JsString.

Export JsString.

(** ** JavaScript numbers

    A Number is a binary64 value: [spec_float] at precision 53.  The
    subtraction, the multiplication and the conversions round to the
    nearest value, ties to even, as the language requires. *)

Module Number.

Open Scope Z_scope.

Definition prec : Z := 53.
Definition emax : Z := 1024.

Definition sub : spec_float -> spec_float -> spec_float := SFsub prec emax.
Definition mul : spec_float -> spec_float -> spec_float := SFmul prec emax.

(** The Number value for an integer. *)
Definition of_Z (z : Z) : spec_float := binary_normalize prec emax z 0 false.

(** The Number value for [digits * 10 ^ exponent], negated when
    [negative]: the value of a decimal literal. *)
Definition of_decimal (negative : bool) (digits : N) (exponent : Z) : spec_float :=
  match digits with
  | N0 => S754_zero negative
  | Npos d =>
      match exponent with
      | Z0 => binary_round prec emax negative d 0
      | Zpos k => binary_round prec emax negative (d * 10 ^ k)%positive 0
      | Zneg k =>
          SFdiv prec emax (S754_finite negative d 0)
                (S754_finite false (10 ^ k)%positive 0)
      end
  end.

(** Equality of Number values as SameValueZero has it: the two zeros are
    equal, and NaN is equal to itself. *)
Definition eqb (x y : spec_float) : bool :=
  match x, y with
  | S754_nan, S754_nan => true
  | _, _ => SFeqb x y
  end.

(** The value of a finite number as a rational. *)
Definition value (x : spec_float) : Q :=
  match x with
  | S754_finite s m e =>
      match e with
      | Zneg k => cond_Zopp s (Zpos m) # 2 ^ k
      | _ => inject_Z (cond_Zopp s (Zpos m) * 2 ^ e)
      end
  | _ => 0%Q
  end.

(** The integer a number is, when it is one. *)
Definition to_integer (x : spec_float) : option Z :=
  match x with
  | S754_zero _ => Some 0
  | S754_finite s m e =>
      match e with
      | Zneg k =>
          if Zpos m mod 2 ^ Zpos k =? 0
          then Some (cond_Zopp s (Zpos m / 2 ^ Zpos k)) else None
      | _ => Some (cond_Zopp s (Zpos m * 2 ^ e))
      end
  | _ => None
  end.

(** [Math.floor]: the greatest integer that is not above [x], the number
    itself when it is a zero, an infinity or NaN. *)
Definition floor (x : spec_float) : spec_float :=
  match x with
  | S754_finite s m e =>
      binary_normalize prec emax (Z.shiftl (cond_Zopp s (Zpos m)) e) 0 false
  | _ => x
  end.

(** The representation of [n * 2 ^ a], negated when [s], for an [n] of at
    most 53 binary digits: the mantissa has 53 digits. *)
Definition dyadic (s : bool) (n : positive) (a : Z) : spec_float :=
  let d := Zpos (digits2_pos n) in
  S754_finite s (Pos.shiftl_nat n (Z.to_nat (53 - d))) (a + d - 53).

(** [n * 2 ^ a] is a normal or subnormal number of the format. *)
Definition representable (n : positive) (a : Z) : Prop :=
  Zpos (digits2_pos n) <= 53 /\ -1074 <= a + Zpos (digits2_pos n) - 53 <= 971.

(** *** Number::toString, radix 10 *)

(** [x < 10 ^ n], for the positive [x = m * 2 ^ e]. *)
Definition below_power_of_ten (m : positive) (e n : Z) : bool :=
  let num := Zpos m * 2 ^ Z.max e 0 * 10 ^ Z.max (- n) 0 in
  let den := 2 ^ Z.max (- e) 0 * 10 ^ Z.max n 0 in
  num <? den.

(** The [n] of the algorithm: [10 ^ (n - 1) <= x < 10 ^ n].  It is looked
    for around the estimate that the binary logarithm gives. *)
Definition decimal_exponent (m : positive) (e : Z) : Z :=
  let lg := Z.log2 (Zpos m) + e in
  let n0 := lg * 30103 / 100000 in
  default (n0 + 3)
    (List.find (below_power_of_ten m e) (map (fun i => n0 - 2 + Z.of_nat i) (seq 0 6))).

(** The two numbers of [k] digits next to [x = m * 2 ^ e], as digits [s]
    and exponent [n]: the nearer one first, and on a tie the even one. *)
Definition candidates (m : positive) (e n : Z) (k : Z) : list (N * Z) :=
  let num := Zpos m * 2 ^ Z.max e 0 * 10 ^ Z.max (k - n) 0 in
  let den := 2 ^ Z.max (- e) 0 * 10 ^ Z.max (n - k) 0 in
  let lo := num / den in
  let r := num mod den in
  let up :=
    if lo + 1 =? 10 ^ k then (Z.to_N (10 ^ (k - 1)), n + 1) else (Z.to_N (lo + 1), n) in
  let down := (Z.to_N lo, n) in
  if r =? 0 then [down]
  else
    match 2 * r ?= den with
    | Lt => [down; up]
    | Gt => [up; down]
    | Eq => if Z.even lo then [down; up] else [up; down]
    end.

(** [s * 10 ^ (n - k)] has the Number value [x]. *)
Definition denotes (x : spec_float) (k : Z) (c : N * Z) : bool :=
  eqb (of_decimal false (fst c) (snd c - k)) x.

(** The [s], [n] and [k] of the algorithm for a positive finite [x]: the
    fewest digits that denote [x] and, among those, the nearest to it. *)
Fixpoint shortest (x : spec_float) (m : positive) (e n : Z) (ks : list Z) : N * Z * Z :=
  match ks with
  | [] => (0%N, 0, 0)
  | k :: ks' =>
      match List.find (denotes x k) (candidates m e n k) with
      | Some (s, n') => (s, n', k)
      | None => shortest x m e n ks'
      end
  end.

Definition zeros (n : Z) : js_string := repeat 48%N (Z.to_nat n).

Definition toString (x : spec_float) : js_string :=
  match x with
  | S754_nan => u "NaN"
  | S754_zero _ => u "0"
  | S754_infinity s => (if s then u "-" else []) ++ u "Infinity"
  | S754_finite s m e =>
      let '(digits, n, k) :=
        shortest (S754_finite false m e) m e (decimal_exponent m e)
          (map Z.of_nat (seq 1 17)) in
      let d := decimal digits in
      (if s then u "-" else []) ++
      (if (k <=? n) && (n <=? 21) then d ++ zeros (n - k)
       else if (0 <? n) && (n <=? 21) then
         take (Z.to_nat n) d ++ u "." ++ drop (Z.to_nat n) d
       else if (-6 <? n) && (n <=? 0) then u "0." ++ zeros (- n) ++ d
       else
         let exponent :=
           (if 0 <? n - 1 then u "+" else u "-") ++ decimal (Z.to_N (Z.abs (n - 1))) in
         match d with
         | [] => []
         | [c] => [c] ++ u "e" ++ exponent
         | c :: rest => [c] ++ u "." ++ rest ++ u "e" ++ exponent
         end)
  end.

Definition is_finite (x : spec_float) : bool :=
  match x with
  | S754_zero _ | S754_finite _ _ _ => true
  | S754_infinity _ | S754_nan => false
  end.

End Number.

(** ** JSON values, [JSON.parse] and [JSON.stringify] *)

Module Json.

Open Scope N_scope.

(** The values [JSON.parse] can return.  A number is a binary64 value; an
    object holds its own properties in the order in which they are
    enumerated. *)
Inductive json :=
| JNull
| JBool (b : bool)
| JNumber (value : spec_float)
| JString (s : js_string)
| JArray (elements : list json)
| JObject (properties : list (js_string * json)).

(** *** Scanners; each one is structurally recursive on the text *)

Definition is_json_ws (c : code_unit) : bool :=
  (c =? 9) || (c =? 10) || (c =? 13) || (c =? 32).

Fixpoint skip_ws (s : js_string) : js_string :=
  match s with
  | c :: r => if is_json_ws c then skip_ws r else s
  | [] => []
  end.

(** The characters of a string after its opening quote, up to the closing
    quote.  [None] is a syntax error. *)
Fixpoint scan_string (s : js_string) : option (js_string * js_string) :=
  match s with
  | [] => None
  | c :: r =>
      if c =? dquote then Some ([], r)
      else if c <? 32 then None
      else if c =? backslash then
        match r with
        | [] => None
        | e :: r1 =>
            let simple (v : code_unit) :=
              match scan_string r1 with
              | Some (str, rest) => Some (v :: str, rest)
              | None => None
              end in
            if e =? dquote then simple dquote
            else if e =? backslash then simple backslash
            else if chr "/" e then simple 47
            else if chr "b" e then simple 8
            else if chr "f" e then simple 12
            else if chr "n" e then simple 10
            else if chr "r" e then simple 13
            else if chr "t" e then simple 9
            else if chr "u" e then
              match r1 with
              | h1 :: h2 :: h3 :: h4 :: r2 =>
                  match hex_value h1, hex_value h2, hex_value h3, hex_value h4 with
                  | Some a, Some b, Some c', Some d =>
                      match scan_string r2 with
                      | Some (str, rest) =>
                          Some ((a * 4096 + b * 256 + c' * 16 + d) :: str, rest)
                      | None => None
                      end
                  | _, _, _, _ => None
                  end
              | _ => None
              end
            else None
        end
      else
        match scan_string r with
        | Some (str, rest) => Some (c :: str, rest)
        | None => None
        end
  end.

Fixpoint take_digits (s : js_string) : js_string * js_string :=
  match s with
  | c :: r =>
      if is_digit c then let '(d, rest) := take_digits r in (c :: d, rest)
      else ([], s)
  | [] => ([], [])
  end.

(** [int]: a single 0, or a non-zero digit followed by digits. *)
Definition scan_int (s : js_string) : option (js_string * js_string) :=
  match s with
  | c :: r =>
      if c =? 48 then Some ([c], r)
      else if is_digit c then let '(d, rest) := take_digits r in Some (c :: d, rest)
      else None
  | [] => None
  end.

Definition scan_frac (s : js_string) : option (js_string * js_string) :=
  match s with
  | c :: r =>
      if chr "." c then
        match take_digits r with
        | ([], _) => None
        | (d, rest) => Some (c :: d, rest)
        end
      else Some ([], s)
  | [] => Some ([], [])
  end.

(** An optional sign, one of the two characters [a] and [b]. *)
Definition scan_sign (a b : ascii) (s : js_string) : js_string * js_string :=
  match s with
  | g :: r => if chr a g || chr b g then ([g], r) else ([], s)
  | [] => ([], s)
  end.

Definition scan_exp (s : js_string) : option (js_string * js_string) :=
  match s with
  | c :: r =>
      if chr "e" c || chr "E" c then
        let '(sign, r1) := scan_sign "+" "-" r in
        match take_digits r1 with
        | ([], _) => None
        | (d, rest) => Some (c :: sign ++ d, rest)
        end
      else Some ([], s)
  | [] => Some ([], [])
  end.

Definition digits_value (d : js_string) : N :=
  fold_left (fun acc c => 10 * acc + (c - 48)) d 0.

(** The exponent that an exponent part denotes: its letter, an optional
    sign, digits. *)
Definition exponent_value (e : js_string) : Z :=
  match e with
  | _ :: g :: d =>
      if chr "-" g then (- Z.of_N (digits_value d))%Z
      else if chr "+" g then Z.of_N (digits_value d)
      else Z.of_N (digits_value (g :: d))
  | _ => 0%Z
  end.

(** The Number value of a literal, from its sign, its integer digits, its
    fraction (with the point) and its exponent part. *)
Definition literal_value (minus i f e : js_string) : spec_float :=
  let fraction := tail f in
  Number.of_decimal
    (match minus with [] => false | _ :: _ => true end)
    (digits_value (i ++ fraction))
    (exponent_value e - Z.of_nat (length fraction))%Z.

(** A number literal: [-]? int frac? exp?. *)
Definition scan_number (s : js_string) : option (spec_float * js_string) :=
  let '(minus, s1) := scan_sign "-" "-" s in
  match scan_int s1 with
  | None => None
  | Some (i, s2) =>
      match scan_frac s2 with
      | None => None
      | Some (f, s3) =>
          match scan_exp s3 with
          | None => None
          | Some (e, s4) => Some (literal_value minus i f e, s4)
          end
      end
  end.

Fixpoint strip_prefix (p s : js_string) : option js_string :=
  match p, s with
  | [], _ => Some s
  | a :: p', b :: s' => if a =? b then strip_prefix p' s' else None
  | _ :: _, [] => None
  end.

(** *** Objects

    [JSON.parse] creates the properties of an object in the order of the
    text, a repeated key keeping its place and taking the later value; the
    properties are then enumerated with the array indices first, in
    ascending order, and the other keys in the order of their creation. *)

(** An array index: the canonical decimal text of an integer below
    [2 ^ 32 - 1]. *)
Definition array_index (key : js_string) : option N :=
  match key with
  | [] => None
  | c :: r =>
      if forallb is_digit key
         && (negb (c =? 48) || match r with [] => true | _ :: _ => false end)
         && (digits_value key <? 4294967295)
      then Some (digits_value key) else None
  end.

(** CreateDataProperty. *)
Fixpoint define_property {A : Type} (key : js_string) (v : A)
    (props : list (js_string * A)) : list (js_string * A) :=
  match props with
  | [] => [(key, v)]
  | (k, w) :: rest =>
      if js_string_eqb k key then (k, v) :: rest
      else (k, w) :: define_property key v rest
  end.

Fixpoint insert_by_index {A : Type} (i : N) (p : js_string * A)
    (sorted : list (N * (js_string * A))) : list (N * (js_string * A)) :=
  match sorted with
  | [] => [(i, p)]
  | (j, q) :: rest =>
      if i <? j then (i, p) :: (j, q) :: rest
      else (j, q) :: insert_by_index i p rest
  end.

(** The own properties of the object that the members of the text
    create, as they are enumerated. *)
Definition own_properties {A : Type} (members : list (js_string * A))
  : list (js_string * A) :=
  let created :=
    fold_left (fun props m => define_property (fst m) (snd m) props) members [] in
  let indexed :=
    fold_left (fun sorted p =>
                 match array_index (fst p) with
                 | Some i => insert_by_index i p sorted
                 | None => sorted
                 end) created [] in
  map snd indexed ++
  filter (fun p => array_index (fst p) = None) created.

(** *** The parser: a stack machine over the text *)

(** An open container: the elements or members read so far (latest
    first) and, for an object, the key whose value is being read. *)
Inductive frame :=
| FArray (seen : list json)
| FObject (seen : list (js_string * json)) (key : js_string).

Inductive mode :=
| MValue (may_close : bool)   (* a value; [may_close]: just after an opening bracket *)
| MKey (seen : list (js_string * json)) (may_close : bool)
| MColon (seen : list (js_string * json)) (key : js_string)
| MAfter (v : json).          (* the value [v] is complete *)

Inductive outcome :=
| Parsed (v : json)
| SyntaxError
| OutOfFuel.

Fixpoint parse_loop (fuel : nat) (m : mode) (st : list frame) (s : js_string) : outcome :=
  match fuel with
  | O => OutOfFuel
  | S fuel =>
      match m, skip_ws s with
      | MAfter v, [] =>
          match st with [] => Parsed v | _ :: _ => SyntaxError end
      | MAfter v, c :: r =>
          match st with
          | [] => SyntaxError
          | FArray seen :: st' =>
              if chr "," c then parse_loop fuel (MValue false) (FArray (v :: seen) :: st') r
              else if chr "]" c then parse_loop fuel (MAfter (JArray (rev (v :: seen)))) st' r
              else SyntaxError
          | FObject seen key :: st' =>
              if chr "," c then parse_loop fuel (MKey ((key, v) :: seen) false) st' r
              else if chr "}" c then
                parse_loop fuel
                  (MAfter (JObject (own_properties (rev ((key, v) :: seen))))) st' r
              else SyntaxError
          end
      | _, [] => SyntaxError
      | MValue may_close, c :: r =>
          if chr "[" c then parse_loop fuel (MValue true) (FArray [] :: st) r
          else if chr "]" c then
            match may_close, st with
            | true, FArray [] :: st' => parse_loop fuel (MAfter (JArray [])) st' r
            | _, _ => SyntaxError
            end
          else if chr "{" c then parse_loop fuel (MKey [] true) st r
          else if c =? dquote then
            match scan_string r with
            | Some (str, rest) => parse_loop fuel (MAfter (JString str)) st rest
            | None => SyntaxError
            end
          else if chr "t" c then
            match strip_prefix (u "rue") r with
            | Some rest => parse_loop fuel (MAfter (JBool true)) st rest
            | None => SyntaxError
            end
          else if chr "f" c then
            match strip_prefix (u "alse") r with
            | Some rest => parse_loop fuel (MAfter (JBool false)) st rest
            | None => SyntaxError
            end
          else if chr "n" c then
            match strip_prefix (u "ull") r with
            | Some rest => parse_loop fuel (MAfter JNull) st rest
            | None => SyntaxError
            end
          else
            match scan_number (c :: r) with
            | Some (x, rest) => parse_loop fuel (MAfter (JNumber x)) st rest
            | None => SyntaxError
            end
      | MKey seen may_close, c :: r =>
          if c =? dquote then
            match scan_string r with
            | Some (key, rest) => parse_loop fuel (MColon seen key) st rest
            | None => SyntaxError
            end
          else if chr "}" c && may_close then parse_loop fuel (MAfter (JObject [])) st r
          else SyntaxError
      | MColon seen key, c :: r =>
          if chr ":" c then parse_loop fuel (MValue false) (FObject seen key :: st) r
          else SyntaxError
      end
  end.

(** [JSON.parse text]: [None] when it throws a SyntaxError. *)
Definition JSON_parse (text : js_string) : option json :=
  match parse_loop (S (S (length text))) (MValue false) [] text with
  | Parsed v => Some v
  | SyntaxError | OutOfFuel => None
  end.

(** *** [JSON.stringify] *)

(** QuoteJSONString: the characters of a string between its quotes. *)
Fixpoint quote_chars (s : js_string) : js_string :=
  match s with
  | [] => []
  | c :: r =>
      if c =? dquote then backslash :: dquote :: quote_chars r
      else if c =? backslash then backslash :: backslash :: quote_chars r
      else if c =? 8 then u "\b" ++ quote_chars r
      else if c =? 12 then u "\f" ++ quote_chars r
      else if c =? 10 then u "\n" ++ quote_chars r
      else if c =? 13 then u "\r" ++ quote_chars r
      else if c =? 9 then u "\t" ++ quote_chars r
      else if c <? 32 then u "\u" ++ hex4 c ++ quote_chars r
      else if is_high_surrogate c then
        match r with
        | d :: r' =>
            if is_low_surrogate d then c :: d :: quote_chars r'
            else u "\u" ++ hex4 c ++ quote_chars r
        | [] => u "\u" ++ hex4 c
        end
      else if is_low_surrogate c then u "\u" ++ hex4 c ++ quote_chars r
      else c :: quote_chars r
  end.

Definition quote (s : js_string) : js_string :=
  dquote :: quote_chars s ++ [dquote].

(** [JSON.stringify value], without indentation.  A number that is not
    finite is printed as [null]. *)
Fixpoint JSON_stringify (v : json) : js_string :=
  match v with
  | JNull => u "null"
  | JBool true => u "true"
  | JBool false => u "false"
  | JNumber x => if Number.is_finite x then Number.toString x else u "null"
  | JString s => quote s
  | JArray elements => u "[" ++ join (u ",") (map JSON_stringify elements) ++ u "]"
  | JObject properties =>
      u "{" ++
      join (u ",")
        (map (fun p => quote (fst p) ++ u ":" ++ JSON_stringify (snd p)) properties) ++
      u "}"
  end.

(** *** Arrays of parsed values *)

(** SameValueZero, the comparison of [Array.prototype.includes] and of
    [Set].  Every array or object that [JSON.parse] builds is a fresh
    object, the same as no other element. *)
Definition same_value_zero (a b : json) : bool :=
  match a, b with
  | JNull, JNull => true
  | JBool x, JBool y => Bool.eqb x y
  | JNumber x, JNumber y => Number.eqb x y
  | JString x, JString y => js_string_eqb x y
  | _, _ => false
  end.

(** [array.includes(value)]. *)
Definition includes (l : list json) (v : json) : bool :=
  existsb (same_value_zero v) l.

(** The key under which a [Set] keeps a value: the negative zero is kept
    as the positive one. *)
Definition set_key (x : json) : json :=
  match x with
  | JNumber (S754_zero true) => JNumber (S754_zero false)
  | _ => x
  end.

(** [[...new Set(array)]]: the first occurrence of each value, in order. *)
Fixpoint unique_from (seen l : list json) : list json :=
  match l with
  | [] => []
  | x :: r =>
      if includes seen x then unique_from seen r
      else set_key x :: unique_from (seen ++ [set_key x]) r
  end.

Definition unique (l : list json) : list json := unique_from [] l.

(** *** Conversion to a string *)

Definition has_own_property {A : Type} (key : js_string)
    (properties : list (js_string * A)) : bool :=
  existsb (fun p => js_string_eqb (fst p) key) properties.

(** The texts of the elements, or [None] as soon as one conversion
    throws. *)
Definition texts (text : json -> option js_string) : list json -> option (list js_string) :=
  fix go (l : list json) : option (list js_string) :=
    match l with
    | [] => Some []
    | x :: r =>
        match text x with
        | None => None
        | Some t =>
            match go r with
            | None => None
            | Some ts => Some (t :: ts)
            end
        end
    end.

(** ToString(value); [None] when it throws a TypeError.  An array is
    converted by its [join], in which null counts as the empty string.  An
    object that [JSON.parse] built inherits [toString] from
    [Object.prototype], unless it has a property of its own of that name:
    the value of that property is no function, [valueOf] gives no
    primitive value either, and the conversion throws. *)
Fixpoint ToString (v : json) : option js_string :=
  match v with
  | JNull => Some (u "null")
  | JBool true => Some (u "true")
  | JBool false => Some (u "false")
  | JNumber x => Some (Number.toString x)
  | JString s => Some s
  | JArray elements =>
      match texts (fun x => match x with JNull => Some [] | _ => ToString x end)
                  elements with
      | None => None
      | Some ts => Some (join (u ",") ts)
      end
  | JObject properties =>
      if has_own_property (u "toString") properties then None
      else Some (u "[object Object]")
  end.

(** [array.join(separator)]. *)
Definition Array_join (separator : js_string) (l : list json) : option js_string :=
  match texts (fun x => match x with JNull => Some [] | _ => ToString x end) l with
  | None => None
  | Some ts => Some (join separator ts)
  end.

(** A JSON text written with a single quote for each double quote. *)
Definition json_text (s : string) : js_string :=
  map (fun c => if c =? squote then dquote else c) (u s).

(** *** Paths that need no escape

    A character that [JSON.stringify] prints as it is and that stands for
    itself between quotes, single or double. *)
Definition plain (c : code_unit) : bool :=
  (32 <=? c) && negb (c =? dquote) && negb (c =? backslash) && negb (c =? squote)
  && negb (is_high_surrogate c) && negb (is_low_surrogate c).

Definition plain_path (p : js_string) : Prop := forallb plain p = true.

(** The rest of a serialized array of strings after its first element. *)
Definition elements_tail (ps : list js_string) : js_string :=
  concat (map (fun p => 44 :: quote p) ps).

End Json.

Export Json.

(** ** The embedded page: the webview side of [executeJavaScript] and
    [insertCSS] *)

Module Webview.

Open Scope N_scope.

(** *** Evaluation of a single-quoted string literal

    [loadStylesheetCSSInWebview] sends the registry to the page inside a
    script, between single quotes; the page reads it back as a string
    literal of a (non-strict) script.  [single_quoted s] takes the text
    after the opening quote. *)

Inductive literal_result :=
| Literal (value rest : js_string)   (* closed; [rest] is the text after the quote *)
| LiteralError.                      (* no literal: the script does not parse *)

Definition prepend (p : js_string) (res : literal_result) : literal_result :=
  match res with
  | Literal v rest => Literal (p ++ v) rest
  | LiteralError => LiteralError
  end.

Definition is_octal (c : code_unit) : bool := (48 <=? c) && (c <=? 55).

(** [Braced n v]: inside [\u{...}], after [n] digits of value [v]. *)
Inductive literal_state :=
| Plain
| Braced (digits : nat) (value : N).

Fixpoint single_quoted_from (st : literal_state) (s : js_string) : literal_result :=
  match st, s with
  | _, [] => LiteralError
  | Braced n v, c :: r =>
      if chr "}" c then
        match n with
        | O => LiteralError
        | S _ =>
            if 1114111 <? v then LiteralError
            else prepend (utf16 v) (single_quoted_from Plain r)
        end
      else
        match hex_value c with
        | Some h => single_quoted_from (Braced (S n) (v * 16 + h)) r
        | None => LiteralError
        end
  | Plain, c :: r =>
      if c =? squote then Literal [] r
      else if (c =? 10) || (c =? 13) then LiteralError
      else if c =? backslash then
        match r with
        | [] => LiteralError
        | e :: r1 =>
            let simple (v : code_unit) := prepend [v] (single_quoted_from Plain r1) in
            if chr "b" e then simple 8
            else if chr "t" e then simple 9
            else if chr "n" e then simple 10
            else if chr "v" e then simple 11
            else if chr "f" e then simple 12
            else if chr "r" e then simple 13
            else if (e =? 10) || (e =? 8232) || (e =? 8233) then
              single_quoted_from Plain r1                     (* line continuation *)
            else if e =? 13 then
              match r1 with
              | 10 :: r2 => single_quoted_from Plain r2
              | _ => single_quoted_from Plain r1
              end
            else if chr "x" e then
              match r1 with
              | h1 :: h2 :: r2 =>
                  match hex_value h1, hex_value h2 with
                  | Some a, Some b => prepend [a * 16 + b] (single_quoted_from Plain r2)
                  | _, _ => LiteralError
                  end
              | _ => LiteralError
              end
            else if chr "u" e then
              match r1 with
              | h1 :: r2 =>
                  if chr "{" h1 then single_quoted_from (Braced 0 0) r2
                  else
                    match r2 with
                    | h2 :: h3 :: h4 :: r3 =>
                        match hex_value h1, hex_value h2, hex_value h3, hex_value h4 with
                        | Some a, Some b, Some c', Some d =>
                            prepend [a * 4096 + b * 256 + c' * 16 + d]
                              (single_quoted_from Plain r3)
                        | _, _, _, _ => LiteralError
                        end
                    | _ => LiteralError
                    end
              | [] => LiteralError
              end
            else if is_octal e then                           (* legacy octal escape *)
              match r1 with
              | d2 :: r2 =>
                  if is_octal d2 then
                    match r2 with
                    | d3 :: r3 =>
                        if is_octal d3 && (e <=? 51) then
                          prepend [(e - 48) * 64 + (d2 - 48) * 8 + (d3 - 48)]
                            (single_quoted_from Plain r3)
                        else prepend [(e - 48) * 8 + (d2 - 48)] (single_quoted_from Plain r2)
                    | [] => prepend [(e - 48) * 8 + (d2 - 48)] (single_quoted_from Plain r2)
                    end
                  else simple (e - 48)
              | [] => simple (e - 48)
              end
            else simple e
        end
      else prepend [c] (single_quoted_from Plain r)
  end.

Definition single_quoted (s : js_string) : literal_result :=
  single_quoted_from Plain s.

(** A character that stands for itself in a single-quoted literal. *)
Definition literal_safe (c : code_unit) : bool :=
  negb (c =? squote) && negb (c =? backslash) && negb (c =? 10) && negb (c =? 13).

(** *** Errors and promises *)

Inductive error :=
| JsonSyntaxError                 (* the SyntaxError of JSON.parse *)
| TypeError
| Error (message : js_string)     (* Error(message) *)
| External (code : N).            (* an error raised by the environment *)

(** A settled promise. *)
Inductive settled (A : Type) :=
| Resolved (a : A)
| Rejected (e : error).
Arguments Resolved {A} a.
Arguments Rejected {A} e.

(** The two methods of a webview that the library calls, over the state
    [W] of the embedded page.  [executeJavaScript] is [None] for a script
    whose evaluation the model does not determine. *)
Record webview (W : Type) := {
  executeJavaScript : js_string -> W -> option (settled (option js_string) * W);
  insertCSS : js_string -> W -> settled unit * W
}.
Arguments executeJavaScript {W} _ _ _.
Arguments insertCSS {W} _ _ _.

(** *** A page that evaluates the two scripts of the library *)

Record page := {
  injectedstylesheets : option js_string;   (* html.dataset.injectedstylesheets *)
  stylesheets : list js_string              (* the CSS inserted so far *)
}.

Definition read_registry_code : js_string :=
  u "document.querySelector('html').dataset.injectedstylesheets;".

Definition write_registry_prefix : js_string :=
  u "document.querySelector('html').dataset.injectedstylesheets = '".

Definition write_registry_code (payload : js_string) : js_string :=
  write_registry_prefix ++ payload ++ u "';".

Definition page_executeJavaScript (code : js_string) (p : page)
  : option (settled (option js_string) * page) :=
  if js_string_eqb code read_registry_code then
    Some (Resolved (injectedstylesheets p), p)
  else
    match strip_prefix write_registry_prefix code with
    | Some body =>
        match single_quoted body with
        | Literal v rest =>
            if js_string_eqb rest (u ";") then
              Some (Resolved (Some v),
                    {| injectedstylesheets := Some v; stylesheets := stylesheets p |})
            else None
        | LiteralError => None
        end
    | None => None
    end.

Definition page_insertCSS (css : js_string) (p : page) : settled unit * page :=
  (Resolved tt,
   {| injectedstylesheets := injectedstylesheets p;
      stylesheets := stylesheets p ++ [css] |}).

Definition page_webview : webview page :=
  {| executeJavaScript := page_executeJavaScript; insertCSS := page_insertCSS |}.

End Webview.

Export Webview.

(** ** [loadStylesheetCSSInWebview]

    The function is a chain of continuations: the registry read, the three
    listeners of the read stream, the insertion and the registry write.
    The model runs them in the order in which the events arrive, each
    promise being settled before the next stream event is delivered, and
    records the calls made on the webview, the file system, the minifier
    and the callback.  The calls of the logger are left out, and the
    callback is taken not to throw. *)

Module Injector.

(** What the read stream of [fs.createReadStream] emits, in order. *)
Inductive stream_event :=
| Data (chunk : js_string)
| StreamError (e : error)
| Close.

(** The calls a run makes on its collaborators, in order.  [Uncaught] is
    an exception that leaves a stream listener. *)
Inductive action :=
| ExecuteJavaScript (code : js_string)
| CreateReadStream (path : js_string)
| Minify (cssText : js_string)
| InsertCSS (styles : js_string)
| Callback (err : option error) (result : option js_string)
| Uncaught (e : error).

(** The variables the listeners close over. *)
Record closure := {
  cssData : option js_string;          (* [let cssData]: undefined until assigned *)
  stylesheetPathList : list json
}.

(** [undefined + chunk] and [text + chunk]. *)
Definition add_assign (data : option js_string) (chunk : js_string) : option js_string :=
  match data with
  | None => Some (u "undefined" ++ chunk)
  | Some text => Some (text ++ chunk)
  end.

(** A value as the condition of an [if]. *)
Definition truthy (result : option js_string) : bool :=
  match result with
  | Some (_ :: _) => true
  | Some [] | None => false
  end.

Definition previously_injected_message (stylesheetPath : js_string) : js_string :=
  u "stylesheet was previously injected from path: " ++ stylesheetPath.

(** Step 2 of the source: the registry the run continues with, or the
    error the callback receives.  A parsed value that is not an array has
    no [join], and the [join] of an array throws when an element has no
    conversion to a string: either TypeError reaches the callback through
    [.catch].  The text that [join] returns goes to the logger only. *)
Definition previously_injected (result : option js_string) (stylesheetPath : js_string)
  : error + list json :=
  if truthy result then
    match JSON_parse (default [] result) with
    | None => inl JsonSyntaxError
    | Some (JArray l) =>
        match Array_join (u ", ") l with
        | None => inl TypeError
        | Some _ =>
            if includes l (JString stylesheetPath)
            then inl (Error (previously_injected_message stylesheetPath))
            else inr l
        end
    | Some _ => inl TypeError
    end
  else inr [].

Section Run.

Context {W : Type}.
Variable webviewElement : webview W.
(** The file system: the events of the stream opened on a path, or the
    exception [createReadStream] throws. *)
Variable fs_createReadStream : js_string -> error + list stream_event.
Variable os_EOL : js_string.
(** [(new cleanCSS()).minify(text).styles]. *)
Variable cleanCSS_minify : js_string -> js_string.

(** A computation over the page that logs its actions; [None] when the
    page leaves a script undetermined. *)
Definition M (A : Type) : Type := W -> option (A * list action * W).

Definition ret {A} (a : A) : M A := fun w => Some (a, [], w).

Definition bind {A B} (m : M A) (k : A -> M B) : M B :=
  fun w =>
    match m w with
    | None => None
    | Some (a, l1, w1) =>
        match k a w1 with
        | None => None
        | Some (b, l2, w2) => Some (b, l1 ++ l2, w2)
        end
    end.

Notation "x <- m ;; k" := (bind m (fun x => k))
  (at level 100, m at next level, right associativity).
Notation "m ;; k" := (bind m (fun _ => k))
  (at level 100, right associativity).

Definition emit (a : action) : M unit := fun w => Some (tt, [a], w).

Definition call_executeJavaScript (code : js_string) : M (settled (option js_string)) :=
  fun w =>
    match executeJavaScript webviewElement code w with
    | None => None
    | Some (r, w') => Some (r, [ExecuteJavaScript code], w')
    end.

Definition call_insertCSS (styles : js_string) : M (settled unit) :=
  fun w =>
    let '(r, w') := insertCSS webviewElement styles w in
    Some (r, [InsertCSS styles], w').

(** The listener of ['close']. *)
Definition on_close (stylesheetPath : js_string) (c : closure) : M closure :=
  match cssData c with
  | None => emit (Uncaught TypeError) ;; ret c
  | Some data =>
      let cssText := trim data ++ os_EOL in
      emit (Minify cssText) ;;
      let styles := cleanCSS_minify cssText in
      inserted <- call_insertCSS styles ;;
      match inserted with
      | Rejected e => emit (Callback (Some e) None) ;; ret c
      | Resolved _ =>
          let l := unique (stylesheetPathList c ++ [JString stylesheetPath]) in
          let c' := {| cssData := cssData c; stylesheetPathList := l |} in
          written <- call_executeJavaScript
                       (write_registry_code (JSON_stringify (JArray l))) ;;
          match written with
          | Resolved _ => emit (Callback None (Some styles)) ;; ret c'
          | Rejected e => emit (Callback (Some e) None) ;; ret c'
          end
      end
  end.

(** The three listeners, over the events of the stream. *)
Fixpoint deliver (stylesheetPath : js_string) (events : list stream_event)
  (c : closure) : M unit :=
  match events with
  | [] => ret tt
  | Data chunk :: rest =>
      deliver stylesheetPath rest
        {| cssData := add_assign (cssData c) chunk;
           stylesheetPathList := stylesheetPathList c |}
  | StreamError e :: rest =>
      emit (Callback (Some e) None) ;; deliver stylesheetPath rest c
  | Close :: rest =>
      c' <- on_close stylesheetPath c ;; deliver stylesheetPath rest c'
  end.

(** Steps 3 to 5, from the registry [l] that step 2 leaves: the read
    stream, and its listeners over the events it emits. *)
Definition read_and_inject (stylesheetPath : js_string) (l : list json) : M unit :=
  emit (CreateReadStream stylesheetPath) ;;
  match fs_createReadStream stylesheetPath with
  | inl e => emit (Callback (Some e) None)
  | inr events =>
      deliver stylesheetPath events {| cssData := None; stylesheetPathList := l |}
  end.

Definition loadStylesheetCSSInWebview (stylesheetPath : js_string) : M unit :=
  read <- call_executeJavaScript read_registry_code ;;
  match read with
  | Rejected e => emit (Callback (Some e) None)
  | Resolved result =>
      match previously_injected result stylesheetPath with
      | inl e => emit (Callback (Some e) None)
      | inr l => read_and_inject stylesheetPath l
      end
  end.

(** The actions of a run and the page it leaves. *)
Definition run (stylesheetPath : js_string) (w : W) : option (list action * W) :=
  match loadStylesheetCSSInWebview stylesheetPath w with
  | Some (_, actions, w') => Some (actions, w')
  | None => None
  end.

End Run.

(** What Node emits for a file read in chunks: the chunks, then ['close'];
    when the read fails, the error and then, the stream being opened
    with [autoClose] and [emitClose], ['close'] as well. *)
Definition stream_of_file (chunks : list js_string) : list stream_event :=
  map Data chunks ++ [Close].

Definition stream_failing_after (chunks : list js_string) (e : error) : list stream_event :=
  map Data chunks ++ [StreamError e; Close].

(** [os.EOL] on POSIX systems and on Windows. *)
Definition posix_EOL : js_string := [10%N].
Definition win32_EOL : js_string := [13%N; 10%N].

(** A page without a registry, as a document is when it is loaded. *)
Definition fresh_page : page :=
  {| injectedstylesheets := None; stylesheets := [] |}.

Definition page_with_registry (registry : js_string) : page :=
  {| injectedstylesheets := Some registry; stylesheets := [] |}.

(** The run against the page, the file being given by the events of its
    stream. *)
Definition inject_file (os_EOL : js_string) (cleanCSS_minify : js_string -> js_string)
  (events : list stream_event) : js_string -> page -> option (list action * page) :=
  run page_webview (fun _ => inr events) os_EOL cleanCSS_minify.

(** A minifier for the examples: it strips the final line terminator. *)
Definition strip_EOL (css : js_string) : js_string := trim css.

(** The registry attribute of the page holds the paths [ps]. *)
Definition registry_is (p : page) (ps : list js_string) : Prop :=
  (injectedstylesheets p = None /\ ps = []) \/
  injectedstylesheets p = Some (JSON_stringify (JArray (map JString ps))).

(** The run ended with [callback(null, styles)]. *)
Definition succeeded (actions : list action) : bool :=
  match last actions with
  | Some (Callback None (Some _)) => true
  | _ => false
  end.

(** One injection after the other, each of a file given by its path and
    its chunks, as long as they succeed. *)
Fixpoint inject_all (os_EOL : js_string) (cleanCSS_minify : js_string -> js_string)
  (files : list (js_string * list js_string)) (p : page) : option page :=
  match files with
  | [] => Some p
  | (path, chunks) :: rest =>
      match inject_file os_EOL cleanCSS_minify (stream_of_file chunks) path p with
      | Some (actions, p') =>
          if succeeded actions then inject_all os_EOL cleanCSS_minify rest p' else None
      | None => None
      end
  end.

End Injector.

(** ** [addClassList] and [removeClassList] *)

Module ClassList.

Open Scope N_scope.

(** *** The token list behind [element.classList] (DOM, DOMTokenList) *)

Definition is_ascii_whitespace (c : code_unit) : bool :=
  (c =? 9) || (c =? 10) || (c =? 12) || (c =? 13) || (c =? 32).

(** Split on ASCII whitespace; [token] is the token being read. *)
Fixpoint split_on_whitespace (s token : js_string) : list js_string :=
  match s with
  | [] => match token with [] => [] | _ :: _ => [token] end
  | c :: r =>
      if is_ascii_whitespace c then
        match token with
        | [] => split_on_whitespace r []
        | _ :: _ => token :: split_on_whitespace r []
        end
      else split_on_whitespace r (token ++ [c])
  end.

(** Append to an ordered set. *)
Definition append_token (set : list js_string) (token : js_string) : list js_string :=
  if bool_decide (token ∈ set) then set else set ++ [token].

Definition ordered_set_parser (s : js_string) : list js_string :=
  foldl append_token [] (split_on_whitespace s []).

Definition ordered_set_serializer (set : list js_string) : js_string :=
  join [32] set.

(** An element: its tag and its attributes by name. *)
Record element := {
  tagName : js_string;
  attributes : gmap js_string js_string
}.

Definition class_name : js_string := u "class".

Definition class_attribute (e : element) : option js_string :=
  attributes e !! class_name.

Definition token_set (e : element) : list js_string :=
  match class_attribute e with
  | Some value => ordered_set_parser value
  | None => []
  end.

Inductive dom_exception :=
| SyntaxError
| InvalidCharacterError.

(** The validation that opens [add] and [remove]. *)
Fixpoint validate (tokens : list js_string) : option dom_exception :=
  match tokens with
  | [] => None
  | t :: rest =>
      match t with
      | [] => Some SyntaxError
      | _ :: _ =>
          if existsb is_ascii_whitespace t then Some InvalidCharacterError
          else validate rest
      end
  end.

(** The update steps: nothing when there is no attribute and no token,
    else the attribute is set to the serialized token set. *)
Definition update_steps (e : element) (set : list js_string) : element :=
  match class_attribute e, set with
  | None, [] => e
  | _, _ =>
      {| tagName := tagName e;
         attributes := <[class_name := ordered_set_serializer set]> (attributes e) |}
  end.

Definition classList_add (tokens : list js_string) (e : element)
  : dom_exception + element :=
  match validate tokens with
  | Some x => inl x
  | None => inr (update_steps e (foldl append_token (token_set e) tokens))
  end.

Definition classList_remove (tokens : list js_string) (e : element)
  : dom_exception + element :=
  match validate tokens with
  | Some x => inl x
  | None =>
      inr (update_steps e
             (filter (fun t => t ∉ tokens) (token_set e)))
  end.

(** *** The two helpers *)

(** The elements of the document, in document order. *)
Abbreviation document := (list element).

Section Document.

(** [document.querySelectorAll(selector)]: the positions of the matched
    elements, or [None] when the selector is not valid (a SyntaxError). *)
Variable querySelectorAll : js_string -> document -> option (list nat).

(** [nodes.forEach(element => method(element))]: the document after the
    loop and the exception that ended it, if any. *)
Fixpoint forEach (method : element -> dom_exception + element)
  (nodes : list nat) (doc : document) : option dom_exception * document :=
  match nodes with
  | [] => (None, doc)
  | i :: rest =>
      match doc !! i with
      | None => forEach method rest doc
      | Some e =>
          match method e with
          | inl x => (Some x, doc)
          | inr e' => forEach method rest (<[i := e']> doc)
          end
      end
  end.

Definition addClassList (selector : js_string) (classList : option (list js_string))
  (doc : document) : option dom_exception * document :=
  let classList := default [] classList in
  match querySelectorAll selector doc with
  | None => (Some SyntaxError, doc)
  | Some nodes => forEach (classList_add classList) nodes doc
  end.

Definition removeClassList (selector : js_string) (classList : option (list js_string))
  (doc : document) : option dom_exception * document :=
  let classList := default [] classList in
  match querySelectorAll selector doc with
  | None => (Some SyntaxError, doc)
  | Some nodes => forEach (classList_remove classList) nodes doc
  end.

End Document.

(** The element after the update steps have run on its own token set. *)
Definition reserialized (e : element) : element := update_steps e (token_set e).

Definition no_whitespace (t : js_string) : Prop :=
  existsb is_ascii_whitespace t = false.

(** A token: not empty, and without whitespace. *)
Definition is_token (t : js_string) : Prop := t <> [] /\ no_whitespace t.

(** Each element of [doc'] is the element of [doc] at its position,
    reserialized or not. *)
Definition each_reserialized (doc doc' : document) : Prop :=
  length doc' = length doc /\
  forall i e, doc !! i = Some e ->
    doc' !! i = Some e \/ doc' !! i = Some (reserialized e).

(** [querySelectorAll] for type selectors: the elements with that tag. *)
Definition by_tag (selector : js_string) (doc : document) : option (list nat) :=
  Some (filter (fun i => bool_decide (tagName <$> doc !! i = Some selector))
          (seq 0 (length doc))).

Definition div (class : js_string) : element :=
  {| tagName := u "div"; attributes := {[ class_name := class ]} |}.

End ClassList.

(** ** [didScrollIntoViewport] *)

Module Viewport.

(** What the function reads of an element: the top edge of its bounding
    rectangle. *)
Record element := { top : Q }.

Inductive completion (A : Type) :=
| Return (a : A)
| Throw (e : error).
Arguments Return {A} a.
Arguments Throw {A} e.

(** [elementList.length], a Number. *)
Definition length_of (elementList : list element) : spec_float :=
  Number.of_Z (Z.of_nat (length elementList)).

(** [elementList[index]] for a Number: the element at that position when
    the number is an integer and a position of the list, undefined
    otherwise. *)
Definition item (elementList : list element) (index : spec_float) : option element :=
  match Number.to_integer index with
  | Some i => if (i <? 0)%Z then None else elementList !! Z.to_nat i
  | None => None
  end.

Definition one : spec_float := Number.of_Z 1.

(** The literal [0.75]. *)
Definition default_threshold : spec_float := Number.of_decimal false 75 (-2).

(** [elementList.length - (1 - threshold) * fixedCount]. *)
Definition position (elementList : list element) (threshold fixedCount : spec_float)
  : spec_float :=
  Number.sub (length_of elementList)
             (Number.mul (Number.sub one threshold) fixedCount).

(** [Math.floor(elementList.length - (1 - threshold) * fixedCount)]. *)
Definition targetIndex (elementList : list element) (threshold fixedCount : spec_float)
  : spec_float :=
  Number.floor (position elementList threshold fixedCount).

(** [clientHeight] is [document.documentElement.clientHeight]; an omitted
    argument is [None].  The result [None] is [undefined]. *)
Definition didScrollIntoViewport (clientHeight : Z) (elementList : list element)
  (threshold fixedCount : option spec_float) : completion (option bool) :=
  let threshold := default default_threshold threshold in
  let fixedCount := default (length_of elementList) fixedCount in
  match elementList with
  | [] => Return None
  | _ :: _ =>
      match item elementList
              (Number.sub (targetIndex elementList threshold fixedCount) one) with
      | None => Throw TypeError
      | Some targetElement =>
          Return (Some (Qle_bool (top targetElement) (inject_Z clientHeight)))
      end
  end.

(** Ten elements, 20 pixels apart: the k-th has its top edge at 20 k. *)
Definition ten_rows : list element :=
  map (fun k => {| top := inject_Z (20 * Z.of_nat k) |}) (seq 1 10).

End Viewport.

(** ** [formatDuration] *)

Module Duration.

Open Scope N_scope.

Definition two_digits (n : N) : js_string :=
  if n <? 10 then 48 :: decimal n else decimal n.

(** Modelled from the spec: [moment.duration(duration).format('h:mm:ss')],
    the formatter of the packages moment and moment-duration-format, which
    the repository requires and does not contain.  A duration is a whole
    number of seconds; it is rendered as H:MM:SS, the leading units that
    are zero being trimmed, so that the zero-length duration is rendered
    as 0. *)
Definition moment_duration_format (seconds : N) : js_string :=
  let h := seconds / 3600 in
  let m := seconds / 60 mod 60 in
  let s := seconds mod 60 in
  if 0 <? h then decimal h ++ u ":" ++ two_digits m ++ u ":" ++ two_digits s
  else if 0 <? m then decimal m ++ u ":" ++ two_digits s
  else decimal s.

(** The infinity symbol, U+221E. *)
Definition infinity : js_string := [8734].

Definition formatDuration (duration : N) : js_string :=
  let duration := moment_duration_format duration in
  if js_string_eqb duration (u "0") then infinity else duration.

End Duration.

(** ** [remove] *)

Module Dom.

Open Scope N_scope.

(** A node of the tree, by reference: its parent and its children. *)
Record node := {
  parentNode : option N;
  childNodes : list N
}.

Inductive completion (A : Type) :=
| Return (a : A)
| Throw (e : error).
Arguments Return {A} a.
Arguments Throw {A} e.

Definition parent_of (nodes : gmap N node) (n : N) : option N :=
  nodes !! n ≫= parentNode.

Definition children_of (nodes : gmap N node) (n : N) : list N :=
  match nodes !! n with
  | Some nd => childNodes nd
  | None => []
  end.

(** [parent.removeChild(child)]: a NotFoundError (here [External 8], its
    legacy code) when [child] is not a child of [parent]. *)
Definition removeChild (parent child : N) (nodes : gmap N node)
  : completion (gmap N node) :=
  if bool_decide (parent_of nodes child = Some parent) then
    Return
      (alter (fun nd => {| parentNode := parentNode nd;
                           childNodes := filter (fun c => c ≠ child) (childNodes nd) |})
         parent
         (alter (fun nd => {| parentNode := None; childNodes := childNodes nd |})
            child nodes))
  else Throw (External 8).

(** The function passed to [setTimeout] by [remove], with the variables it
    closes over. *)
Inductive task :=
| RemoveTask (element : N) (timeout : N).

(** The window: the tree, and the timers that have not fired, by id, each
    with its delay. *)
Record window := {
  nodes : gmap N node;
  timers : gmap N (N * task);
  next_timer : N
}.

Definition setTimeout (handler : N -> task) (delay : N) (w : window) : N * window :=
  let id := next_timer w in
  (id, {| nodes := nodes w;
          timers := <[id := (delay, handler id)]> (timers w);
          next_timer := id + 1 |}).

Definition clearTimeout (id : N) (w : window) : window :=
  {| nodes := nodes w; timers := delete id (timers w); next_timer := next_timer w |}.

Definition run_task (t : task) (w : window) : completion window :=
  match t with
  | RemoveTask element timeout =>
      match parent_of (nodes w) element with
      | Some parent =>
          match removeChild parent element (nodes w) with
          | Return nodes' =>
              Return (clearTimeout timeout
                        {| nodes := nodes'; timers := timers w;
                           next_timer := next_timer w |})
          | Throw e => Throw e
          end
      | None => Return (clearTimeout timeout w)
      end
  end.

(** [remove(element, delay)]; an omitted delay is [None]. *)
Definition remove (element : N) (delay : option N) (w : window) : window :=
  snd (setTimeout (RemoveTask element) (default 0 delay) w).

(** The timer [id] fires: it leaves the table and its task runs. *)
Definition fire (id : N) (w : window) : option (completion window) :=
  match timers w !! id with
  | None => None
  | Some (_, t) =>
      Some (run_task t {| nodes := nodes w; timers := delete id (timers w);
                          next_timer := next_timer w |})
  end.

End Dom.

(** ** [getElementIndex] *)

Module ElementIndex.

Import Dom.

(** The loop of [getElementIndex], entered at [index] with the children
    that are left to compare: it stops at the first child that is the
    element, and at the length of the list when there is none. *)
Fixpoint scan (element : N) (childList : list N) (index : nat) : nat :=
  match childList with
  | [] => index
  | child :: rest =>
      if bool_decide (element = child) then index
      else scan element rest (S index)
  end.

(** [element.parentNode.childNodes] is a TypeError when the element has no
    parent node. *)
Definition getElementIndex (nodes : gmap N node) (element : N) : completion nat :=
  match parent_of nodes element with
  | None => Throw TypeError
  | Some parent => Return (scan element (children_of nodes parent) 0)
  end.

(** A tree in which every child list is without repetition and lists
    exactly the nodes whose parent it belongs to. *)
Definition well_formed (nodes : gmap N node) : Prop :=
  forall parent, NoDup (children_of nodes parent) /\
    forall child, child ∈ children_of nodes parent <-> parent_of nodes child = Some parent.

(** A parent with three children, and a node outside the tree. *)
Definition family : gmap N node :=
  {[ 1 := {| parentNode := None; childNodes := [2; 3; 4] |};
     2 := {| parentNode := Some 1; childNodes := [] |};
     3 := {| parentNode := Some 1; childNodes := [] |};
     4 := {| parentNode := Some 1; childNodes := [] |};
     9 := {| parentNode := None; childNodes := [] |} ]}.

End ElementIndex.

(** ** Webviews that fail, and the count of callback calls *)

Module InjectorCases.

Import Injector.

Definition is_callback (a : action) : bool :=
  match a with
  | Callback _ _ => true
  | _ => false
  end.

(** How many times a run called the callback. *)
Definition callbacks (actions : list action) : nat :=
  length (List.filter is_callback actions).

(** The page behind a webview that rejects every [insertCSS]. *)
Definition refusing_insertion : webview page :=
  {| executeJavaScript := page_executeJavaScript;
     insertCSS := fun _ p => (Rejected (External 1), p) |}.

(** The page behind a webview that answers the registry read and rejects
    every other script. *)
Definition refusing_write : webview page :=
  {| executeJavaScript := fun code p =>
       if js_string_eqb code read_registry_code then page_executeJavaScript code p
       else Some (Rejected (External 2), p);
     insertCSS := page_insertCSS |}.

End InjectorCases.

(** Two stylesheets, each with its path and the chunks of its file. *)
Definition two_stylesheets : list (js_string * list js_string) :=
  [(u "/css/a.css", [u "body{}"]); (u "/css/b.css", [u "p{"; u "}"])].

(** ** The elements that [classList.add] and [classList.remove] leave *)

Module ClassListOps.

Import ClassList.

(** The element after [classList.add(...tokens)] with valid tokens. *)
Definition with_tokens_added (tokens : list js_string) (e : element) : element :=
  update_steps e (foldl append_token (token_set e) tokens).

(** The element after [classList.remove(...tokens)] with valid tokens. *)
Definition with_tokens_removed (tokens : list js_string) (e : element) : element :=
  update_steps e (filter (fun t => t ∉ tokens) (token_set e)).

End ClassListOps.

Export ClassListOps.

(** Three elements: two [div], the first with a class attribute that is not
    in serialized form, and a [span]. *)
Definition three_elements : ClassList.document :=
  [ClassList.div (u "a  b");
   {| ClassList.tagName := u "span"; ClassList.attributes := ∅ |};
   {| ClassList.tagName := u "div"; ClassList.attributes := ∅ |}].

(** ** [findChildElementByDatasetValue] *)

Module Dataset.

Import ClassList.

Definition is_upper (c : code_unit) : bool := (65 <=? c) && (c <=? 90).

(** The attributes that [element.dataset] exposes: the name starts with
    [data-] and has no ASCII upper-case letter after it. *)
Definition is_data_attribute (name : js_string) : bool :=
  match strip_prefix (u "data-") name with
  | Some rest => negb (existsb is_upper rest)
  | None => false
  end.

(** [Object.values(element.dataset)]. *)
Definition dataset_values (e : element) : list js_string :=
  (map_to_list (filter (fun entry => is_data_attribute (fst entry) = true) (attributes e))).*2.

(** [itemElementList.find(...)]: the first selected element one of whose
    dataset values is the value. *)
Fixpoint find_item (value : js_string) (descendants : document) (nodes : list nat)
  : option element :=
  match nodes with
  | [] => None
  | i :: rest =>
      match descendants !! i with
      | Some itemElement =>
          if bool_decide (value ∈ dataset_values itemElement) then Some itemElement
          else find_item value descendants rest
      | None => find_item value descendants rest
      end
  end.

Section Find.

(** [element.querySelectorAll(tag)] over the descendants of the element, in
    document order: the positions of the selected ones, or [None] for a
    selector that is not valid. *)
Variable querySelectorAll : js_string -> document -> option (list nat).

(** The element is given by its descendants, [None] being a missing
    element; a missing value or tag is [None].  The result [inr None] is
    [undefined]. *)
Definition findChildElementByDatasetValue (element : option document)
  (value tag : option js_string) : dom_exception + option ClassList.element :=
  match element with
  | None => inr None
  | Some descendants =>
      if Injector.truthy value then
        match querySelectorAll (default (u "li") tag) descendants with
        | None => inl SyntaxError
        | Some nodes => inr (find_item (default [] value) descendants nodes)
        end
      else inr None
  end.

End Find.

(** An attribute of the element that [dataset] exposes holds the value. *)
Definition has_data_value (e : element) (value : js_string) : Prop :=
  exists name, is_data_attribute name = true /\ attributes e !! name = Some value.

Definition li (attrs : list (js_string * js_string)) : element :=
  {| tagName := u "li"; attributes := list_to_map attrs |}.

(** A list of three items, the last two with the same [data-id]. *)
Definition menu : document :=
  [li [(u "data-id", u "home"); (u "title", u "x")];
   li [(u "data-id", u "x"); (u "data-kind", [])];
   li [(u "data-id", u "x")]].

End Dataset.

(** ** [setVisibility], [show] and [hide] *)

Module Visibility.

Import ClassList.

(** The function passed to [setTimeout] by [setVisibility], with the
    variables it closes over. *)
Inductive task :=
| VisibilityTask (element : N) (visible : bool) (timeout : N).

(** The elements by reference, and the timers that have not fired. *)
Record window := {
  elements : gmap N element;
  timers : gmap N (N * task);
  next_timer : N
}.

Definition setTimeout (handler : N -> task) (delay : N) (w : window) : N * window :=
  let id := next_timer w in
  (id, {| elements := elements w;
          timers := <[id := (delay, handler id)]> (timers w);
          next_timer := id + 1 |}).

Definition clearTimeout (id : N) (w : window) : window :=
  {| elements := elements w; timers := delete id (timers w);
     next_timer := next_timer w |}.

Definition show_class : js_string := u "show".
Definition hide_class : js_string := u "hide".

(** The class that a call sets, and the class it clears. *)
Definition on_class (visible : bool) : js_string :=
  if visible then show_class else hide_class.
Definition off_class (visible : bool) : js_string :=
  if visible then hide_class else show_class.

(** [element.classList.add(on); element.classList.remove(off)]. *)
Definition add_then_remove (on off : js_string) (e : element) : dom_exception + element :=
  match classList_add [on] e with
  | inl x => inl x
  | inr e1 => classList_remove [off] e1
  end.

(** How a handler ends: normally, with an exception of the token list, or
    with the TypeError of a missing element. *)
Inductive completion :=
| Return (w : window)
| ThrowDom (x : dom_exception)
| ThrowTypeError.

Definition run_task (t : task) (w : window) : completion :=
  match t with
  | VisibilityTask element visible timeout =>
      match elements w !! element with
      | None => ThrowTypeError
      | Some e =>
          let changed :=
            if visible then add_then_remove show_class hide_class e
            else add_then_remove hide_class show_class e in
          match changed with
          | inl x => ThrowDom x
          | inr e' =>
              Return (clearTimeout timeout
                        {| elements := <[element := e']> (elements w);
                           timers := timers w; next_timer := next_timer w |})
          end
      end
  end.

(** [setVisibility(element, visible, delay)]; an omitted delay is [None]. *)
Definition setVisibility (element : N) (visible : bool) (delay : option N) (w : window)
  : window :=
  snd (setTimeout (VisibilityTask element visible) (default 0 delay) w).

Definition hide (element : N) (delay : option N) (w : window) : window :=
  setVisibility element false delay w.

Definition show (element : N) (delay : option N) (w : window) : window :=
  setVisibility element true delay w.

(** The timer [id] fires: it leaves the table and its handler runs. *)
Definition fire (id : N) (w : window) : option completion :=
  match timers w !! id with
  | None => None
  | Some (_, t) =>
      Some (run_task t {| elements := elements w; timers := delete id (timers w);
                          next_timer := next_timer w |})
  end.

(** A window with one element, of classes [panel] and [hide]. *)
Definition one_panel : window :=
  {| elements := {[ 1 := div (u "panel hide") ]}; timers := ∅; next_timer := 1 |}.

End Visibility.

(** ** [addClassListInWebview] *)

Module WebviewClassList.

Import ClassList.

(** *** The script *)

Definition code_before_selector : js_string :=
  [10] ++ u "        Array.from(document.querySelectorAll('".

Definition code_after_selector : js_string :=
  u ")).forEach((element) => {" ++ [10] ++ u "            element.classList.add(".

Definition code_after_arguments : js_string :=
  u ");" ++ [10] ++ u "        });" ++ [10] ++ u "        ".

(** The separator of [classList.join]: a quote, a comma, a space, a quote. *)
Definition separator : js_string := [dquote] ++ u ", " ++ [dquote].

(** The template literal of the source, with the selector between single
    quotes and the joined class names between double quotes. *)
Definition addClassList_code (selector : js_string) (classList : list js_string)
  : js_string :=
  code_before_selector ++ selector ++ [squote] ++ code_after_selector ++
  [dquote] ++ join separator classList ++ [dquote] ++ code_after_arguments.

Section Run.

Context {W : Type}.
Variable webviewElement : webview W.

(** [classList.join] on a missing class list is a TypeError, thrown before
    any script is sent ([inl]); otherwise the script is sent and the
    callback receives its result, or its error. *)
Definition addClassListInWebview (selector : js_string)
  (classList : option (list js_string)) (w : W)
  : error + option (list Injector.action * W) :=
  match classList with
  | None => inl TypeError
  | Some classList =>
      let code := addClassList_code selector classList in
      inr match executeJavaScript webviewElement code w with
          | None => None
          | Some (Resolved result, w') =>
              Some ([Injector.ExecuteJavaScript code; Injector.Callback None result], w')
          | Some (Rejected e, w') =>
              Some ([Injector.ExecuteJavaScript code; Injector.Callback (Some e) None], w')
          end
  end.

End Run.

(** *** The script in the page *)

(** A string literal closed by the quote [q], from the text after its
    opening quote: the escapes are those of [single_quoted_from]. *)
Fixpoint quoted_from (q : code_unit) (st : literal_state) (s : js_string)
  : literal_result :=
  match st, s with
  | _, [] => LiteralError
  | Braced n v, c :: r =>
      if chr "}" c then
        match n with
        | O => LiteralError
        | S _ =>
            if 1114111 <? v then LiteralError
            else prepend (utf16 v) (quoted_from q Plain r)
        end
      else
        match hex_value c with
        | Some h => quoted_from q (Braced (S n) (v * 16 + h)) r
        | None => LiteralError
        end
  | Plain, c :: r =>
      if c =? q then Literal [] r
      else if (c =? 10) || (c =? 13) then LiteralError
      else if c =? backslash then
        match r with
        | [] => LiteralError
        | e :: r1 =>
            let simple (v : code_unit) := prepend [v] (quoted_from q Plain r1) in
            if chr "b" e then simple 8
            else if chr "t" e then simple 9
            else if chr "n" e then simple 10
            else if chr "v" e then simple 11
            else if chr "f" e then simple 12
            else if chr "r" e then simple 13
            else if (e =? 10) || (e =? 8232) || (e =? 8233) then
              quoted_from q Plain r1                     (* line continuation *)
            else if e =? 13 then
              match r1 with
              | 10 :: r2 => quoted_from q Plain r2
              | _ => quoted_from q Plain r1
              end
            else if chr "x" e then
              match r1 with
              | h1 :: h2 :: r2 =>
                  match hex_value h1, hex_value h2 with
                  | Some a, Some b => prepend [a * 16 + b] (quoted_from q Plain r2)
                  | _, _ => LiteralError
                  end
              | _ => LiteralError
              end
            else if chr "u" e then
              match r1 with
              | h1 :: r2 =>
                  if chr "{" h1 then quoted_from q (Braced 0 0) r2
                  else
                    match r2 with
                    | h2 :: h3 :: h4 :: r3 =>
                        match hex_value h1, hex_value h2, hex_value h3, hex_value h4 with
                        | Some a, Some b, Some c', Some d =>
                            prepend [a * 4096 + b * 256 + c' * 16 + d]
                              (quoted_from q Plain r3)
                        | _, _, _, _ => LiteralError
                        end
                    | _ => LiteralError
                    end
              | [] => LiteralError
              end
            else if is_octal e then                           (* legacy octal escape *)
              match r1 with
              | d2 :: r2 =>
                  if is_octal d2 then
                    match r2 with
                    | d3 :: r3 =>
                        if is_octal d3 && (e <=? 51) then
                          prepend [(e - 48) * 64 + (d2 - 48) * 8 + (d3 - 48)]
                            (quoted_from q Plain r3)
                        else prepend [(e - 48) * 8 + (d2 - 48)] (quoted_from q Plain r2)
                    | [] => prepend [(e - 48) * 8 + (d2 - 48)] (quoted_from q Plain r2)
                    end
                  else simple (e - 48)
              | [] => simple (e - 48)
              end
            else simple e
        end
      else prepend [c] (quoted_from q Plain r)
  end.

(** The arguments of the call, from the opening quote of the first one:
    string literals between double quotes, separated by a comma and a
    space.  [None]: the text has another shape. *)
Fixpoint arguments (fuel : nat) (s : js_string) : option (list js_string * js_string) :=
  match fuel, s with
  | S fuel, c :: r =>
      if c =? dquote then
        match quoted_from dquote Plain r with
        | Literal v rest =>
            match strip_prefix (u ", ") rest with
            | Some more =>
                match arguments fuel more with
                | Some (vs, tail) => Some (v :: vs, tail)
                | None => None
                end
            | None => Some ([v], rest)
            end
        | LiteralError => None
        end
      else None
  | _, _ => None
  end.

Section Page.

Variable querySelectorAll : js_string -> document -> option (list nat).

(** What the script does to the document of the page: the statements of
    [addClassList], with the selector and the class names that its two
    literals denote.  [None]: the text is not a script of this shape. *)
Definition evaluate (code : js_string) (doc : document)
  : option (option dom_exception * document) :=
  match strip_prefix code_before_selector code with
  | None => None
  | Some s1 =>
      match single_quoted s1 with
      | LiteralError => None
      | Literal selector s2 =>
          match strip_prefix code_after_selector s2 with
          | None => None
          | Some s3 =>
              match arguments (length s3) s3 with
              | None => None
              | Some (classList, s4) =>
                  if js_string_eqb s4 code_after_arguments then
                    Some (addClassList querySelectorAll selector (Some classList) doc)
                  else None
              end
          end
      end
  end.

End Page.

(** A character that stands for itself in a double-quoted literal. *)
Definition double_quote_safe (c : code_unit) : bool :=
  negb (c =? dquote) && negb (c =? backslash) && negb (c =? 10) && negb (c =? 13).

End WebviewClassList.


(** ** [getListeners], [removeListeners] (lines 65–69, 383–396)

    An element's event listener list holds one entry per registration; an
    entry is identified by its event type, its callback (a function, by
    reference) and its capture flag, which are also the three arguments of
    [removeEventListener]. *)

Module Listeners.
Import JsString.

Record eventListener := {
  type : js_string;
  listener : N;
  useCapture : bool
}.

#[global] Instance eventListener_eq_dec : EqDecision eventListener.
Proof. solve_decision. Defined.

(** [element.removeEventListener(type, listener, useCapture)]: the entry of
    the list with that type, callback and capture flag leaves it; a call that
    matches no entry does nothing. *)
Fixpoint removeEventListener (type' : js_string) (listener' : N)
    (useCapture' : bool) (registered : list eventListener) : list eventListener :=
  match registered with
  | [] => []
  | entry :: rest =>
      if bool_decide (type entry = type' /\ listener entry = listener'
                      /\ useCapture entry = useCapture')
      then rest
      else entry :: removeEventListener type' listener' useCapture' rest
  end.

Section Remove.

(** The host's [getEventListeners]: an object from event types to arrays of
    listener records, its keys in insertion order. *)
Variable getEventListeners :
  list eventListener -> list (js_string * list eventListener).

Definition getListeners (element : list eventListener) :
    list (js_string * list eventListener) :=
  getEventListeners element.

(** [Object.keys(eventListenerTypeList).forEach] around
    [eventListenerList.forEach]; the event type passed on is the record's own,
    not the key. *)
Definition removeListeners (element : list eventListener) : list eventListener :=
  let eventListenerTypeList := getListeners element in
  foldl (fun element' entry =>
           let eventListenerList := snd entry in
           foldl (fun element'' eventListener =>
                    removeEventListener (type eventListener)
                      (listener eventListener) (useCapture eventListener)
                      element'')
                 element' eventListenerList)
        element eventListenerTypeList.

(** All the records an object of listeners holds, in the order the loops
    visit them. *)
Definition records (o : list (js_string * list eventListener)) :
    list eventListener :=
  concat (map snd o).

End Remove.

(** A host that reports every registration, grouped by event type in the
    order the types were first used. *)
Fixpoint report (e : eventListener) (o : list (js_string * list eventListener)) :
    list (js_string * list eventListener) :=
  match o with
  | [] => [(type e, [e])]
  | (t, es) :: rest =>
      if bool_decide (t = type e) then (t, es ++ [e]) :: rest
      else (t, es) :: report e rest
  end.

Definition report_all (element : list eventListener) :
    list (js_string * list eventListener) :=
  foldl (fun o e => report e o) [] element.

(** A host that reports the listeners of one event type only. *)
Definition report_only (t : js_string) (element : list eventListener) :
    list (js_string * list eventListener) :=
  [(t, filter (fun e => type e = t) element)].

Definition three_listeners : list eventListener :=
  [ {| type := u "click"; listener := 1; useCapture := false |};
    {| type := u "keydown"; listener := 2; useCapture := false |};
    {| type := u "click"; listener := 3; useCapture := true |} ].

End Listeners.

(** * Properties *)

(** ** [JSON.parse]: the fuel is enough; the parse of serialized paths *)

Section ParserFuel.

Import Json.

Lemma skip_ws_length (s : js_string) : (length (skip_ws s) <= length s)%nat.
Proof.
  induction s as [|c r IH]; simpl; [lia|].
  destruct (is_json_ws c); simpl; lia.
Qed.

Lemma skip_ws_cons (s r : js_string) (c : code_unit) :
  skip_ws s = c :: r -> (length r < length s)%nat.
Proof.
  intros H. pose proof (skip_ws_length s) as Hl. rewrite H in Hl. simpl in Hl. lia.
Qed.

Lemma scan_string_length (s str rest : js_string) :
  scan_string s = Some (str, rest) -> (length rest < length s)%nat.
Proof.
  remember (length s) as n eqn:Hn.
  revert s str rest Hn.
  induction n as [n IH] using lt_wf_ind.
  intros s str rest Hn Hs.
  destruct s as [|c r]; simpl in Hs; [discriminate|].
  simpl in Hn.
  destruct (N.eqb c dquote); [inversion Hs; subst; simpl; lia|].
  destruct (N.ltb c 32); [discriminate|].
  assert (Hstep : forall t v, (length t < n)%nat ->
            match scan_string t with
            | Some (str0, rest0) => Some (v :: str0, rest0)
            | None => None
            end = Some (str, rest) -> (length rest < length t)%nat).
  { intros t v Ht Hm. destruct (scan_string t) as [[a b]|] eqn:E; [|discriminate].
    inversion Hm; subst. eapply (IH (length t)); eauto. }
  destruct (N.eqb c backslash).
  - destruct r as [|e r1]; [discriminate|]. simpl in Hn.
    repeat match type of Hs with
           | (if ?b then _ else _) = _ => destruct b
           end;
      try discriminate;
      try (apply Hstep in Hs; simpl; lia).
    destruct r1 as [|h1 [|h2 [|h3 [|h4 r2]]]]; try discriminate.
    destruct (hex_value h1), (hex_value h2), (hex_value h3), (hex_value h4);
      try discriminate.
    simpl in Hn. apply Hstep in Hs; simpl in *; lia.
  - apply Hstep in Hs; simpl; lia.
Qed.

Lemma take_digits_length (s d rest : js_string) :
  take_digits s = (d, rest) -> (length rest <= length s)%nat.
Proof.
  revert d rest. induction s as [|c r IH]; simpl; intros d rest H.
  - inversion H; subst; simpl; lia.
  - destruct (is_digit c).
    + destruct (take_digits r) as [d' rest'] eqn:E. inversion H; subst.
      specialize (IH _ _ eq_refl). lia.
    + inversion H; subst; simpl; lia.
Qed.

Lemma scan_int_length (s i rest : js_string) :
  scan_int s = Some (i, rest) -> (length rest < length s)%nat.
Proof.
  destruct s as [|c r]; simpl; [discriminate|].
  destruct (N.eqb c 48); [intros H; inversion H; subst; lia|].
  destruct (is_digit c); [|discriminate].
  destruct (take_digits r) as [d rest'] eqn:E. intros H; inversion H; subst.
  apply take_digits_length in E. lia.
Qed.

Lemma scan_frac_length (s f rest : js_string) :
  scan_frac s = Some (f, rest) -> (length rest <= length s)%nat.
Proof.
  destruct s as [|c r]; simpl; [intros H; inversion H; subst; simpl; lia|].
  destruct (chr "." c).
  - destruct (take_digits r) as [d rest'] eqn:E.
    apply take_digits_length in E.
    destruct d; [discriminate|]. intros H; inversion H; subst. lia.
  - intros H; inversion H; subst; simpl; lia.
Qed.

Lemma scan_sign_length (a b : ascii) (s sign rest : js_string) :
  scan_sign a b s = (sign, rest) -> (length rest <= length s)%nat.
Proof.
  destruct s as [|g r]; simpl; [intros H; inversion H; subst; simpl; lia|].
  destruct (chr a g || chr b g); intros H; inversion H; subst; simpl; lia.
Qed.

Lemma scan_exp_length (s e rest : js_string) :
  scan_exp s = Some (e, rest) -> (length rest <= length s)%nat.
Proof.
  destruct s as [|c r]; simpl; [intros H; inversion H; subst; simpl; lia|].
  destruct (chr "e" c || chr "E" c).
  - destruct (scan_sign "+" "-" r) as [sign r1] eqn:Er.
    apply scan_sign_length in Er.
    destruct (take_digits r1) as [d rest'] eqn:E.
    apply take_digits_length in E.
    destruct d; [discriminate|]. intros H; inversion H; subst. lia.
  - intros H; inversion H; subst; simpl; lia.
Qed.

Lemma scan_number_length (s : js_string) (x : spec_float) (rest : js_string) :
  scan_number s = Some (x, rest) -> (length rest < length s)%nat.
Proof.
  unfold scan_number.
  destruct (scan_sign "-" "-" s) as [minus s1] eqn:Em.
  apply scan_sign_length in Em.
  destruct (scan_int s1) as [[i s2]|] eqn:Ei; [|discriminate].
  destruct (scan_frac s2) as [[f s3]|] eqn:Ef; [|discriminate].
  destruct (scan_exp s3) as [[e s4]|] eqn:Ee; [|discriminate].
  intros H; inversion H; subst.
  apply scan_int_length in Ei. apply scan_frac_length in Ef.
  apply scan_exp_length in Ee. lia.
Qed.

Lemma strip_prefix_length (p s rest : js_string) :
  strip_prefix p s = Some rest -> (length rest <= length s)%nat.
Proof.
  revert s. induction p as [|a p IH]; intros s; simpl.
  - intros H; inversion H; subst; lia.
  - destruct s as [|b s']; [discriminate|].
    destruct (N.eqb a b); [|discriminate].
    intros H. apply IH in H. simpl. lia.
Qed.

(** With more fuel than characters the machine never stops for lack of
    fuel: every step but the last reads at least one character. *)
Lemma parse_loop_fuel_enough (fuel : nat) :
  forall (m : mode) (st : list frame) (s : js_string),
    (length s < fuel)%nat -> parse_loop fuel m st s <> OutOfFuel.
Proof.
  induction fuel as [|fuel IH]; intros m st s Hlen; [lia|].
  cbn [parse_loop].
  destruct (skip_ws s) as [|c r] eqn:Es.
  - destruct m; try discriminate. destruct st; discriminate.
  - apply skip_ws_cons in Es.
    destruct m as [may_close|seen may_close|seen key|v];
      repeat match goal with
             | |- (if ?b then _ else _) <> _ => destruct b
             | |- match scan_string ?t with _ => _ end <> _ =>
                 let E := fresh "E" in
                 destruct (scan_string t) as [[? ?]|] eqn:E;
                 [apply scan_string_length in E|]
             | |- match strip_prefix ?p ?t with _ => _ end <> _ =>
                 let E := fresh "E" in
                 destruct (strip_prefix p t) as [?|] eqn:E;
                 [apply strip_prefix_length in E|]
             | |- match scan_number ?t with _ => _ end <> _ =>
                 let E := fresh "E" in
                 destruct (scan_number t) as [[? ?]|] eqn:E;
                 [apply scan_number_length in E; simpl in E|]
             | |- match ?x with _ => _ end <> _ => destruct x
             end;
      try discriminate; apply IH; simpl in *; lia.
Qed.

(** [JSON_parse] answers [None] for a syntax error only. *)
Lemma JSON_parse_None (text : js_string) :
  JSON_parse text = None <->
  parse_loop (S (S (length text))) (MValue false) [] text = Json.SyntaxError.
Proof.
  unfold JSON_parse.
  pose proof (parse_loop_fuel_enough (S (S (length text))) (MValue false) [] text) as H.
  destruct (parse_loop _ _ _ text); split; intros; try discriminate; try reflexivity.
  exfalso. apply H; [lia|reflexivity].
Qed.

(** Two runs that both have enough fuel agree. *)
Lemma parse_loop_fuel_agree (f1 : nat) :
  forall (f2 : nat) (m : mode) (st : list frame) (s : js_string),
    parse_loop f1 m st s <> OutOfFuel -> parse_loop f2 m st s <> OutOfFuel ->
    parse_loop f1 m st s = parse_loop f2 m st s.
Proof.
  induction f1 as [|f1 IH]; intros f2 m st s H1 H2; [simpl in H1; congruence|].
  destruct f2 as [|f2]; [simpl in H2; congruence|].
  revert H1 H2. cbn [parse_loop].
  destruct (skip_ws s) as [|c r].
  - destruct m; try reflexivity.
  - destruct m as [may_close|seen may_close|seen key|v];
      repeat match goal with
             | |- context [if ?b then _ else _] => destruct b
             | |- context [match scan_string ?t with _ => _ end] =>
                 destruct (scan_string t) as [[? ?]|]
             | |- context [match strip_prefix ?p ?t with _ => _ end] =>
                 destruct (strip_prefix p t) as [?|]
             | |- context [match scan_number ?t with _ => _ end] =>
                 destruct (scan_number t) as [[? ?]|]
             | |- context [match ?x with _ => _ end] => is_var x; destruct x
             end;
      try reflexivity; apply IH.
Qed.

Lemma plain_spec (c : code_unit) :
  plain c = true ->
  32 <= c /\ c <> dquote /\ c <> backslash /\ c <> squote /\
  is_high_surrogate c = false /\ is_low_surrogate c = false.
Proof.
  unfold plain. rewrite !andb_true_iff, !negb_true_iff, !N.eqb_neq, N.leb_le. tauto.
Qed.

Lemma quote_chars_plain (p : js_string) : plain_path p -> quote_chars p = p.
Proof.
  unfold plain_path. induction p as [|c r IH]; [reflexivity|].
  cbn [forallb quote_chars]. rewrite andb_true_iff. intros [Hc Hr].
  apply plain_spec in Hc as (H32 & Hdq & Hbs & _ & Hhi & Hlo).
  rewrite (proj2 (N.eqb_neq c dquote) Hdq), (proj2 (N.eqb_neq c backslash) Hbs).
  replace (c =? 8) with false by (symmetry; apply N.eqb_neq; lia).
  replace (c =? 12) with false by (symmetry; apply N.eqb_neq; lia).
  replace (c =? 10) with false by (symmetry; apply N.eqb_neq; lia).
  replace (c =? 13) with false by (symmetry; apply N.eqb_neq; lia).
  replace (c =? 9) with false by (symmetry; apply N.eqb_neq; lia).
  replace (c <? 32) with false by (symmetry; apply N.ltb_ge; lia).
  rewrite Hhi, Hlo, IH by exact Hr. reflexivity.
Qed.

Lemma scan_string_plain (p rest : js_string) :
  plain_path p -> scan_string (p ++ dquote :: rest) = Some (p, rest).
Proof.
  unfold plain_path. induction p as [|c r IH]; [reflexivity|].
  cbn [forallb app scan_string]. rewrite andb_true_iff. intros [Hc Hr].
  apply plain_spec in Hc as (H32 & Hdq & Hbs & _).
  rewrite (proj2 (N.eqb_neq c dquote) Hdq), (proj2 (N.eqb_neq c backslash) Hbs).
  replace (c <? 32) with false by (symmetry; apply N.ltb_ge; lia).
  rewrite IH by exact Hr. reflexivity.
Qed.

Lemma quote_plain (p : js_string) : plain_path p -> quote p = dquote :: p ++ [dquote].
Proof. intros H. unfold quote. rewrite quote_chars_plain by exact H. reflexivity. Qed.

Lemma parse_loop_string (f : nat) (b : bool) (st : list frame) (p rest : js_string) :
  plain_path p ->
  parse_loop (S f) (MValue b) st (quote p ++ rest) = parse_loop f (MAfter (JString p)) st rest.
Proof.
  intros Hp. rewrite quote_plain by exact Hp.
  change ((dquote :: p ++ [dquote]) ++ rest) with (dquote :: (p ++ [dquote]) ++ rest).
  rewrite <- app_assoc. cbn [app].
  cbn [parse_loop]. change (skip_ws (dquote :: p ++ dquote :: rest)) with (dquote :: p ++ dquote :: rest).
  cbv beta iota. change (chr "[" dquote) with false. change (chr "]" dquote) with false.
  change (chr "{" dquote) with false. change (dquote =? dquote) with true. cbv iota.
  rewrite scan_string_plain by exact Hp. reflexivity.
Qed.

Lemma join_quotes (p : js_string) (ps : list js_string) :
  join (u ",") (map quote (p :: ps)) = quote p ++ elements_tail ps.
Proof.
  revert p. induction ps as [|q ps IH]; intros p.
  - simpl. rewrite app_nil_r. reflexivity.
  - change (join (u ",") (map quote (p :: q :: ps)))
      with (quote p ++ u "," ++ join (u ",") (map quote (q :: ps))).
    rewrite IH. reflexivity.
Qed.

Lemma elements_tail_cons (p : js_string) (ps : list js_string) (rest : js_string) :
  elements_tail (p :: ps) ++ rest = 44 :: quote p ++ elements_tail ps ++ rest.
Proof.
  unfold elements_tail. cbn [map concat]. cbn [app]. rewrite <- app_assoc. reflexivity.
Qed.

Lemma parse_loop_elements (ps : list js_string) :
  forall (f : nat) (v : json) (seen : list json) (st : list frame) (rest : js_string),
    Forall plain_path ps ->
    parse_loop (2 * length ps + 1 + f) (MAfter v) (FArray seen :: st)
      (elements_tail ps ++ 93 :: rest)
    = parse_loop f (MAfter (JArray (rev seen ++ v :: map JString ps))) st rest.
Proof.
  induction ps as [|p ps IH]; intros f v seen st rest Hall.
  - reflexivity.
  - inversion Hall as [|? ? Hp Hps]; subst.
    replace (2 * length (p :: ps) + 1 + f)%nat
      with (S (S (2 * length ps + 1 + f))) by (simpl; lia).
    rewrite elements_tail_cons.
    change (parse_loop (S (S (2 * length ps + 1 + f))) (MAfter v) (FArray seen :: st)
              (44 :: quote p ++ elements_tail ps ++ 93 :: rest))
      with (parse_loop (S (2 * length ps + 1 + f)) (MValue false) (FArray (v :: seen) :: st)
              (quote p ++ elements_tail ps ++ 93 :: rest)).
    rewrite parse_loop_string by exact Hp.
    rewrite IH by exact Hps.
    cbn [rev map]. rewrite <- app_assoc. reflexivity.
Qed.

(** [JSON.parse] inverts [JSON.stringify] on an array of such paths. *)
Lemma JSON_parse_stringify_paths (ps : list js_string) :
  Forall plain_path ps ->
  JSON_parse (JSON_stringify (JArray (map JString ps))) = Some (JArray (map JString ps)).
Proof.
  intros Hall. destruct ps as [|p ps]; [reflexivity|].
  inversion Hall as [|? ? Hp Hps]; subst.
  set (text := JSON_stringify (JArray (map JString (p :: ps)))).
  assert (Hrun : parse_loop (S (S (2 * length ps + 1 + 1))) (MValue false) [] text
                 = Parsed (JArray (map JString (p :: ps)))).
  { unfold text. cbn [JSON_stringify].
    change (map JSON_stringify (map JString (p :: ps))) with
      (quote p :: map JSON_stringify (map JString ps)).
    replace (map JSON_stringify (map JString ps)) with (map quote ps)
      by (rewrite map_map; reflexivity).
    change (quote p :: map quote ps) with (map quote (p :: ps)).
    rewrite join_quotes.
    change (u "[" ++ (quote p ++ elements_tail ps) ++ u "]")
      with (91 :: (quote p ++ elements_tail ps) ++ [93]).
    rewrite <- app_assoc.
    change (parse_loop (S (S (2 * length ps + 1 + 1))) (MValue false) []
              (91 :: quote p ++ elements_tail ps ++ [93]))
      with (parse_loop (S (2 * length ps + 1 + 1)) (MValue true) [FArray []]
              (quote p ++ elements_tail ps ++ [93])).
    rewrite parse_loop_string by exact Hp.
    rewrite parse_loop_elements by exact Hps. reflexivity. }
  unfold JSON_parse.
  rewrite <- (parse_loop_fuel_agree (S (S (2 * length ps + 1 + 1))) (S (S (length text)))).
  - rewrite Hrun. reflexivity.
  - rewrite Hrun. discriminate.
  - apply parse_loop_fuel_enough. lia.
Qed.

End ParserFuel.

(** ** Numbers and objects in a registry: examples *)

Section JsonExamples.

(** Numbers are printed as the language prints them, whatever their
    literal was. *)
Lemma numbers_are_printed_canonically :
  JSON_stringify <$> JSON_parse (json_text "[1.0,1e2,0.10,-0,1e21,1E-7,0.1e1,5e-324,1e400]")
  = Some (json_text "[1,100,0.1,0,1e+21,1e-7,1,5e-324,null]").
Proof. vm_compute. reflexivity. Qed.

(** A repeated key keeps its place and takes the later value; array
    indices come first, in ascending order. *)
Lemma properties_are_ordered :
  JSON_stringify <$> JSON_parse (json_text "{'b':1,'a':2,'b':3,'10':0,'2':1,'01':4}")
  = Some (json_text "{'2':1,'10':0,'b':3,'a':2,'01':4}").
Proof. vm_compute. reflexivity. Qed.

(** A set keeps one of several equal numbers, and every array and object. *)
Lemma unique_numbers :
  (fun v => match v with
            | JArray l => JSON_stringify (JArray (unique l))
            | _ => []
            end) <$> JSON_parse (json_text "[1.0,1,1e2,100,0,-0,'a','a',[],[],{},{}]")
  = Some (json_text "[1,100,0,'a',[],[],{},{}]").
Proof. vm_compute. reflexivity. Qed.

(** The [join] of a registry: null is the empty text, an array is joined
    with commas, an object is [[object Object]]; an object with a member
    named [toString] has no conversion. *)
Lemma join_examples :
  (fun v => match v with JArray l => Array_join (u ", ") l | _ => None end)
    <$> JSON_parse (json_text "[1.5,null,[1,[2,null]],{'a':1},true,'x']")
  = Some (Some (u "1.5, , 1,2,, [object Object], true, x")) /\
  (fun v => match v with JArray l => Array_join (u ", ") l | _ => None end)
    <$> JSON_parse (json_text "['x',[[{'toString':null}]]]")
  = Some None.
Proof. split; vm_compute; reflexivity. Qed.

End JsonExamples.

(** ** The stylesheet injector *)

Section InjectorFacts.

Import Injector.

Context {W : Type}.
Variable webviewElement : webview W.
Variable fs_createReadStream : js_string -> error + list stream_event.
Variable os_EOL : js_string.
Variable cleanCSS_minify : js_string -> js_string.


(** A run that stops at step 2 performs the registry read and one call
    of the callback, and leaves the page as the read left it. *)
Lemma run_stops_at_step_2 (stylesheetPath : js_string) (result : option js_string)
  (e : error) (w w' : W) :
  executeJavaScript webviewElement read_registry_code w = Some (Resolved result, w') ->
  previously_injected result stylesheetPath = inl e ->
  run webviewElement fs_createReadStream os_EOL cleanCSS_minify stylesheetPath w =
    Some ([ExecuteJavaScript read_registry_code; Callback (Some e) None], w').
Proof.
  intros Hread Hstep.
  unfold run, loadStylesheetCSSInWebview, read_and_inject, bind, call_executeJavaScript.
  rewrite Hread, Hstep. reflexivity.
Qed.

Lemma includes_In (l : list json) (s : js_string) :
  In (JString s) l -> includes l (JString s) = true.
Proof.
  intros Hin. unfold includes. apply existsb_exists.
  exists (JString s). split; [exact Hin|].
  simpl. unfold js_string_eqb. apply bool_decide_eq_true. reflexivity.
Qed.

Lemma JSON_parse_empty : JSON_parse [] = None.
Proof. reflexivity. Qed.

Lemma truthy_parsed (registry : js_string) (v : json) :
  JSON_parse registry = Some v -> truthy (Some registry) = true.
Proof.
  destruct registry; [rewrite JSON_parse_empty; discriminate|reflexivity].
Qed.

(** The [join] of an array of strings throws nothing. *)
Lemma Array_join_strings (separator : js_string) (ps : list js_string) :
  Array_join separator (map JString ps) = Some (join separator ps).
Proof.
  unfold Array_join.
  assert (H : texts (fun x => match x with JNull => Some [] | _ => ToString x end)
                (map JString ps) = Some ps).
  { induction ps as [|q ps IH]; [reflexivity|].
    cbn [map texts]. cbn [texts map] in IH. cbn [ToString]. rewrite IH. reflexivity. }
  rewrite H. reflexivity.
Qed.


(** C4, amended. When the registry attribute that the page returns in
    step 1 is a non-empty text that JSON.parse rejects, the run consists
    of the registry read and of one call of the callback with the parse
    error: no read stream is created, nothing is minified or inserted.
    When the attribute is the empty text, which JSON.parse rejects as
    well, nothing is parsed: the run is the run on a page without the
    attribute, the registry read followed by steps 3 to 5 from the empty
    registry. *)
Theorem unparsable_registry_fails_immediately
  (stylesheetPath : js_string) (result : option js_string) (w w' : W) :
  executeJavaScript webviewElement read_registry_code w = Some (Resolved result, w') ->
  JSON_parse (default [] result) = None ->
  run webviewElement fs_createReadStream os_EOL cleanCSS_minify stylesheetPath w =
    match result with
    | Some (_ :: _) =>
        Some ([ExecuteJavaScript read_registry_code;
               Callback (Some JsonSyntaxError) None],
              w')
    | Some [] | None =>
        match read_and_inject webviewElement fs_createReadStream os_EOL
                cleanCSS_minify stylesheetPath [] w' with
        | Some (_, actions, w'') =>
            Some (ExecuteJavaScript read_registry_code :: actions, w'')
        | None => None
        end
    end.
Proof.
  intros Hread Hparse.
  destruct result as [[|c r]|].
  - unfold run, loadStylesheetCSSInWebview, bind at 1, call_executeJavaScript at 1.
    rewrite Hread. cbn [previously_injected truthy].
    destruct (read_and_inject _ _ _ _ _ _ w') as [[[[] actions] w'']|]; reflexivity.
  - apply run_stops_at_step_2 with (result := Some (c :: r)); [exact Hread|].
    unfold previously_injected. cbn [truthy]. cbv [default from_option id] in *.
    rewrite Hparse. reflexivity.
  - unfold run, loadStylesheetCSSInWebview, bind at 1, call_executeJavaScript at 1.
    rewrite Hread. cbn [previously_injected truthy].
    destruct (read_and_inject _ _ _ _ _ _ w') as [[[[] actions] w'']|]; reflexivity.
Qed.

End InjectorFacts.

Section InjectorOnPage.

Import Injector.



Lemma unparsable_registry_fails_immediately_witness :
  inject_file posix_EOL strip_EOL (stream_of_file [u "body{}"]) (u "/css/a.css")
    (page_with_registry (u "/css/a.css, /css/b.css"))
  = Some ([ExecuteJavaScript read_registry_code;
           Callback (Some JsonSyntaxError) None],
          page_with_registry (u "/css/a.css, /css/b.css")).
Proof.
  apply (unparsable_registry_fails_immediately page_webview
           (fun _ => inr (stream_of_file [u "body{}"])) posix_EOL strip_EOL
           (u "/css/a.css") (Some (u "/css/a.css, /css/b.css"))).
  - reflexivity.
  - vm_compute. reflexivity.
Defined.

(** C4, as stated, fails on the empty attribute: it is present, JSON.parse
    rejects the empty text, and yet the run takes it for an empty
    registry, reads the file and injects it. *)
Lemma empty_registry_attribute_is_not_parsed :
  JSON_parse [] = None /\
  inject_file posix_EOL strip_EOL (stream_of_file [u "body{}"]) (u "/css/a.css")
    (page_with_registry [])
  = Some ([ExecuteJavaScript read_registry_code;
           CreateReadStream (u "/css/a.css");
           Minify (u "undefinedbody{}" ++ posix_EOL);
           InsertCSS (u "undefinedbody{}");
           ExecuteJavaScript
             (write_registry_code (JSON_stringify (JArray [JString (u "/css/a.css")])));
           Callback None (Some (u "undefinedbody{}"))],
          {| injectedstylesheets :=
               Some (JSON_stringify (JArray [JString (u "/css/a.css")]));
             stylesheets := [u "undefinedbody{}"] |}).
Proof.
  split; [reflexivity|].
  vm_compute. reflexivity.
Qed.

(** The text a file stream accumulates: the chunks after the text of
    [undefined]. *)
Lemma cssData_of_chunks (chunks : list js_string) (data : option js_string) :
  foldl add_assign data chunks =
    match chunks with
    | [] => data
    | _ :: _ => Some (default (u "undefined") data ++ concat chunks)
    end.
Proof.
  revert data. induction chunks as [|c chunks IH]; intros data; [reflexivity|].
  simpl foldl. rewrite IH.
  destruct chunks as [|c' chunks'].
  - destruct data; simpl; rewrite ?app_nil_r; reflexivity.
  - destruct data; simpl; rewrite <- ?app_assoc; reflexivity.
Qed.

Lemma deliver_chunks {W : Type} (wv : webview W) (eol : js_string)
  (minify : js_string -> js_string) (path : js_string)
  (chunks : list js_string) (rest : list stream_event) (c : closure) :
  deliver wv eol minify path (map Data chunks ++ rest) c =
  deliver wv eol minify path rest
    {| cssData := foldl add_assign (cssData c) chunks;
       stylesheetPathList := stylesheetPathList c |}.
Proof.
  revert c. induction chunks as [|k chunks IH]; intros c; simpl.
  - destruct c; reflexivity.
  - rewrite IH. reflexivity.
Qed.

(** What the minifier receives, for every webview and every file of at
    least one chunk, when the page has no registry: the chunks after the
    nine characters of [undefined], trimmed, then the line terminator. *)
Lemma minifier_input {W : Type} (wv : webview W) (eol : js_string)
  (minify : js_string -> js_string) (path c : js_string) (chunks : list js_string)
  (w w1 w' : W) (actions : list action) :
  executeJavaScript wv read_registry_code w = Some (Resolved None, w1) ->
  run wv (fun _ => inr (stream_of_file (c :: chunks))) eol minify path w
    = Some (actions, w') ->
  exists rest,
    actions = ExecuteJavaScript read_registry_code :: CreateReadStream path ::
              Minify (trim (u "undefined" ++ concat (c :: chunks)) ++ eol) :: rest.
Proof.
  intros Hread.
  unfold run, loadStylesheetCSSInWebview, read_and_inject, bind at 1, call_executeJavaScript.
  rewrite Hread. cbn [previously_injected truthy].
  unfold stream_of_file. unfold bind at 1. cbn [emit].
  rewrite deliver_chunks, cssData_of_chunks. cbn [cssData default deliver].
  unfold bind at 1. unfold on_close at 1. cbn [cssData].
  unfold bind at 1. cbn [emit].
  match goal with
  | |- context [match ?m w1 with _ => _ end] => destruct (m w1) as [[[a l1] w2]|]
  end; [|discriminate].
  match goal with
  | |- context [match ?m w2 with _ => _ end] => destruct (m w2) as [[[b l2] w3]|]
  end; [|discriminate].
  intros H. inversion H; subst. eexists. reflexivity.
Qed.

(** C2, on the code. The file has the single chunk [body{}]; the claim
    gives the minifier [body{}] and the line terminator, the run gives it
    [undefinedbody{}] and the line terminator: the buffer is declared
    without a value, and the first [+=] turns it into the text
    [undefined]. *)
Theorem minifier_receives_undefined_prefix
  (os_EOL : js_string) (cleanCSS_minify : js_string -> js_string) :
  let styles := cleanCSS_minify (u "undefinedbody{}" ++ os_EOL) in
  inject_file os_EOL cleanCSS_minify (stream_of_file [u "body{}"]) (u "/css/a.css")
    fresh_page
  = Some ([ExecuteJavaScript read_registry_code;
           CreateReadStream (u "/css/a.css");
           Minify (u "undefinedbody{}" ++ os_EOL);
           InsertCSS styles;
           ExecuteJavaScript
             (write_registry_code (JSON_stringify (JArray [JString (u "/css/a.css")])));
           Callback None (Some styles)],
          {| injectedstylesheets :=
               Some (JSON_stringify (JArray [JString (u "/css/a.css")]));
             stylesheets := [styles] |}) /\
  u "undefinedbody{}" ++ os_EOL <> trim (concat [u "body{}"]) ++ os_EOL.
Proof.
  split; [vm_compute; reflexivity|].
  vm_compute. discriminate.
Qed.

(** A file without chunks leaves the buffer undefined: the listener of
    ['close'] throws, and the callback is never called. *)
Lemma empty_file_throws (os_EOL : js_string) (cleanCSS_minify : js_string -> js_string) :
  inject_file os_EOL cleanCSS_minify (stream_of_file []) (u "/css/a.css") fresh_page
  = Some ([ExecuteJavaScript read_registry_code;
           CreateReadStream (u "/css/a.css");
           Uncaught TypeError],
          fresh_page).
Proof. vm_compute. reflexivity. Qed.

(** C3, on the code. The stream delivers one chunk and then fails; Node
    emits ['error'] and then ['close'].  The callback receives the error,
    and the listener of ['close'] then minifies and inserts what was read,
    rewrites the registry and calls the callback a second time, with a
    result. *)
Theorem read_error_does_not_abort
  (os_EOL : js_string) (cleanCSS_minify : js_string -> js_string) (e : error) :
  inject_file os_EOL cleanCSS_minify (stream_failing_after [u "body{}"] e)
    (u "/css/a.css") fresh_page
  = let styles := cleanCSS_minify (u "undefinedbody{}" ++ os_EOL) in
    Some ([ExecuteJavaScript read_registry_code;
           CreateReadStream (u "/css/a.css");
           Callback (Some e) None;
           Minify (u "undefinedbody{}" ++ os_EOL);
           InsertCSS styles;
           ExecuteJavaScript
             (write_registry_code (JSON_stringify (JArray [JString (u "/css/a.css")])));
           Callback None (Some styles)],
          {| injectedstylesheets :=
               Some (JSON_stringify (JArray [JString (u "/css/a.css")]));
             stylesheets := [styles] |}).
Proof. vm_compute. reflexivity. Qed.

(** When the stream fails before any chunk, the callback receives the
    error and the listener of ['close'] throws on the undefined buffer. *)
Lemma read_error_before_data
  (os_EOL : js_string) (cleanCSS_minify : js_string -> js_string) (e : error) :
  inject_file os_EOL cleanCSS_minify (stream_failing_after [] e)
    (u "/css/a.css") fresh_page
  = Some ([ExecuteJavaScript read_registry_code;
           CreateReadStream (u "/css/a.css");
           Callback (Some e) None;
           Uncaught TypeError],
          fresh_page).
Proof. vm_compute. reflexivity. Qed.

(** C5, on the code. The path is a Windows path.  The injection succeeds
    and the callback receives the styles; the registry travels to the page
    between single quotes, where each doubled backslash of the JSON text
    becomes one, so that the attribute holds a text that JSON.parse
    rejects: the registry does not yield the injected path, and every
    later injection into the document, of this path or of another, stops
    on the parse error. *)
Theorem registry_of_windows_path_is_unparsable
  (os_EOL : js_string) (cleanCSS_minify : js_string -> js_string) :
  let path := u "C:\app\a.css" in
  let styles := cleanCSS_minify (u "undefinedbody{}" ++ os_EOL) in
  let attribute := u "[" ++ [dquote] ++ path ++ [dquote] ++ u "]" in
  let page1 := {| injectedstylesheets := Some attribute; stylesheets := [styles] |} in
  inject_file os_EOL cleanCSS_minify (stream_of_file [u "body{}"]) path fresh_page
  = Some ([ExecuteJavaScript read_registry_code;
           CreateReadStream path;
           Minify (u "undefinedbody{}" ++ os_EOL);
           InsertCSS styles;
           ExecuteJavaScript (write_registry_code (JSON_stringify (JArray [JString path])));
           Callback None (Some styles)],
          page1) /\
  JSON_parse attribute = None /\
  JSON_parse (JSON_stringify (JArray [JString path])) = Some (JArray [JString path]) /\
  inject_file os_EOL cleanCSS_minify (stream_of_file [u "body{}"]) path page1
  = Some ([ExecuteJavaScript read_registry_code; Callback (Some JsonSyntaxError) None],
          page1) /\
  inject_file os_EOL cleanCSS_minify (stream_of_file [u "p{}"]) (u "C:\app\b.css") page1
  = Some ([ExecuteJavaScript read_registry_code; Callback (Some JsonSyntaxError) None],
          page1).
Proof. repeat split; vm_compute; reflexivity. Qed.

(** A path with a backslash that happens to form an escape: the registry
    parses, to another path, and a second injection of the same file is
    not refused. *)
Lemma registry_holds_another_path
  (os_EOL : js_string) (cleanCSS_minify : js_string -> js_string) :
  let path := u "/css/a\nb.css" in
  exists (page1 page2 : page) (actions actions2 : list action),
    inject_file os_EOL cleanCSS_minify (stream_of_file [u "body{}"]) path fresh_page
      = Some (actions, page1) /\
    last actions
      = Some (Callback None (Some (cleanCSS_minify (u "undefinedbody{}" ++ os_EOL)))) /\
    (injectedstylesheets page1 ≫= JSON_parse)
      = Some (JArray [JString (u "/css/a" ++ [10%N] ++ u "b.css")]) /\
    inject_file os_EOL cleanCSS_minify (stream_of_file [u "body{}"]) path page1
      = Some (actions2, page2) /\
    last actions2 = last actions /\
    length (stylesheets page2) = 2%nat.
Proof.
  do 4 eexists. repeat split; vm_compute; reflexivity.
Qed.

End InjectorOnPage.

(** ** The registry of paths that need no escape *)

Section RegistryRoundTrip.

Import Injector.

Lemma single_quoted_safe (s rest : js_string) :
  forallb literal_safe s = true ->
  single_quoted (s ++ squote :: rest) = Literal s rest.
Proof.
  unfold single_quoted. induction s as [|c r IH]; [reflexivity|].
  cbn [forallb app single_quoted_from]. rewrite andb_true_iff. intros [Hc Hr].
  unfold literal_safe in Hc.
  rewrite !andb_true_iff, !negb_true_iff in Hc. destruct Hc as [[[H1 H2] H3] H4].
  rewrite H1, H2, H3, H4, IH by exact Hr. reflexivity.
Qed.

Lemma plain_literal_safe (c : code_unit) : plain c = true -> literal_safe c = true.
Proof.
  intros H. apply plain_spec in H as (H32 & _ & Hbs & Hsq & _).
  unfold literal_safe. rewrite !andb_true_iff, !negb_true_iff, !N.eqb_neq.
  repeat split; try assumption; lia.
Qed.

Lemma plain_path_literal_safe (p : js_string) :
  plain_path p -> forallb literal_safe p = true.
Proof.
  unfold plain_path. rewrite !forallb_forall. intros H c Hc.
  apply plain_literal_safe, H, Hc.
Qed.

Lemma quote_literal_safe (p : js_string) :
  plain_path p -> forallb literal_safe (quote p) = true.
Proof.
  intros Hp. rewrite quote_plain by exact Hp.
  cbn [forallb]. rewrite forallb_app, plain_path_literal_safe by exact Hp. reflexivity.
Qed.

Lemma elements_tail_literal_safe (ps : list js_string) :
  Forall plain_path ps -> forallb literal_safe (elements_tail ps) = true.
Proof.
  induction 1 as [|p ps Hp Hps IH]; [reflexivity|].
  rewrite <- (app_nil_r (elements_tail (p :: ps))), elements_tail_cons, app_nil_r.
  cbn [forallb]. rewrite forallb_app, quote_literal_safe, IH by exact Hp. reflexivity.
Qed.

Lemma registry_literal_safe (ps : list js_string) :
  Forall plain_path ps ->
  forallb literal_safe (JSON_stringify (JArray (map JString ps))) = true.
Proof.
  intros Hall. destruct ps as [|p ps]; [reflexivity|].
  inversion Hall as [|? ? Hp Hps]; subst.
  cbn [JSON_stringify]. rewrite map_map.
  change (map (fun x => JSON_stringify (JString x)) (p :: ps)) with (map quote (p :: ps)).
  rewrite join_quotes.
  change (u "[" ++ (quote p ++ elements_tail ps) ++ u "]")
    with (91 :: (quote p ++ elements_tail ps) ++ [93]).
  cbn [forallb]. rewrite !forallb_app, quote_literal_safe, elements_tail_literal_safe
    by assumption. reflexivity.
Qed.

(** The page stores a payload without quote, backslash or line break as it is. *)
Lemma page_stores_safe_payload (payload : js_string) (p : page) :
  forallb literal_safe payload = true ->
  page_executeJavaScript (write_registry_code payload) p
  = Some (Resolved (Some payload),
          {| injectedstylesheets := Some payload; stylesheets := stylesheets p |}).
Proof.
  intros Hsafe. unfold page_executeJavaScript.
  assert (Hne : js_string_eqb (write_registry_code payload) read_registry_code = false).
  { unfold js_string_eqb. apply bool_decide_eq_false. intros Heq.
    apply (f_equal (fun l : js_string => l !! 58%nat)) in Heq.
    vm_compute in Heq. discriminate. }
  rewrite Hne.
  assert (Hstrip : strip_prefix write_registry_prefix (write_registry_code payload)
                   = Some (payload ++ squote :: u ";")).
  { vm_compute. reflexivity. }
  rewrite Hstrip, single_quoted_safe by exact Hsafe.
  reflexivity.
Qed.

Lemma includes_paths (ps : list js_string) (path : js_string) :
  path ∉ ps -> includes (map JString ps) (JString path) = false.
Proof.
  intros Hnot. unfold includes.
  apply not_true_iff_false. intros Hex. apply existsb_exists in Hex as [x [Hin Hx]].
  apply in_map_iff in Hin as [q [<- Hq]].
  simpl in Hx. unfold js_string_eqb in Hx. apply bool_decide_eq_true in Hx. subst.
  apply Hnot. apply list_elem_of_In. exact Hq.
Qed.

Lemma unique_from_paths (qs : list js_string) :
  forall seen, NoDup (seen ++ qs) ->
    unique_from (map JString seen) (map JString qs) = map JString qs.
Proof.
  induction qs as [|q qs IH]; intros seen Hnd; [reflexivity|].
  cbn [map unique_from].
  rewrite includes_paths; cbn [set_key].
  - f_equal. change [JString q] with (map JString [q]). rewrite <- map_app.
    apply IH. rewrite <- app_assoc. exact Hnd.
  - apply NoDup_app in Hnd as (_ & Hdisj & _). intros Hin.
    apply (Hdisj q Hin). left.
Qed.

Lemma previously_injected_fresh (p : page) (ps : list js_string) (path : js_string) :
  registry_is p ps -> Forall plain_path ps -> path ∉ ps ->
  previously_injected (injectedstylesheets p) path = inr (map JString ps).
Proof.
  intros [[Hnone ->]|Hsome] Hall Hnot; unfold previously_injected.
  - rewrite Hnone. reflexivity.
  - rewrite Hsome.
    pose proof (JSON_parse_stringify_paths ps Hall) as Hparse.
    rewrite (truthy_parsed _ _ Hparse). cbv [default from_option id]. rewrite Hparse.
    rewrite Array_join_strings, includes_paths by exact Hnot. reflexivity.
Qed.

(** One injection of a fresh path into a page whose registry holds [ps]:
    it succeeds and the registry holds [ps] and the path. *)
Lemma inject_plain_path (os_EOL : js_string) (cleanCSS_minify : js_string -> js_string)
  (p : page) (ps : list js_string) (path c : js_string) (chunks : list js_string) :
  registry_is p ps -> Forall plain_path ps -> plain_path path -> NoDup (ps ++ [path]) ->
  exists actions p',
    inject_file os_EOL cleanCSS_minify (stream_of_file (c :: chunks)) path p
      = Some (actions, p') /\
    succeeded actions = true /\
    registry_is p' (ps ++ [path]).
Proof.
  intros Hreg Hall Hpath Hnd.
  assert (Hnot : path ∉ ps).
  { apply NoDup_app in Hnd as (_ & Hdisj & _). intros Hin. apply (Hdisj path Hin). left. }
  unfold inject_file, run, loadStylesheetCSSInWebview, read_and_inject.
  unfold bind at 1. unfold call_executeJavaScript at 1.
  cbn [page_webview executeJavaScript].
  assert (Hread : page_executeJavaScript read_registry_code p
                  = Some (Resolved (injectedstylesheets p), p)) by reflexivity.
  rewrite Hread.
  rewrite (previously_injected_fresh p ps path Hreg Hall Hnot).
  unfold bind at 1. cbn [emit].
  unfold stream_of_file. rewrite deliver_chunks, cssData_of_chunks.
  cbn [cssData default stylesheetPathList deliver].
  unfold bind at 1. unfold on_close at 1. cbn [cssData stylesheetPathList].
  unfold bind at 1. cbn [emit].
  unfold bind at 1. unfold call_insertCSS at 1. cbn [page_webview insertCSS page_insertCSS].
  assert (Hunique : unique (map JString ps ++ [JString path]) = map JString (ps ++ [path])).
  { change [JString path] with (map JString [path]). rewrite <- map_app.
    apply (unique_from_paths (ps ++ [path]) []). exact Hnd. }
  rewrite Hunique.
  unfold bind at 1. unfold call_executeJavaScript at 1.
  cbn [page_webview executeJavaScript].
  rewrite page_stores_safe_payload.
  2:{ apply registry_literal_safe. apply Forall_app. split; [exact Hall|].
      constructor; [exact Hpath|constructor]. }
  cbn. do 2 eexists. split; [reflexivity|]. split; [reflexivity|].
  right. reflexivity.
Qed.

Lemma inject_all_plain_paths (os_EOL : js_string) (cleanCSS_minify : js_string -> js_string)
  (files : list (js_string * list js_string)) :
  forall (p : page) (ps : list js_string),
    registry_is p ps -> Forall plain_path ps ->
    Forall (fun file => plain_path (fst file) /\ snd file <> []) files ->
    NoDup (ps ++ map fst files) ->
    exists p', inject_all os_EOL cleanCSS_minify files p = Some p' /\
               registry_is p' (ps ++ map fst files).
Proof.
  induction files as [|[path chunks] files IH]; intros p ps Hreg Hall Hfiles Hnd.
  - exists p. split; [reflexivity|]. rewrite app_nil_r. exact Hreg.
  - inversion Hfiles as [|? ? [Hpath Hchunks] Hrest]; subst. cbn [fst snd] in *.
    destruct chunks as [|c chunks]; [congruence|].
    cbn [map fst] in Hnd.
    assert (Hnd' : NoDup ((ps ++ [path]) ++ map fst files))
      by (rewrite <- app_assoc; exact Hnd).
    assert (Hnd1 : NoDup (ps ++ [path]))
      by (apply NoDup_app in Hnd' as (H & _ & _); exact H).
    destruct (inject_plain_path os_EOL cleanCSS_minify p ps path c chunks
                Hreg Hall Hpath Hnd1) as (actions & p1 & Hrun & Hok & Hreg1).
    cbn [inject_all]. rewrite Hrun, Hok.
    destruct (IH p1 (ps ++ [path])) as (p' & Hall' & Hreg').
    + exact Hreg1.
    + apply Forall_app. split; [exact Hall|]. constructor; [exact Hpath|constructor].
    + exact Hrest.
    + exact Hnd'.
    + exists p'. split; [exact Hall'|].
      cbn [map fst]. rewrite <- app_assoc in Hreg'. exact Hreg'.
Qed.

(** Where no path needs an escape the registry round-trips.  The paths are
    distinct and made of characters that are no control character, quote,
    backslash or surrogate; each file has at least one chunk; the page
    starts without registry.  Then every injection succeeds, and the
    attribute parses to exactly these paths, each once, in the order of the
    calls. *)
Theorem registry_round_trip_plain_paths
  (os_EOL : js_string) (cleanCSS_minify : js_string -> js_string)
  (files : list (js_string * list js_string)) :
  files <> [] ->
  NoDup (map fst files) ->
  Forall (fun file => plain_path (fst file) /\ snd file <> []) files ->
  exists p' registry,
    inject_all os_EOL cleanCSS_minify files fresh_page = Some p' /\
    injectedstylesheets p' = Some registry /\
    JSON_parse registry = Some (JArray (map JString (map fst files))).
Proof.
  intros Hne Hnd Hfiles.
  destruct (inject_all_plain_paths os_EOL cleanCSS_minify files fresh_page [])
    as (p' & Hrun & Hreg); try assumption.
  - left. split; reflexivity.
  - constructor.
  - exists p'. cbn [app] in Hreg. destruct Hreg as [[_ Hnil]|Hsome].
    + destruct files; [congruence|discriminate].
    + eexists. split; [exact Hrun|]. split; [exact Hsome|].
      apply JSON_parse_stringify_paths.
      apply Forall_fmap. eapply Forall_impl; [exact Hfiles|]. intros file [H _]. exact H.
Qed.

End RegistryRoundTrip.

(** ** Numbers: the results that the format represents are exact *)

Section NumberFacts.

Import Number.
Open Scope Z_scope.

Lemma digits2_pos_size (p : positive) : digits2_pos p = Pos.size p.
Proof. induction p; simpl; congruence. Qed.

Lemma digits_bounds (p : positive) :
  2 ^ (Zpos (digits2_pos p) - 1) <= Zpos p < 2 ^ Zpos (digits2_pos p).
Proof.
  rewrite digits2_pos_size.
  pose proof (Pos.size_gt p) as Hgt. pose proof (Pos.size_le p) as Hle.
  apply Pos2Z.pos_lt_pos in Hgt. apply Pos2Z.pos_le_pos in Hle.
  rewrite Pos2Z.inj_pow in Hgt, Hle.
  replace (Zpos (Pos.size p)) with (Z.succ (Zpos (Pos.size p) - 1)) in Hle at 1 by lia.
  rewrite Z.pow_succ_r in Hle by lia. lia.
Qed.

Lemma shiftl_nat_Z (m : positive) (k : nat) :
  Zpos (Pos.shiftl_nat m k) = Zpos m * 2 ^ Z.of_nat k.
Proof.
  induction k as [|k IH].
  - simpl. lia.
  - rewrite Nat2Z.inj_succ, Z.pow_succ_r by lia.
    change (Pos.shiftl_nat m (S k)) with (xO (Pos.shiftl_nat m k)).
    rewrite Pos2Z.inj_xO, IH. lia.
Qed.

Lemma digits_shiftl_nat (m : positive) (k : nat) :
  Zpos (digits2_pos (Pos.shiftl_nat m k)) = Zpos (digits2_pos m) + Z.of_nat k.
Proof.
  induction k as [|k IH]; [simpl; lia|].
  change (Pos.shiftl_nat m (S k)) with (xO (Pos.shiftl_nat m k)).
  cbn [digits2_pos]. rewrite Pos2Z.inj_succ, IH. lia.
Qed.

Lemma iter_pos_nat {A : Type} (f : A -> A) (p : positive) :
  forall x, SpecFloat.iter_pos f p x = Nat.iter (Pos.to_nat p) f x.
Proof.
  induction p as [p IH|p IH|]; intros x; cbn [SpecFloat.iter_pos].
  - rewrite !IH, Pos2Nat.inj_xI.
    replace (S (2 * Pos.to_nat p)) with (Pos.to_nat p + (Pos.to_nat p + 1))%nat by lia.
    rewrite !Nat.iter_add. reflexivity.
  - rewrite !IH, Pos2Nat.inj_xO.
    replace (2 * Pos.to_nat p)%nat with (Pos.to_nat p + Pos.to_nat p)%nat by lia.
    rewrite Nat.iter_add. reflexivity.
  - reflexivity.
Qed.

Lemma pos_iter_shiftl (m p : positive) :
  Pos.iter xO m p = Pos.shiftl_nat m (Pos.to_nat p).
Proof. apply Pos2Nat.inj_iter. Qed.

(** Shifting out zeros loses nothing. *)
Lemma shr_exact (m : positive) (k : nat) :
  Nat.iter k shr_1
    {| shr_m := Zpos (Pos.shiftl_nat m k); shr_r := false; shr_s := false |}
  = {| shr_m := Zpos m; shr_r := false; shr_s := false |}.
Proof.
  induction k as [|k IH]; [reflexivity|].
  rewrite Nat.iter_succ_r.
  change (Pos.shiftl_nat m (S k)) with (xO (Pos.shiftl_nat m k)).
  cbn [shr_1 orb]. exact IH.
Qed.

Lemma bounded_canonical (m : positive) (e : Z) :
  bounded prec emax m e = true ->
  fexp prec emax (Zpos (digits2_pos m) + e) = e /\ e <= emax - prec.
Proof.
  unfold bounded, canonical_mantissa. intros H.
  apply andb_true_iff in H as [H1 H2].
  apply Z.eqb_eq in H1. apply Z.leb_le in H2. split; assumption.
Qed.

(** A number that the format represents is its own rounding, from any
    mantissa with more digits. *)
Lemma binary_round_aux_shr (s : bool) (m : positive) (e : Z) (k : nat) :
  bounded prec emax m e = true ->
  binary_round_aux prec emax s (Zpos (Pos.shiftl_nat m k)) (e - Z.of_nat k) loc_Exact
  = S754_finite s m e.
Proof.
  intros Hb. destruct (bounded_canonical m e Hb) as [Hcanon Hmax].
  assert (Hshift : shr_fexp prec emax (Zpos (Pos.shiftl_nat m k)) (e - Z.of_nat k) loc_Exact
                   = ({| shr_m := Zpos m; shr_r := false; shr_s := false |}, e)).
  { unfold shr_fexp. cbn [Zdigits2 shr_record_of_loc].
    rewrite digits_shiftl_nat.
    replace (Zpos (digits2_pos m) + Z.of_nat k + (e - Z.of_nat k))
      with (Zpos (digits2_pos m) + e) by lia.
    rewrite Hcanon. replace (e - (e - Z.of_nat k)) with (Z.of_nat k) by lia.
    unfold shr. destruct (Z.of_nat k) as [|p|p] eqn:Hp; try lia.
    - destruct k; [|discriminate]. f_equal. lia.
    - rewrite iter_pos_nat.
      assert (Hk : Pos.to_nat p = k) by lia. rewrite Hk, shr_exact.
      f_equal. lia. }
  unfold binary_round_aux. rewrite Hshift. cbn [shr_m loc_of_shr_record round_nearest_even].
  assert (Hshift0 : shr_fexp prec emax (Zpos m) e loc_Exact
                    = ({| shr_m := Zpos m; shr_r := false; shr_s := false |}, e)).
  { unfold shr_fexp. cbn [Zdigits2 shr_record_of_loc]. rewrite Hcanon, Z.sub_diag.
    reflexivity. }
  rewrite Hshift0. cbn [shr_m].
  apply Z.leb_le in Hmax. rewrite Hmax. reflexivity.
Qed.

Lemma binary_round_shr (s : bool) (m : positive) (e : Z) (k : nat) :
  bounded prec emax m e = true ->
  binary_round prec emax s (Pos.shiftl_nat m k) (e - Z.of_nat k) = S754_finite s m e.
Proof.
  intros Hb. destruct (bounded_canonical m e Hb) as [Hcanon Hmax].
  unfold binary_round.
  rewrite digits_shiftl_nat.
  replace (Zpos (digits2_pos m) + Z.of_nat k + (e - Z.of_nat k))
    with (Zpos (digits2_pos m) + e) by lia.
  rewrite Hcanon. unfold shl_align.
  replace (e - (e - Z.of_nat k)) with (Z.of_nat k) by lia.
  destruct (Z.of_nat k) eqn:Hk; try lia;
    rewrite <- ?Hk; apply binary_round_aux_shr; exact Hb.
Qed.

Lemma binary_round_shl (s : bool) (m : positive) (e : Z) (k : nat) :
  bounded prec emax (Pos.shiftl_nat m k) (e - Z.of_nat k) = true ->
  binary_round prec emax s m e = S754_finite s (Pos.shiftl_nat m k) (e - Z.of_nat k).
Proof.
  intros Hb. destruct (bounded_canonical _ _ Hb) as [Hcanon Hmax].
  rewrite digits_shiftl_nat in Hcanon.
  replace (Zpos (digits2_pos m) + Z.of_nat k + (e - Z.of_nat k))
    with (Zpos (digits2_pos m) + e) in Hcanon by lia.
  unfold binary_round. rewrite Hcanon. unfold shl_align.
  replace (e - Z.of_nat k - e) with (- Z.of_nat k) by lia.
  pose proof (binary_round_aux_shr s (Pos.shiftl_nat m k) (e - Z.of_nat k) 0 Hb) as Haux.
  change (Pos.shiftl_nat (Pos.shiftl_nat m k) 0) with (Pos.shiftl_nat m k) in Haux.
  replace (e - Z.of_nat k - Z.of_nat 0) with (e - Z.of_nat k) in Haux by lia.
  destruct k as [|k].
  - cbn [Z.of_nat Z.opp]. change (Pos.shiftl_nat m 0) with m in *.
    replace (e - Z.of_nat 0) with e in * by lia. exact Haux.
  - destruct (- Z.of_nat (S k)) as [|p|p] eqn:Hp; try lia.
    rewrite pos_iter_shiftl.
    assert (Pos.to_nat p = S k) by lia. rewrite H. exact Haux.
Qed.


Lemma shiftl_nat_add (n : positive) (a b : nat) :
  Pos.shiftl_nat (Pos.shiftl_nat n a) b = Pos.shiftl_nat n (a + b).
Proof.
  apply Pos2Z.inj. rewrite !shiftl_nat_Z, Nat2Z.inj_add, Z.pow_add_r by lia. lia.
Qed.

Lemma dyadic_bounded (n : positive) (a : Z) :
  representable n a ->
  bounded prec emax (Pos.shiftl_nat n (Z.to_nat (53 - Zpos (digits2_pos n))))
          (a + Zpos (digits2_pos n) - 53) = true.
Proof.
  intros [Hd [Hlo Hhi]]. unfold bounded, canonical_mantissa, fexp, emin, prec, emax.
  rewrite digits_shiftl_nat. apply andb_true_iff. split.
  - apply Z.eqb_eq. lia.
  - apply Z.leb_le. lia.
Qed.

(** Any mantissa and exponent that stand for [n * 2 ^ a] round to the
    representation of [n * 2 ^ a]. *)
Lemma binary_round_dyadic (s : bool) (n : positive) (a : Z) (k : nat) :
  representable n a ->
  binary_round prec emax s (Pos.shiftl_nat n k) (a - Z.of_nat k) = dyadic s n a.
Proof.
  intros Hrep. pose proof (dyadic_bounded n a Hrep) as Hb.
  destruct Hrep as [Hd _]. unfold dyadic. cbv zeta.
  set (d := Zpos (digits2_pos n)) in *. set (j := Z.to_nat (53 - d)) in *.
  destruct (Nat.le_gt_cases k j) as [Hk|Hk].
  - replace (Pos.shiftl_nat n j) with (Pos.shiftl_nat (Pos.shiftl_nat n k) (j - k))
      in * by (rewrite shiftl_nat_add; f_equal; lia).
    replace (a + d - 53) with (a - Z.of_nat k - Z.of_nat (j - k)) in * by lia.
    apply binary_round_shl. exact Hb.
  - replace (Pos.shiftl_nat n k) with (Pos.shiftl_nat (Pos.shiftl_nat n j) (k - j))
      by (rewrite shiftl_nat_add; f_equal; lia).
    replace (a - Z.of_nat k) with (a + d - 53 - Z.of_nat (k - j)) by lia.
    apply binary_round_shr. exact Hb.
Qed.

Lemma binary_round_aux_dyadic (s : bool) (n : positive) (a : Z) (k : nat) :
  representable n a ->
  (53 - Zpos (digits2_pos n) <= Z.of_nat k) ->
  binary_round_aux prec emax s (Zpos (Pos.shiftl_nat n k)) (a - Z.of_nat k) loc_Exact
  = dyadic s n a.
Proof.
  intros Hrep Hk. pose proof (dyadic_bounded n a Hrep) as Hb.
  destruct Hrep as [Hd _]. unfold dyadic. cbv zeta.
  set (d := Zpos (digits2_pos n)) in *. set (j := Z.to_nat (53 - d)) in *.
  replace (Pos.shiftl_nat n k) with (Pos.shiftl_nat (Pos.shiftl_nat n j) (k - j))
    by (rewrite shiftl_nat_add; f_equal; lia).
  replace (a - Z.of_nat k) with (a + d - 53 - Z.of_nat (k - j)) by lia.
  apply binary_round_aux_shr. exact Hb.
Qed.

(** The Number value for a positive integer below [2 ^ 53] is the integer. *)
Lemma of_Z_dyadic (n : positive) :
  Zpos n < 2 ^ 53 -> of_Z (Zpos n) = dyadic false n 0.
Proof.
  intros Hn. unfold of_Z. cbn [binary_normalize].
  apply (binary_round_dyadic false n 0 0).
  destruct (digits_bounds n) as [Hlo _].
  assert (Zpos (digits2_pos n) - 1 < 53).
  { apply (Z.pow_lt_mono_r_iff 2); lia. }
  unfold representable. lia.
Qed.

Lemma representable_integer (n : positive) :
  Zpos n < 2 ^ 53 -> representable n 0.
Proof.
  intros Hn. destruct (digits_bounds n) as [Hlo _].
  assert (Zpos (digits2_pos n) - 1 < 53).
  { apply (Z.pow_lt_mono_r_iff 2); lia. }
  unfold representable. lia.
Qed.

Lemma to_integer_dyadic (s : bool) (n : positive) :
  Zpos (digits2_pos n) <= 53 ->
  to_integer (dyadic s n 0) = Some (cond_Zopp s (Zpos n)).
Proof.
  intros Hd. unfold dyadic, to_integer. cbv zeta.
  set (d := Zpos (digits2_pos n)) in *.
  destruct (0 + d - 53) as [|p|p] eqn:He; try lia.
  - replace (Z.to_nat (53 - d)) with 0%nat by lia.
    cbn [Pos.shiftl_nat nat_rect]. rewrite Z.pow_0_r, Z.mul_1_r. reflexivity.
  - rewrite shiftl_nat_Z.
    replace (Z.of_nat (Z.to_nat (53 - d))) with (Zpos p) by lia.
    rewrite Z.mod_mul, Z.eqb_refl by (apply Z.pow_nonzero; lia).
    rewrite Z.div_mul by (apply Z.pow_nonzero; lia). reflexivity.
Qed.

Lemma digits_mul (n1 n2 : positive) :
  Zpos (digits2_pos n1) + Zpos (digits2_pos n2) - 1 <= Zpos (digits2_pos (n1 * n2)).
Proof.
  destruct (digits_bounds n1) as [H1 _]. destruct (digits_bounds n2) as [H2 _].
  destruct (digits_bounds (n1 * n2)) as [_ H12].
  assert (H : 2 ^ (Zpos (digits2_pos n1) - 1 + (Zpos (digits2_pos n2) - 1))
              < 2 ^ Zpos (digits2_pos (n1 * n2))).
  { rewrite Z.pow_add_r by lia. rewrite Pos2Z.inj_mul in H12. nia. }
  apply (Z.pow_lt_mono_r_iff 2) in H; lia.
Qed.

(** A product that the format represents is computed exactly. *)
Lemma mul_dyadic (s1 s2 : bool) (n1 n2 : positive) (a1 a2 : Z) :
  Zpos (digits2_pos n1) <= 53 -> Zpos (digits2_pos n2) <= 53 ->
  representable (n1 * n2) (a1 + a2) ->
  mul (dyadic s1 n1 a1) (dyadic s2 n2 a2) = dyadic (xorb s1 s2) (n1 * n2) (a1 + a2).
Proof.
  intros Hd1 Hd2 Hrep. unfold mul. unfold dyadic at 1 2. unfold SFmul. cbv zeta.
  set (d1 := Zpos (digits2_pos n1)) in *. set (d2 := Zpos (digits2_pos n2)) in *.
  set (j1 := Z.to_nat (53 - d1)). set (j2 := Z.to_nat (53 - d2)).
  replace (Pos.shiftl_nat n1 j1 * Pos.shiftl_nat n2 j2)%positive
    with (Pos.shiftl_nat (n1 * n2) (j1 + j2)).
  2:{ apply Pos2Z.inj. rewrite Pos2Z.inj_mul, !shiftl_nat_Z, Nat2Z.inj_add, Z.pow_add_r by lia.
      rewrite Pos2Z.inj_mul. ring. }
  replace (a1 + d1 - 53 + (a2 + d2 - 53)) with (a1 + a2 - Z.of_nat (j1 + j2)) by lia.
  apply binary_round_aux_dyadic; [exact Hrep|].
  pose proof (digits_mul n1 n2). fold d1 d2 in H. lia.
Qed.

Lemma shl_align_fst (m : positive) (e e' : Z) :
  e' <= e -> Zpos (fst (shl_align m e e')) = Zpos m * 2 ^ (e - e').
Proof.
  intros He. unfold shl_align.
  destruct (e' - e) as [|p|p] eqn:Hd; try lia.
  - replace (e - e') with 0 by lia. cbn [fst]. lia.
  - cbn [fst]. rewrite pos_iter_shiftl, shiftl_nat_Z.
    replace (Z.of_nat (Pos.to_nat p)) with (e - e') by lia. reflexivity.
Qed.

(** A difference that the format represents is computed exactly; it is
    the positive zero when the two numbers are equal. *)
Lemma sub_dyadic (n1 n2 : positive) (a1 a2 : Z) :
  Zpos (digits2_pos n1) <= 53 -> Zpos (digits2_pos n2) <= 53 -> a2 <= a1 ->
  sub (dyadic false n1 a1) (dyadic false n2 a2) =
    match Zpos n1 * 2 ^ (a1 - a2) - Zpos n2 with
    | Z0 => S754_zero false
    | Zpos p => binary_round prec emax false
                  (Pos.shiftl_nat p (Z.to_nat (53 - Z.min (Zpos (digits2_pos n1) + (a1 - a2))
                                                             (Zpos (digits2_pos n2)))))
                  (a2 - Z.of_nat (Z.to_nat (53 - Z.min (Zpos (digits2_pos n1) + (a1 - a2))
                                                             (Zpos (digits2_pos n2)))))
    | Zneg p => binary_round prec emax true
                  (Pos.shiftl_nat p (Z.to_nat (53 - Z.min (Zpos (digits2_pos n1) + (a1 - a2))
                                                             (Zpos (digits2_pos n2)))))
                  (a2 - Z.of_nat (Z.to_nat (53 - Z.min (Zpos (digits2_pos n1) + (a1 - a2))
                                                             (Zpos (digits2_pos n2)))))
    end.
Proof.
  intros Hd1 Hd2 Ha. unfold sub, SFsub, dyadic. cbv zeta.
  set (d1 := Zpos (digits2_pos n1)) in *. set (d2 := Zpos (digits2_pos n2)) in *.
  set (ez := Z.min (a1 + d1 - 53) (a2 + d2 - 53)).
  set (k := Z.to_nat (53 - Z.min (d1 + (a1 - a2)) d2)).
  assert (Hez : ez = a2 - Z.of_nat k) by (unfold ez, k; lia).
  rewrite !shl_align_fst by (unfold ez; lia). cbn [cond_Zopp].
  rewrite !shiftl_nat_Z.
  assert (Hval : Zpos n1 * 2 ^ Z.of_nat (Z.to_nat (53 - d1)) * 2 ^ (a1 + d1 - 53 - ez)
                 - Zpos n2 * 2 ^ Z.of_nat (Z.to_nat (53 - d2)) * 2 ^ (a2 + d2 - 53 - ez)
                 = (Zpos n1 * 2 ^ (a1 - a2) - Zpos n2) * 2 ^ Z.of_nat k).
  { rewrite <- !Z.mul_assoc, <- !Z.pow_add_r by lia.
    replace (Z.of_nat (Z.to_nat (53 - d1)) + (a1 + d1 - 53 - ez))
      with (a1 - a2 + Z.of_nat k) by lia.
    replace (Z.of_nat (Z.to_nat (53 - d2)) + (a2 + d2 - 53 - ez))
      with (Z.of_nat k) by lia.
    rewrite Z.pow_add_r by lia. ring. }
  rewrite Hval, Hez.
  destruct (Zpos n1 * 2 ^ (a1 - a2) - Zpos n2) as [|p|p].
  - reflexivity.
  - rewrite <- shiftl_nat_Z. reflexivity.
  - replace (Zneg p * 2 ^ Z.of_nat k) with (Zneg (Pos.shiftl_nat p k)); [reflexivity|].
    rewrite <- Pos2Z.opp_pos, shiftl_nat_Z. lia.
Qed.

(** Subtraction of an integer from a greater one, both below [2 ^ 53]. *)
Lemma sub_integers (n1 n2 : positive) :
  Zpos n1 < 2 ^ 53 -> Zpos n2 <= Zpos n1 ->
  sub (of_Z (Zpos n1)) (of_Z (Zpos n2)) = of_Z (Zpos n1 - Zpos n2).
Proof.
  intros H1 H2.
  rewrite !of_Z_dyadic by lia.
  pose proof (representable_integer n1 H1) as [Hd1 _].
  pose proof (representable_integer n2 ltac:(lia)) as [Hd2 _].
  rewrite sub_dyadic by (try assumption; lia).
  replace (Zpos n1 * 2 ^ (0 - 0)) with (Zpos n1) by (cbn; lia).
  destruct (Zpos n1 - Zpos n2) as [|p|p] eqn:Hp; try lia.
  - reflexivity.
  - rewrite binary_round_dyadic by (apply representable_integer; lia).
    symmetry. apply of_Z_dyadic. lia.
Qed.

Lemma shiftl_cancel (n : positive) (j : nat) (a : Z) :
  Z.shiftl (Zpos (Pos.shiftl_nat n j)) (a - Z.of_nat j) = Z.shiftl (Zpos n) a.
Proof.
  rewrite shiftl_nat_Z, <- Z.shiftl_mul_pow2, Z.shiftl_shiftl by lia.
  f_equal. lia.
Qed.

(** [Math.floor] of a positive number. *)
Lemma floor_dyadic (n : positive) (a : Z) :
  Zpos (digits2_pos n) <= 53 ->
  floor (dyadic false n a) = of_Z (Z.shiftl (Zpos n) a).
Proof.
  intros Hd. unfold floor, dyadic, of_Z. cbv zeta. cbn [cond_Zopp].
  replace (a + Zpos (digits2_pos n) - 53)
    with (a - Z.of_nat (Z.to_nat (53 - Zpos (digits2_pos n)))) by lia.
  rewrite shiftl_cancel. reflexivity.
Qed.

(** [Math.floor] is the floor of the value. *)
Lemma floor_value (s : bool) (m : positive) (e : Z) :
  Z.shiftl (cond_Zopp s (Zpos m)) e = Qfloor (value (S754_finite s m e)).
Proof.
  unfold value. destruct e as [|p|p].
  - rewrite Qfloor_Z, Z.shiftl_0_r, Z.pow_0_r. lia.
  - rewrite Qfloor_Z, Z.shiftl_mul_pow2 by lia. reflexivity.
  - change (Z.shiftl (cond_Zopp s (Zpos m)) (Zneg p))
      with (Z.shiftr (cond_Zopp s (Zpos m)) (Zpos p)).
    rewrite Z.shiftr_div_pow2 by lia.
    unfold Qfloor. rewrite Pos2Z.inj_pow. reflexivity.
Qed.

End NumberFacts.

(** ** [didScrollIntoViewport] *)

Section ViewportFacts.

Import Viewport.

Lemma digits_below_2_53 (n : positive) :
  (Zpos n < 2 ^ 53)%Z -> (Zpos (digits2_pos n) <= 53)%Z.
Proof. intros Hn. apply representable_integer in Hn as [Hd _]. exact Hd. Qed.

(** An integer between [- 2 ^ 53] and [2 ^ 53] is a number. *)
Lemma to_integer_of_Z (z : Z) :
  (- 2 ^ 53 < z < 2 ^ 53)%Z -> Number.to_integer (Number.of_Z z) = Some z.
Proof.
  intros [Hlo Hhi]. destruct z as [|n|n]; [reflexivity| |].
  - rewrite of_Z_dyadic by exact Hhi.
    apply (to_integer_dyadic false), digits_below_2_53, Hhi.
  - assert (Hn : (Zpos n < 2 ^ 53)%Z) by lia.
    unfold Number.of_Z. cbn [binary_normalize].
    pose proof (binary_round_dyadic true n 0 0 (representable_integer n Hn)) as Hr.
    change (binary_round Number.prec Number.emax true n 0 = Number.dyadic true n 0) in Hr.
    rewrite Hr.
    apply (to_integer_dyadic true), digits_below_2_53, Hn.
Qed.

(** The position before an index: [index - 1]. *)
Lemma index_before (T : Z) :
  (1 <= T < 2 ^ 53)%Z ->
  Number.to_integer (Number.sub (Number.of_Z T) one) = Some (T - 1)%Z.
Proof.
  intros [Hlo Hhi]. destruct T as [|n|n]; try lia.
  unfold one. rewrite sub_integers by lia.
  apply to_integer_of_Z. lia.
Qed.

Lemma item_in_range (elementList : list element) (index : spec_float) (i : Z) :
  Number.to_integer index = Some i ->
  (0 <= i < Z.of_nat (length elementList))%Z ->
  exists el, elementList !! Z.to_nat i = Some el /\ item elementList index = Some el.
Proof.
  intros Hindex [Hlo Hhi].
  destruct (lookup_lt_is_Some_2 elementList (Z.to_nat i)) as [el Hel]; [lia|].
  exists el. split; [exact Hel|].
  unfold item. rewrite Hindex. destruct (Z.ltb_spec i 0); [lia|exact Hel].
Qed.

Lemma didScrollIntoViewport_nonempty
  (clientHeight : Z) (elementList : list element) (threshold fixedCount : spec_float) :
  elementList <> [] ->
  didScrollIntoViewport clientHeight elementList (Some threshold) (Some fixedCount) =
    match item elementList
            (Number.sub (targetIndex elementList threshold fixedCount) one) with
    | None => Throw TypeError
    | Some targetElement =>
        Return (Some (Qle_bool (top targetElement) (inject_Z clientHeight)))
    end.
Proof.
  intros Hne. destruct elementList; [congruence|reflexivity].
Qed.

(** C6, as stated, fails at its own example: for ten elements, the
    threshold 0.75 and the fixed count 10 the computed position is 7.5 and
    the target index is 7, where the ceiling is 8; with the top edges 20
    pixels apart and a viewport of 150 pixels the function answers for the
    seventh element, in view, and not for the eighth, out of view. *)
Lemma target_index_is_not_the_ceiling :
  (Number.value (position ten_rows (Number.of_decimal false 75 (-2)) (Number.of_Z 10))
     == 15 # 2)%Q /\
  targetIndex ten_rows (Number.of_decimal false 75 (-2)) (Number.of_Z 10)
    = Number.of_Z 7 /\
  Qceiling (15 # 2) = 8%Z /\
  didScrollIntoViewport 150 ten_rows
    (Some (Number.of_decimal false 75 (-2))) (Some (Number.of_Z 10))
    = Return (Some true) /\
  (exists eighth, ten_rows !! 7%nat = Some eighth /\
                  Qle_bool (top eighth) (inject_Z 150) = false).
Proof.
  split; [vm_compute; reflexivity|].
  split; [vm_compute; reflexivity|].
  split; [reflexivity|].
  split; [vm_compute; reflexivity|].
  eexists. split; vm_compute; reflexivity.
Qed.

(** C6, amended. For every non-empty element list of length L below
    2^32, threshold t and fixed count f: the function computes the number
    that L - (1 - t) f is when each operation is rounded to binary64, and
    its target index is the floor of that number; when the index lies in
    1..L the function answers whether the top edge of the element at that
    1-indexed position is within the viewport height. *)
Theorem target_index_is_the_floor
  (clientHeight : Z) (elementList : list element) (threshold fixedCount : spec_float) :
  elementList <> [] ->
  (Z.of_nat (length elementList) < 2 ^ 32)%Z ->
  let L := Z.of_nat (length elementList) in
  let x := position elementList threshold fixedCount in
  let T := Qfloor (Number.value x) in
  (Number.is_finite x = true -> (- 2 ^ 53 < T < 2 ^ 53)%Z ->
   Number.to_integer (targetIndex elementList threshold fixedCount) = Some T) /\
  ((1 <= T <= L)%Z ->
   exists el, elementList !! Z.to_nat (T - 1) = Some el /\
     didScrollIntoViewport clientHeight elementList (Some threshold) (Some fixedCount)
     = Return (Some (Qle_bool (top el) (inject_Z clientHeight)))).
Proof.
  intros Hne Hlen L x T.
  assert (Hfloor : Number.is_finite x = true ->
                   Number.to_integer (targetIndex elementList threshold fixedCount)
                   = Number.to_integer (Number.of_Z T)).
  { intros Hfin. unfold targetIndex. fold x. unfold T.
    destruct x as [s|s| |s m e]; try discriminate; [reflexivity|].
    unfold Number.floor. rewrite floor_value. reflexivity. }
  split.
  - intros Hfin HT. rewrite (Hfloor Hfin). apply to_integer_of_Z. exact HT.
  - intros HT.
    assert (Hfin : Number.is_finite x = true).
    { destruct x as [s|s| |s m e]; try reflexivity;
        exfalso; unfold T in HT; change (Qfloor (Number.value _)) with 0%Z in HT; lia. }
    assert (Hfloor' : targetIndex elementList threshold fixedCount = Number.of_Z T).
    { unfold targetIndex. fold x. unfold T.
      destruct x as [s|s| |s m e]; try discriminate.
      - exfalso. unfold T in HT. change (Qfloor (Number.value _)) with 0%Z in HT. lia.
      - unfold Number.floor. rewrite floor_value. reflexivity. }
    assert (HT53 : (T < 2 ^ 53)%Z).
    { apply Z.le_lt_trans with L; [lia|].
      apply Z.lt_trans with (2 ^ 32)%Z; [exact Hlen|reflexivity]. }
    rewrite (didScrollIntoViewport_nonempty _ _ _ _ Hne), Hfloor'.
    destruct (item_in_range elementList (Number.sub (Number.of_Z T) one) (T - 1))
      as [el [Hel Hitem]]; [apply index_before; lia|fold L; lia|].
    exists el. split; [exact Hel|]. rewrite Hitem. reflexivity.
Qed.

(** The example of C6: ten elements, threshold 0.75, fixed count 10. *)
Lemma target_index_of_ten (elementList : list element) :
  length elementList = 10%nat ->
  targetIndex elementList (Number.of_decimal false 75 (-2)) (Number.of_Z 10)
  = Number.of_Z 7.
Proof.
  intros H. unfold targetIndex, position, length_of. rewrite H.
  vm_compute. reflexivity.
Qed.

(** Rounding matters: with the threshold 0.7 the product is a little above
    3 and the difference a little below 7, and yet the number computed is
    7. *)
Lemma target_index_with_rounding :
  targetIndex ten_rows (Number.of_decimal false 7 (-1)) (Number.of_Z 10)
  = Number.of_Z 7.
Proof. vm_compute. reflexivity. Qed.

Lemma target_index_is_the_floor_witness :
  Number.to_integer
    (targetIndex ten_rows (Number.of_decimal false 75 (-2)) (Number.of_Z 10))
    = Some 7%Z /\
  didScrollIntoViewport 150 ten_rows
    (Some (Number.of_decimal false 75 (-2))) (Some (Number.of_Z 10))
    = Return (Some true).
Proof.
  destruct (target_index_is_the_floor 150 ten_rows
              (Number.of_decimal false 75 (-2)) (Number.of_Z 10))
    as [HT Hrun].
  - discriminate.
  - vm_compute. reflexivity.
  - split.
    + apply HT; [reflexivity|]. vm_compute. split; reflexivity.
    + destruct Hrun as [el [Hel Hrun]]; [vm_compute; split; discriminate|].
      rewrite Hrun. vm_compute in Hel. inversion Hel; subst. reflexivity.
Defined.

(** C9, on the code. For a list of one element and the default arguments
    the target index is floor(0.75) = 0: the function reads position -1,
    finds no element and throws a TypeError on the lookup of its
    rectangle. *)
Theorem single_element_list_faults (clientHeight : Z) (e : element) :
  Number.to_integer
    (Number.sub (targetIndex [e] default_threshold (length_of [e])) one)
    = Some (-1)%Z /\
  item [e] (Number.of_Z (-1)) = None /\
  didScrollIntoViewport clientHeight [e] None None = Throw TypeError.
Proof. repeat split. Qed.

(** With the default arguments the computed position is three quarters of
    the length, exactly. *)
Lemma default_position (elementList : list element) (l : positive) :
  Z.of_nat (length elementList) = Zpos l ->
  (Zpos l < 2 ^ 32)%Z ->
  position elementList default_threshold (length_of elementList)
  = Number.dyadic false (3 * l) (-2).
Proof.
  intros Hl Hlen. unfold position, length_of. rewrite Hl.
  assert (Hl53 : (Zpos l < 2 ^ 53)%Z).
  { apply Z.lt_trans with (2 ^ 32)%Z; [exact Hlen|reflexivity]. }
  assert (H3 : (Zpos (3 * l) < 2 ^ 53)%Z).
  { rewrite Pos2Z.inj_mul.
    apply Z.lt_le_trans with (3 * 2 ^ 32)%Z; [lia|discriminate]. }
  pose proof (digits_below_2_53 l Hl53) as Hd.
  pose proof (digits_below_2_53 _ H3) as Hd3.
  destruct (digits_bounds l) as [Hdl _].
  rewrite of_Z_dyadic by exact Hl53.
  change (Number.sub one default_threshold) with (Number.dyadic false 1 (-2)).
  rewrite mul_dyadic.
  2:{ discriminate. }
  2:{ exact Hd. }
  2:{ rewrite Pos.mul_1_l. unfold Number.representable. lia. }
  rewrite Pos.mul_1_l. change (-2 + 0)%Z with (-2)%Z. cbn [xorb].
  rewrite sub_dyadic by (try assumption; lia).
  change (0 - -2)%Z with 2%Z. change (2 ^ 2)%Z with 4%Z.
  replace (Zpos l * 4 - Zpos l)%Z with (Zpos (3 * l)) by lia.
  cbv iota beta.
  apply binary_round_dyadic. unfold Number.representable. lia.
Qed.

Lemma default_target_index (elementList : list element) :
  (2 <= length elementList)%nat ->
  (Z.of_nat (length elementList) < 2 ^ 32)%Z ->
  targetIndex elementList default_threshold (length_of elementList)
  = Number.of_Z (3 * Z.of_nat (length elementList) / 4).
Proof.
  intros Hlen Hbound.
  destruct (Z.of_nat (length elementList)) as [|l|l] eqn:Hl; try lia.
  unfold targetIndex. rewrite (default_position _ l Hl Hbound).
  rewrite floor_dyadic.
  - change (Z.shiftl (Zpos (3 * l)) (-2)) with (Z.shiftr (Zpos (3 * l)) 2).
    rewrite Z.shiftr_div_pow2 by lia. rewrite Pos2Z.inj_mul. reflexivity.
  - apply digits_below_2_53. rewrite Pos2Z.inj_mul.
    apply Z.lt_le_trans with (3 * 2 ^ 32)%Z; [lia|discriminate].
Qed.

(** From two elements on, the position read with the default arguments is
    a position of the list. *)
Lemma default_index_in_range (elementList : list element) :
  (2 <= length elementList)%nat ->
  (Z.of_nat (length elementList) < 2 ^ 32)%Z ->
  exists i,
    Number.to_integer
      (Number.sub (targetIndex elementList default_threshold (length_of elementList)) one)
      = Some i /\
    (0 <= i < Z.of_nat (length elementList))%Z.
Proof.
  intros Hlen Hbound. rewrite default_target_index by assumption.
  set (L := Z.of_nat (length elementList)) in *.
  assert (HL : (2 <= L)%Z) by (unfold L; lia).
  assert (H1 : (1 <= 3 * L / 4)%Z) by (apply Z.div_le_lower_bound; lia).
  assert (H2 : (3 * L / 4 <= L)%Z) by (apply Z.div_le_upper_bound; lia).
  exists (3 * L / 4 - 1)%Z. split; [|lia].
  apply index_before. split; [exact H1|].
  apply Z.le_lt_trans with L; [exact H2|].
  apply Z.lt_trans with (2 ^ 32)%Z; [exact Hbound|reflexivity].
Qed.

End ViewportFacts.

(** ** [formatDuration] *)

Section DurationFacts.

Import Duration.

(** C7. The zero-length duration is rendered as the infinity symbol, not
    as 0, and the duration of 3661 seconds as 1:01:01. *)
Theorem formatDuration_zero_and_3661 :
  formatDuration 0 = [8734%N] /\
  formatDuration 0 <> u "0" /\
  formatDuration 3661 = u "1:01:01".
Proof.
  repeat split; try (vm_compute; reflexivity).
  vm_compute. discriminate.
Qed.

(** Whatever the formatter prints, [formatDuration] never returns 0. *)
Lemma formatDuration_never_0 (duration : N) : formatDuration duration <> u "0".
Proof.
  unfold formatDuration, js_string_eqb.
  case_bool_decide as H; [discriminate|exact H].
Qed.

End DurationFacts.

(** ** [remove] *)

Section RemoveFacts.

Import Dom.

Lemma removeChild_of_parent (nodes0 : gmap N node) (parent element : N) :
  parent_of nodes0 element = Some parent ->
  exists nodes1,
    removeChild parent element nodes0 = Return nodes1 /\
    parent_of nodes1 element = None /\
    children_of nodes1 parent
      = filter (fun c => c ≠ element) (children_of nodes0 parent) /\
    (forall n, n ≠ element -> parent_of nodes1 n = parent_of nodes0 n) /\
    (forall q, q ≠ parent -> children_of nodes1 q = children_of nodes0 q) /\
    (forall n, is_Some (nodes1 !! n) <-> is_Some (nodes0 !! n)).
Proof.
  intros Hparent. unfold removeChild.
  rewrite bool_decide_eq_true_2 by exact Hparent.
  eexists. split; [reflexivity|].
  unfold parent_of, children_of in *.
  repeat split.
  - rewrite lookup_alter. case_decide as Hp.
    + subst. rewrite lookup_alter_eq.
      destruct (nodes0 !! element); [reflexivity|discriminate].
    + rewrite lookup_alter_eq.
      destruct (nodes0 !! element); [reflexivity|discriminate].
  - rewrite lookup_alter_eq. rewrite lookup_alter. case_decide as Hp.
    + subst. destruct (nodes0 !! parent); reflexivity.
    + destruct (nodes0 !! parent); reflexivity.
  - intros n Hn. rewrite lookup_alter. case_decide as Hp.
    + subst. rewrite lookup_alter_ne by congruence.
      destruct (nodes0 !! n); reflexivity.
    + rewrite lookup_alter_ne by congruence. reflexivity.
  - intros q Hq. rewrite lookup_alter_ne by congruence.
    rewrite lookup_alter. case_decide as Hp.
    + subst. destruct (nodes0 !! q); reflexivity.
    + reflexivity.
  - rewrite !lookup_alter_is_Some. tauto.
  - rewrite !lookup_alter_is_Some. tauto.
Qed.

(** C10. A call of [remove] registers one timer and leaves the tree
    alone.  When that timer fires, at whatever later state of the window,
    the handler completes without an exception and the timer is gone: an
    element without a parent leaves the tree as it is; an element with a
    parent has no parent afterwards, the parent keeps its other children
    in their order, every other node keeps its parent and its children,
    and no node leaves the store. *)
Theorem remove_is_safe (element : N) (delay : option N) (w later : window) (d : N) :
  let id := next_timer w in
  nodes (remove element delay w) = nodes w /\
  timers (remove element delay w)
    = <[id := (default 0%N delay, RemoveTask element id)]> (timers w) /\
  (timers later !! id = Some (d, RemoveTask element id) ->
   exists after,
     fire id later = Some (Return after) /\
     timers after = delete id (timers later) /\
     (parent_of (nodes later) element = None -> nodes after = nodes later) /\
     (forall parent, parent_of (nodes later) element = Some parent ->
        parent_of (nodes after) element = None /\
        children_of (nodes after) parent
          = filter (fun c => c ≠ element) (children_of (nodes later) parent) /\
        (forall n, n ≠ element ->
           parent_of (nodes after) n = parent_of (nodes later) n) /\
        (forall q, q ≠ parent ->
           children_of (nodes after) q = children_of (nodes later) q) /\
        (forall n, is_Some (nodes after !! n) <-> is_Some (nodes later !! n)))).
Proof.
  intros id. split; [reflexivity|]. split; [reflexivity|].
  intros Hpending. unfold fire. rewrite Hpending. cbn [run_task nodes].
  destruct (parent_of (nodes later) element) as [parent|] eqn:Hparent.
  - destruct (removeChild_of_parent _ _ _ Hparent)
      as [nodes1 [Hrm [Hpar [Hch [Hothers [Hsiblings Hdom]]]]]].
    rewrite Hrm. eexists. split; [reflexivity|].
    cbn [clearTimeout timers nodes].
    split; [apply delete_delete_eq|].
    split; [discriminate|].
    intros parent' Heq. inversion Heq; subst parent'.
    repeat split; try assumption; apply Hdom.
  - eexists. split; [reflexivity|].
    cbn [clearTimeout timers nodes].
    split; [apply delete_delete_eq|].
    split; [reflexivity|]. discriminate.
Qed.

Lemma remove_is_safe_witness :
  let w := {| nodes := {[ 1%N := {| parentNode := None; childNodes := [2%N; 3%N] |};
                          2%N := {| parentNode := Some 1%N; childNodes := [] |};
                          3%N := {| parentNode := Some 1%N; childNodes := [] |} ]};
              timers := ∅; next_timer := 5 |} in
  exists after,
    fire 5 (remove 2 None w) = Some (Return after) /\
    parent_of (nodes after) 2 = None /\
    children_of (nodes after) 1 = [3%N] /\
    parent_of (nodes after) 3 = Some 1%N.
Proof.
  intros w.
  destruct (remove_is_safe 2 None w (remove 2 None w) 0) as [_ [_ Hfire]].
  destruct Hfire as [after [Hafter [_ [_ Hdetach]]]]; [reflexivity|].
  exists after. split; [exact Hafter|].
  destruct (Hdetach 1%N) as [Hpar [Hch [Hothers _]]]; [reflexivity|].
  split; [exact Hpar|]. split; [rewrite Hch; reflexivity|].
  rewrite Hothers by discriminate. reflexivity.
Defined.

End RemoveFacts.

(** ** [addClassList] and [removeClassList] with no class *)

Section ClassListFacts.

Import ClassList.

Lemma no_whitespace_app (a b : js_string) :
  no_whitespace a -> no_whitespace b -> no_whitespace (a ++ b).
Proof.
  unfold no_whitespace. intros Ha Hb. rewrite existsb_app, Ha, Hb. reflexivity.
Qed.

Lemma split_yields_tokens (s : js_string) :
  forall token, no_whitespace token ->
    Forall is_token (split_on_whitespace s token).
Proof.
  induction s as [|c r IH]; intros token Htok; simpl.
  - destruct token; constructor; [|constructor]. split; [discriminate|exact Htok].
  - destruct (is_ascii_whitespace c) eqn:Hc.
    + destruct token.
      * apply IH. reflexivity.
      * constructor; [split; [discriminate|exact Htok]|]. apply IH. reflexivity.
    + apply IH. apply no_whitespace_app; [exact Htok|].
      unfold no_whitespace. simpl. rewrite Hc. reflexivity.
Qed.

Lemma split_app_token (t : js_string) :
  forall rest token, no_whitespace t ->
    split_on_whitespace (t ++ rest) token = split_on_whitespace rest (token ++ t).
Proof.
  induction t as [|c t IH]; intros rest token Ht; simpl.
  - rewrite app_nil_r. reflexivity.
  - unfold no_whitespace in Ht. simpl in Ht. apply orb_false_iff in Ht as [Hc Hrest].
    rewrite Hc. rewrite IH by exact Hrest. rewrite <- app_assoc. reflexivity.
Qed.

(** Splitting the serialization of tokens gives the tokens back. *)
Lemma split_serialized (set : list js_string) :
  Forall is_token set ->
  split_on_whitespace (ordered_set_serializer set) [] = set.
Proof.
  unfold ordered_set_serializer.
  induction set as [|x rest IH]; intros Hall; [reflexivity|].
  inversion Hall as [|? ? [Hne Hws] Hrest]; subst.
  destruct rest as [|y rest'].
  - simpl. rewrite <- (app_nil_r x) at 1. rewrite split_app_token by exact Hws.
    simpl. destruct x; [congruence|reflexivity].
  - change (join [32%N] (x :: y :: rest')) with (x ++ [32%N] ++ join [32%N] (y :: rest')).
    rewrite split_app_token by exact Hws.
    specialize (IH Hrest). remember (join [32%N] (y :: rest')) as serialized.
    simpl. destruct x; [congruence|]. rewrite IH. reflexivity.
Qed.

Lemma foldl_append_token_fresh (l : list js_string) :
  forall acc, NoDup (acc ++ l) -> foldl append_token acc l = acc ++ l.
Proof.
  induction l as [|x l IH]; intros acc Hnd; simpl.
  - rewrite app_nil_r. reflexivity.
  - unfold append_token at 2. rewrite bool_decide_eq_false_2.
    + rewrite IH; rewrite <- app_assoc; [reflexivity|exact Hnd].
    + apply NoDup_app in Hnd as (_ & Hdisj & _).
      intros Hin. apply (Hdisj x Hin). left.
Qed.

Lemma foldl_append_token_spec (l : list js_string) :
  forall acc, NoDup acc ->
    NoDup (foldl append_token acc l) /\
    (forall P, Forall P acc -> Forall P l -> Forall P (foldl append_token acc l)).
Proof.
  induction l as [|x l IH]; intros acc Hnd; simpl.
  - split; [exact Hnd|]. intros; assumption.
  - assert (Hnd' : NoDup (append_token acc x)).
    { unfold append_token. case_bool_decide as Hin; [exact Hnd|].
      apply NoDup_app. repeat split; [exact Hnd| |apply NoDup_singleton].
      intros y Hy Hyx. apply list_elem_of_singleton in Hyx. subst. contradiction. }
    destruct (IH _ Hnd') as [H1 H2]. split; [exact H1|].
    intros P Hacc Hl. inversion Hl; subst. apply H2; [|assumption].
    unfold append_token. case_bool_decide; [exact Hacc|].
    apply Forall_app. split; [exact Hacc|]. constructor; [assumption|constructor].
Qed.

(** The parser yields tokens, each once; parsing the serialization of its
    result gives the same result. *)
Lemma parser_yields_set (value : js_string) :
  NoDup (ordered_set_parser value) /\ Forall is_token (ordered_set_parser value).
Proof.
  unfold ordered_set_parser.
  destruct (foldl_append_token_spec (split_on_whitespace value []) [] (NoDup_nil_2))
    as [H1 H2].
  split; [exact H1|]. apply H2; [constructor|].
  apply split_yields_tokens. reflexivity.
Qed.

Lemma parser_serializer (set : list js_string) :
  NoDup set -> Forall is_token set ->
  ordered_set_parser (ordered_set_serializer set) = set.
Proof.
  intros Hnd Hall. unfold ordered_set_parser.
  rewrite split_serialized by exact Hall.
  apply (foldl_append_token_fresh set []). exact Hnd.
Qed.

Lemma token_set_reserialized (e : element) :
  token_set (reserialized e) = token_set e.
Proof.
  unfold reserialized, update_steps, token_set.
  destruct (class_attribute e) as [value|] eqn:Hclass; [|rewrite Hclass; reflexivity].
  unfold class_attribute. cbn [attributes]. rewrite lookup_insert_eq.
  destruct (parser_yields_set value) as [Hnd Hall].
  apply parser_serializer; assumption.
Qed.

Lemma reserialized_idempotent (e : element) :
  reserialized (reserialized e) = reserialized e.
Proof.
  unfold reserialized at 1 3. rewrite token_set_reserialized.
  unfold reserialized, update_steps.
  destruct (class_attribute e) as [value|] eqn:Hclass.
  - unfold class_attribute. cbn [attributes tagName].
    rewrite lookup_insert_eq, insert_insert_eq. reflexivity.
  - unfold token_set. rewrite Hclass. cbn iota. rewrite ?Hclass. reflexivity.
Qed.

(** The element is unchanged when it has no class attribute, or one that
    is the serialization of its tokens. *)
Lemma reserialized_unchanged (e : element) :
  (class_attribute e = None \/
   class_attribute e = Some (ordered_set_serializer (token_set e))) ->
  reserialized e = e.
Proof.
  unfold reserialized, update_steps. intros [Hnone|Hsome].
  - unfold token_set. rewrite Hnone. reflexivity.
  - rewrite Hsome. destruct e as [tag attrs]. cbn [tagName attributes].
    f_equal. apply insert_id. exact Hsome.
Qed.

Lemma reserialized_frame (e : element) :
  tagName (reserialized e) = tagName e /\
  (forall name, name <> class_name ->
     attributes (reserialized e) !! name = attributes e !! name).
Proof.
  unfold reserialized, update_steps.
  destruct (class_attribute e), (token_set e); cbn [tagName attributes];
    (split; [reflexivity|]); intros name Hname;
    try reflexivity; rewrite lookup_insert_ne by congruence; reflexivity.
Qed.

Lemma classList_add_nothing (e : element) : classList_add [] e = inr (reserialized e).
Proof. reflexivity. Qed.

Lemma classList_remove_nothing (e : element) :
  classList_remove [] e = inr (reserialized e).
Proof.
  unfold classList_remove, reserialized. cbn [validate]. do 2 f_equal.
  induction (token_set e) as [|t l IH]; [reflexivity|].
  rewrite filter_cons_True by (apply not_elem_of_nil). rewrite IH. reflexivity.
Qed.

Lemma forEach_reserialize (method : element -> dom_exception + element) :
  (forall e, method e = inr (reserialized e)) ->
  forall nodes doc0 doc,
    each_reserialized doc0 doc ->
    fst (forEach method nodes doc) = None /\
    each_reserialized doc0 (snd (forEach method nodes doc)).
Proof.
  intros Hmethod nodes doc0.
  induction nodes as [|i rest IH]; intros doc Hinv; simpl.
  - split; [reflexivity|exact Hinv].
  - destruct (doc !! i) as [e|] eqn:He; [|apply IH; exact Hinv].
    rewrite Hmethod. apply IH.
    destruct Hinv as [Hlen Hdoc]. split.
    + rewrite length_insert. exact Hlen.
    + intros j e0 Hj. destruct (decide (i = j)) as [->|Hij].
      * rewrite list_lookup_insert_eq by (apply lookup_lt_Some in He; exact He).
        destruct (Hdoc j e0 Hj) as [H|H]; rewrite H in He; inversion He; subst.
        -- right. reflexivity.
        -- right. rewrite reserialized_idempotent. reflexivity.
      * rewrite list_lookup_insert_ne by exact Hij. apply Hdoc. exact Hj.
Qed.

Variable querySelectorAll : js_string -> document -> option (list nat).

(** C8, as stated, fails on a class attribute that is not in serialized
    form: with no class to add or to remove, the update steps of the token
    list still run, and rewrite the attribute [a  b], with two spaces, as
    [a b]. *)
Lemma empty_class_list_rewrites_attribute :
  addClassList by_tag (u "div") (Some []) [div (u "a  b")] = (None, [div (u "a b")]) /\
  removeClassList by_tag (u "div") None [div (u "a  b")] = (None, [div (u "a b")]) /\
  class_attribute (div (u "a  b")) <> class_attribute (div (u "a b")).
Proof.
  repeat split; try (vm_compute; reflexivity).
  vm_compute. discriminate.
Qed.

Lemma forEach_applies (method : element -> dom_exception + element)
  (f : element -> element) :
  (forall e, method e = inr (f e)) -> (forall e, f (f e) = f e) ->
  forall (nodes : list nat) (doc : document),
    forEach method nodes doc
    = (None, imap (fun i e => if bool_decide (i ∈ nodes) then f e else e) doc).
Proof.
  intros Hmethod Hidem nodes.
  induction nodes as [|n rest IH]; intros doc; cbn [forEach].
  - f_equal. apply list_eq. intros i. rewrite list_lookup_imap.
    destruct (doc !! i); reflexivity.
  - destruct (doc !! n) as [e|] eqn:He.
    + rewrite Hmethod, IH. f_equal. apply list_eq. intros i.
      rewrite !list_lookup_imap.
      destruct (decide (i = n)) as [->|Hin].
      * rewrite list_lookup_insert_eq by (apply lookup_lt_Some in He; exact He).
        rewrite He. cbn. rewrite (bool_decide_eq_true_2 (n ∈ n :: rest)) by left.
        case_bool_decide; [apply f_equal, Hidem|reflexivity].
      * rewrite list_lookup_insert_ne by congruence.
        destruct (doc !! i) as [e0|]; [|reflexivity]. cbn.
        rewrite (bool_decide_ext (i ∈ n :: rest) (i ∈ rest)); [reflexivity|].
        rewrite elem_of_cons. intuition congruence.
    + rewrite IH. f_equal. apply list_eq. intros i. rewrite !list_lookup_imap.
      destruct (doc !! i) as [e0|] eqn:Hi; [|reflexivity]. cbn.
      rewrite (bool_decide_ext (i ∈ n :: rest) (i ∈ rest)); [reflexivity|].
      rewrite elem_of_cons. split; [|tauto]. intros [->|H]; [congruence|exact H].
Qed.

(** The class attribute after the update steps on the element's own
    tokens: absent if it was absent, else the serialization of the
    tokens. *)
Lemma class_attribute_reserialized (e : element) :
  class_attribute (reserialized e) =
    match class_attribute e with
    | Some _ => Some (ordered_set_serializer (token_set e))
    | None => None
    end.
Proof.
  unfold reserialized, update_steps.
  destruct (class_attribute e) as [value|] eqn:Hclass.
  - unfold class_attribute. cbn [attributes]. apply lookup_insert_eq.
  - unfold token_set. rewrite Hclass. exact Hclass.
Qed.

Lemma reserialized_changed (e : element) :
  reserialized e = e ->
  class_attribute e = None \/
  class_attribute e = Some (ordered_set_serializer (token_set e)).
Proof.
  intros Heq. pose proof (class_attribute_reserialized e) as H.
  rewrite Heq in H. destruct (class_attribute e); [right|left]; exact H.
Qed.

(** C8, amended. With an empty class list (given, or omitted)
    [addClassList] and [removeClassList] do the same thing.  A selector
    that is not valid throws and changes nothing.  Otherwise nothing is
    thrown; an element that is not selected is unchanged; a selected
    element keeps its tag, its token set and every attribute other than
    [class], and its class attribute, if it has one, becomes the
    serialization of its tokens: the element is unchanged exactly when it
    has no class attribute or one that is already that serialization. *)
Theorem empty_class_list_keeps_tokens
  (selector : js_string) (classList : option (list js_string)) (doc : document) :
  default [] classList = [] ->
  let added := addClassList querySelectorAll selector classList doc in
  let removed := removeClassList querySelectorAll selector classList doc in
  removed = added /\
  match querySelectorAll selector doc with
  | None => added = (Some SyntaxError, doc)
  | Some nodes =>
      fst added = None /\
      length (snd added) = length doc /\
      forall i e, doc !! i = Some e ->
        exists e', snd added !! i = Some e' /\
          tagName e' = tagName e /\
          token_set e' = token_set e /\
          (forall name, name <> class_name ->
             attributes e' !! name = attributes e !! name) /\
          (i ∉ nodes -> e' = e) /\
          (i ∈ nodes ->
             class_attribute e' =
               match class_attribute e with
               | Some _ => Some (ordered_set_serializer (token_set e))
               | None => None
               end /\
             (e' = e <->
              class_attribute e = None \/
              class_attribute e = Some (ordered_set_serializer (token_set e))))
  end.
Proof.
  intros Hempty added removed.
  unfold added, removed, addClassList, removeClassList. rewrite Hempty.
  destruct (querySelectorAll selector doc) as [nodes|]; [|split; reflexivity].
  rewrite (forEach_applies (classList_add []) reserialized
             classList_add_nothing reserialized_idempotent).
  rewrite (forEach_applies (classList_remove []) reserialized
             classList_remove_nothing reserialized_idempotent).
  split; [reflexivity|]. cbn [fst snd].
  split; [reflexivity|]. split; [apply length_imap|].
  intros i e He. rewrite list_lookup_imap, He. cbn.
  case_bool_decide as Hin.
  - exists (reserialized e). split; [reflexivity|].
    destruct (reserialized_frame e) as [Htag Hattrs].
    split; [exact Htag|]. split; [apply token_set_reserialized|].
    split; [exact Hattrs|]. split; [intros Hout; contradiction|].
    intros _. split; [apply class_attribute_reserialized|].
    split; [apply reserialized_changed|apply reserialized_unchanged].
  - exists e. split; [reflexivity|]. split; [reflexivity|]. split; [reflexivity|].
    split; [reflexivity|]. split; [reflexivity|]. intros Hsel. contradiction.
Qed.

End ClassListFacts.

Lemma empty_class_list_keeps_tokens_witness :
  let doc := [ClassList.div (u "a  b"); ClassList.div (u "a b")] in
  ClassList.removeClassList ClassList.by_tag (u "div") (Some []) doc
  = ClassList.addClassList ClassList.by_tag (u "div") (Some []) doc /\
  snd (ClassList.addClassList ClassList.by_tag (u "div") (Some []) doc)
  = [ClassList.div (u "a b"); ClassList.div (u "a b")].
Proof.
  intros doc.
  destruct (empty_class_list_keeps_tokens ClassList.by_tag (u "div") (Some []) doc)
    as [Hsame _]; [reflexivity|].
  split; [exact Hsame|]. vm_compute. reflexivity.
Defined.

(** * Further properties of the library *)

(** ** [getElementIndex] *)

Section ElementIndexFacts.

Import Dom ElementIndex.

Lemma scan_found (element : N) (childList : list N) :
  forall index, element ∈ childList ->
    exists i, scan element childList index = (index + i)%nat /\
      childList !! i = Some element /\
      forall j, (j < i)%nat -> childList !! j ≠ Some element.
Proof.
  induction childList as [|child rest IH]; intros index Hin.
  - apply elem_of_nil in Hin. contradiction.
  - cbn [scan]. case_bool_decide as Heq.
    + exists 0%nat. subst. split; [lia|]. split; [reflexivity|]. intros j Hj. lia.
    + apply elem_of_cons in Hin as [Hin|Hin]; [congruence|].
      destruct (IH (S index) Hin) as (i & Hscan & Hi & Hbefore).
      exists (S i). split; [lia|]. split; [exact Hi|].
      intros [|j] Hj; cbn; [congruence|]. apply Hbefore. lia.
Qed.

Lemma scan_not_found (element : N) (childList : list N) :
  forall index, element ∉ childList ->
    scan element childList index = (index + length childList)%nat.
Proof.
  induction childList as [|child rest IH]; intros index Hnot; cbn [scan length].
  - lia.
  - apply not_elem_of_cons in Hnot as [Hne Hnot].
    rewrite bool_decide_eq_false_2 by exact Hne. rewrite IH by exact Hnot. lia.
Qed.

Lemma scan_bound (element : N) (childList : list N) :
  forall index, (index <= scan element childList index <= index + length childList)%nat.
Proof.
  induction childList as [|child rest IH]; intros index; cbn [scan length]; [lia|].
  case_bool_decide; [lia|]. specialize (IH (S index)). lia.
Qed.

(** An element that is among the children of its parent: the result is the
    position of its first occurrence there. *)
Theorem getElementIndex_is_the_first_position
  (nodes : gmap N node) (element parent : N) :
  parent_of nodes element = Some parent ->
  element ∈ children_of nodes parent ->
  exists i,
    getElementIndex nodes element = Return i /\
    (i < length (children_of nodes parent))%nat /\
    children_of nodes parent !! i = Some element /\
    forall j, (j < i)%nat -> children_of nodes parent !! j ≠ Some element.
Proof.
  intros Hparent Hin. unfold getElementIndex. rewrite Hparent.
  destruct (scan_found element _ 0%nat Hin) as (i & Hscan & Hi & Hbefore).
  exists i. rewrite Hscan. split; [reflexivity|].
  split; [apply lookup_lt_Some in Hi; exact Hi|]. split; assumption.
Qed.

Lemma getElementIndex_is_the_first_position_witness :
  getElementIndex family 3 = Return 1%nat /\
  children_of family 1 !! 1%nat = Some 3.
Proof.
  destruct (getElementIndex_is_the_first_position family 3 1)
    as (i & Hrun & _ & Hi & Hbefore).
  - reflexivity.
  - vm_compute. repeat constructor.
  - assert (i = 1%nat) as ->.
    { destruct i as [|[|[|i]]]; vm_compute in Hi; congruence. }
    split; [exact Hrun|exact Hi].
Defined.

(** The result never exceeds the number of children of the parent, and it
    is that number exactly when the element is not among them; an element
    without parent node makes the function throw a TypeError. *)
Theorem getElementIndex_bounds (nodes : gmap N node) (element : N) :
  match parent_of nodes element with
  | None => getElementIndex nodes element = Throw TypeError
  | Some parent =>
      exists i, getElementIndex nodes element = Return i /\
        (i <= length (children_of nodes parent))%nat /\
        (i = length (children_of nodes parent) <->
         element ∉ children_of nodes parent)
  end.
Proof.
  unfold getElementIndex. destruct (parent_of nodes element) as [parent|]; [|reflexivity].
  eexists. split; [reflexivity|].
  pose proof (scan_bound element (children_of nodes parent) 0) as Hbound.
  split; [lia|]. split.
  - intros Heq Hin. destruct (scan_found element _ 0%nat Hin) as (i & Hscan & Hi & _).
    apply lookup_lt_Some in Hi. lia.
  - intros Hnot. rewrite scan_not_found by exact Hnot. lia.
Qed.

End ElementIndexFacts.

(** ** [remove], twice, and [getElementIndex] after it *)

Section RemoveComposition.

Import Dom ElementIndex.

Lemma scan_shift (element : N) (childList : list N) :
  forall index, scan element childList index = (index + scan element childList 0)%nat.
Proof.
  induction childList as [|child rest IH]; intros index; cbn [scan]; [lia|].
  case_bool_decide; [lia|]. rewrite (IH (S index)), (IH 1%nat). lia.
Qed.

Lemma filter_absent (element : N) (l : list N) :
  element ∉ l -> filter (fun c => c ≠ element) l = l.
Proof.
  induction l as [|c r IH]; intros Hnot; [reflexivity|].
  apply not_elem_of_cons in Hnot as [Hne Hnot].
  rewrite filter_cons_True by congruence. rewrite IH by exact Hnot. reflexivity.
Qed.

(** The position of a sibling in the child list without the element. *)
Lemma scan_without (element sibling : N) (l : list N) :
  forall index, sibling ≠ element -> sibling ∈ l -> NoDup l ->
    scan sibling (filter (fun c => c ≠ element) l) index =
      if (scan element l index <? scan sibling l index)%nat
      then (scan sibling l index - 1)%nat
      else scan sibling l index.
Proof.
  induction l as [|c r IH]; intros index Hne Hin Hnd.
  - apply elem_of_nil in Hin. contradiction.
  - apply NoDup_cons in Hnd as [Hc Hnd].
    destruct (decide (sibling = c)) as [->|Hsc].
    + rewrite filter_cons_True by exact Hne. cbn [scan].
      rewrite bool_decide_eq_true_2 by reflexivity.
      rewrite (bool_decide_eq_false_2 (element = c)) by congruence.
      pose proof (scan_bound element r (S index)) as Hb.
      destruct (Nat.ltb_spec (scan element r (S index)) index); [lia|reflexivity].
    + apply elem_of_cons in Hin as [Hin|Hin]; [congruence|].
      destruct (decide (c = element)) as [->|Hce].
      * rewrite filter_cons_False by (intros H; apply H; reflexivity).
        rewrite filter_absent by exact Hc. cbn [scan].
        rewrite bool_decide_eq_true_2 by reflexivity.
        rewrite (bool_decide_eq_false_2 (sibling = element)) by exact Hne.
        pose proof (scan_bound sibling r (S index)) as Hb.
        destruct (Nat.ltb_spec index (scan sibling r (S index))); [|lia].
        rewrite (scan_shift sibling r index), (scan_shift sibling r (S index)). lia.
      * rewrite filter_cons_True by exact Hce. cbn [scan].
        rewrite (bool_decide_eq_false_2 (sibling = c)) by exact Hsc.
        rewrite (bool_decide_eq_false_2 (element = c)) by congruence.
        apply IH; assumption.
Qed.

(** What the handler of [remove] does to a window in which its timer is
    pending and the element has a parent. *)
Lemma fire_detaches (element parent id d : N) (later : window) :
  timers later !! id = Some (d, RemoveTask element id) ->
  parent_of (nodes later) element = Some parent ->
  exists after,
    fire id later = Some (Return after) /\
    timers after = delete id (timers later) /\
    parent_of (nodes after) element = None /\
    children_of (nodes after) parent
      = filter (fun c => c ≠ element) (children_of (nodes later) parent) /\
    (forall n, n ≠ element -> parent_of (nodes after) n = parent_of (nodes later) n).
Proof.
  intros Hpending Hparent. unfold fire. rewrite Hpending. cbn [run_task nodes].
  rewrite Hparent.
  destruct (removeChild_of_parent _ _ _ Hparent)
    as [nodes1 [Hrm [Hpar [Hch [Hothers _]]]]].
  rewrite Hrm. eexists. split; [reflexivity|].
  cbn [clearTimeout timers nodes]. split; [apply delete_delete_eq|].
  repeat split; assumption.
Qed.

(** After the element is removed, a sibling that followed it is one
    position lower, and a sibling that preceded it is where it was. *)
Theorem getElementIndex_after_remove
  (element sibling parent id d : N) (later : window) :
  timers later !! id = Some (d, RemoveTask element id) ->
  parent_of (nodes later) element = Some parent ->
  parent_of (nodes later) sibling = Some parent ->
  sibling ≠ element ->
  sibling ∈ children_of (nodes later) parent ->
  NoDup (children_of (nodes later) parent) ->
  exists after (i_element i_sibling : nat),
    fire id later = Some (Return after) /\
    getElementIndex (nodes later) element = Return i_element /\
    getElementIndex (nodes later) sibling = Return i_sibling /\
    getElementIndex (nodes after) sibling
      = Return (if (i_element <? i_sibling)%nat then (i_sibling - 1)%nat else i_sibling).
Proof.
  intros Hpending Hparent Hsibling Hne Hin Hnd.
  destruct (fire_detaches _ _ _ _ _ Hpending Hparent)
    as (after & Hfire & _ & _ & Hch & Hothers).
  exists after. do 2 eexists. split; [exact Hfire|].
  unfold getElementIndex. rewrite Hparent, Hsibling, (Hothers _ Hne), Hsibling, Hch.
  split; [reflexivity|]. split; [reflexivity|].
  rewrite scan_without by assumption. reflexivity.
Qed.

Lemma getElementIndex_after_remove_witness :
  let w := {| nodes := family; timers := ∅; next_timer := 5 |} in
  exists after,
    fire 5 (remove 2 None w) = Some (Return after) /\
    getElementIndex (nodes after) 4 = Return 1%nat /\
    getElementIndex family 4 = Return 2%nat.
Proof.
  intros w.
  destruct (getElementIndex_after_remove 2 4 1 5 0 (remove 2 None w))
    as (after & i2 & i4 & Hfire & H2 & H4 & Hafter).
  - reflexivity.
  - reflexivity.
  - reflexivity.
  - discriminate.
  - vm_compute. repeat constructor.
  - apply (bool_decide_unpack _). vm_compute. exact I.
  - vm_compute in H2, H4. inversion H2; inversion H4; subst.
    exists after. split; [exact Hfire|]. split; [exact Hafter|reflexivity].
Defined.

(** Two calls of [remove] on one element: whichever timer fires first
    detaches the element, and the other finds it without parent and leaves
    the tree as it is; neither throws. *)
Theorem remove_twice (element id1 id2 d1 d2 : N) (later : window) :
  id1 ≠ id2 ->
  timers later !! id1 = Some (d1, RemoveTask element id1) ->
  timers later !! id2 = Some (d2, RemoveTask element id2) ->
  exists w1 w2,
    fire id1 later = Some (Return w1) /\
    fire id2 w1 = Some (Return w2) /\
    parent_of (nodes w1) element = None /\
    nodes w2 = nodes w1 /\
    timers w2 = delete id2 (delete id1 (timers later)).
Proof.
  intros Hids H1 H2.
  assert (Hfirst : exists w1, fire id1 later = Some (Return w1) /\
            timers w1 = delete id1 (timers later) /\
            parent_of (nodes w1) element = None).
  { destruct (parent_of (nodes later) element) as [parent|] eqn:Hparent.
    - destruct (fire_detaches _ _ _ _ _ H1 Hparent) as (w1 & Hf & Ht & Hp & _).
      exists w1. repeat split; assumption.
    - unfold fire. rewrite H1. cbn [run_task nodes]. rewrite Hparent.
      eexists. split; [reflexivity|]. cbn [clearTimeout timers nodes].
      split; [apply delete_delete_eq|exact Hparent]. }
  destruct Hfirst as (w1 & Hf1 & Ht1 & Hp1).
  exists w1. eexists. split; [exact Hf1|].
  unfold fire. rewrite Ht1, lookup_delete_ne by exact Hids. rewrite H2.
  cbn [run_task nodes]. rewrite Hp1.
  split; [reflexivity|]. cbn [clearTimeout timers nodes].
  split; [reflexivity|]. split; [reflexivity|]. apply delete_delete_eq.
Qed.

Lemma remove_twice_witness :
  let w := {| nodes := family; timers := ∅; next_timer := 5 |} in
  exists w1 w2,
    fire 6 (remove 3 (Some 10) (remove 3 None w)) = Some (Return w1) /\
    fire 5 w1 = Some (Return w2) /\
    children_of (nodes w2) 1 = [2; 4].
Proof.
  intros w.
  destruct (remove_twice 3 6 5 10 0 (remove 3 (Some 10) (remove 3 None w)))
    as (w1 & w2 & Hf1 & Hf2 & _ & Hnodes & _).
  - discriminate.
  - reflexivity.
  - reflexivity.
  - exists w1, w2. split; [exact Hf1|]. split; [exact Hf2|].
    rewrite Hnodes. vm_compute in Hf1. inversion Hf1; subst. reflexivity.
Defined.

End RemoveComposition.

(** ** [loadStylesheetCSSInWebview]: the failures after step 2 *)

Section InjectorCasesFacts.

Import Injector InjectorCases.

Context {W : Type}.
Variable webviewElement : webview W.
Variable os_EOL : js_string.
Variable cleanCSS_minify : js_string -> js_string.

(** The run on a file of at least one chunk, once the registry is read and
    the path is not refused: what follows depends on the two promises. *)
Lemma run_on_file (stylesheetPath c : js_string) (chunks : list js_string)
  (result : option js_string) (l : list json) (w w1 : W) :
  executeJavaScript webviewElement read_registry_code w = Some (Resolved result, w1) ->
  previously_injected result stylesheetPath = inr l ->
  let cssText := trim (u "undefined" ++ concat (c :: chunks)) ++ os_EOL in
  let styles := cleanCSS_minify cssText in
  let code := write_registry_code
                (JSON_stringify (JArray (unique (l ++ [JString stylesheetPath])))) in
  let opening := [ExecuteJavaScript read_registry_code; CreateReadStream stylesheetPath;
                  Minify cssText; InsertCSS styles] in
  run webviewElement (fun _ => inr (stream_of_file (c :: chunks))) os_EOL cleanCSS_minify
    stylesheetPath w
  = match insertCSS webviewElement styles w1 with
    | (Rejected e, w2) => Some (opening ++ [Callback (Some e) None], w2)
    | (Resolved _, w2) =>
        match executeJavaScript webviewElement code w2 with
        | None => None
        | Some (Resolved _, w3) =>
            Some (opening ++ [ExecuteJavaScript code; Callback None (Some styles)], w3)
        | Some (Rejected e, w3) =>
            Some (opening ++ [ExecuteJavaScript code; Callback (Some e) None], w3)
        end
    end.
Proof.
  intros Hread Hstep cssText styles code opening.
  unfold run, loadStylesheetCSSInWebview, read_and_inject, bind at 1, call_executeJavaScript at 1.
  rewrite Hread, Hstep.
  unfold bind at 1. cbn [emit]. unfold stream_of_file.
  rewrite deliver_chunks, cssData_of_chunks.
  cbn [cssData default stylesheetPathList deliver].
  unfold bind at 1. unfold on_close at 1. cbn [cssData stylesheetPathList].
  unfold bind at 1. cbn [emit].
  unfold bind at 1. unfold call_insertCSS at 1.
  fold cssText. fold styles.
  destruct (insertCSS webviewElement styles w1) as [[[]|e] w2]; [|reflexivity].
  unfold bind at 1. unfold call_executeJavaScript at 1. fold code.
  destruct (executeJavaScript webviewElement code w2) as [[[r|e] w3]|]; reflexivity.
Qed.

(** A registry attribute that parses to a value other than an array (an
    object, a string, a number, true, false, null): the callback receives a
    TypeError and nothing else happens, no file is read. *)
Theorem non_array_registry_is_a_type_error
  (fs_createReadStream : js_string -> error + list stream_event)
  (stylesheetPath registry : js_string) (v : json) (w w' : W) :
  executeJavaScript webviewElement read_registry_code w
    = Some (Resolved (Some registry), w') ->
  JSON_parse registry = Some v ->
  (forall l, v <> JArray l) ->
  run webviewElement fs_createReadStream os_EOL cleanCSS_minify stylesheetPath w
  = Some ([ExecuteJavaScript read_registry_code; Callback (Some TypeError) None], w').
Proof.
  intros Hread Hparse Hv.
  apply run_stops_at_step_2 with (result := Some registry); [exact Hread|].
  unfold previously_injected. rewrite (truthy_parsed _ _ Hparse).
  cbv [default from_option id]. rewrite Hparse.
  destruct v; try reflexivity. exfalso. eapply Hv. reflexivity.
Qed.

(** When [insertCSS] rejects, the callback receives its error and the
    registry is not written: the run ends there. *)
Theorem insertCSS_rejection_skips_registry
  (stylesheetPath c : js_string) (chunks : list js_string)
  (result : option js_string) (l : list json) (e : error) (w w1 w2 : W) :
  let cssText := trim (u "undefined" ++ concat (c :: chunks)) ++ os_EOL in
  executeJavaScript webviewElement read_registry_code w = Some (Resolved result, w1) ->
  previously_injected result stylesheetPath = inr l ->
  insertCSS webviewElement (cleanCSS_minify cssText) w1 = (Rejected e, w2) ->
  run webviewElement (fun _ => inr (stream_of_file (c :: chunks))) os_EOL cleanCSS_minify
    stylesheetPath w
  = Some ([ExecuteJavaScript read_registry_code; CreateReadStream stylesheetPath;
           Minify cssText; InsertCSS (cleanCSS_minify cssText);
           Callback (Some e) None], w2).
Proof.
  intros cssText Hread Hstep Hinsert.
  rewrite (run_on_file _ c chunks _ _ _ _ Hread Hstep).
  fold cssText. rewrite Hinsert. reflexivity.
Qed.

(** When the registry write rejects, the styles are in the page already:
    the callback receives the error after [insertCSS] has resolved. *)
Theorem registry_write_rejection_follows_insertion
  (stylesheetPath c : js_string) (chunks : list js_string)
  (result : option js_string) (l : list json) (e : error) (w w1 w2 w3 : W) :
  let cssText := trim (u "undefined" ++ concat (c :: chunks)) ++ os_EOL in
  let code := write_registry_code
                (JSON_stringify (JArray (unique (l ++ [JString stylesheetPath])))) in
  executeJavaScript webviewElement read_registry_code w = Some (Resolved result, w1) ->
  previously_injected result stylesheetPath = inr l ->
  insertCSS webviewElement (cleanCSS_minify cssText) w1 = (Resolved tt, w2) ->
  executeJavaScript webviewElement code w2 = Some (Rejected e, w3) ->
  run webviewElement (fun _ => inr (stream_of_file (c :: chunks))) os_EOL cleanCSS_minify
    stylesheetPath w
  = Some ([ExecuteJavaScript read_registry_code; CreateReadStream stylesheetPath;
           Minify cssText; InsertCSS (cleanCSS_minify cssText);
           ExecuteJavaScript code; Callback (Some e) None], w3).
Proof.
  intros cssText code Hread Hstep Hinsert Hwrite.
  rewrite (run_on_file _ c chunks _ _ _ _ Hread Hstep).
  fold cssText. rewrite Hinsert. fold code. rewrite Hwrite. reflexivity.
Qed.

(** A file that is read without error and has at least one chunk: whatever
    the webview answers, the callback is called exactly once. *)
Theorem callback_called_once
  (stylesheetPath c : js_string) (chunks : list js_string)
  (w w' : W) (actions : list action) :
  run webviewElement (fun _ => inr (stream_of_file (c :: chunks))) os_EOL cleanCSS_minify
    stylesheetPath w = Some (actions, w') ->
  callbacks actions = 1%nat.
Proof.
  destruct (executeJavaScript webviewElement read_registry_code w)
    as [[[result|e] w1]|] eqn:Hread.
  - destruct (previously_injected result stylesheetPath) as [e|l] eqn:Hstep.
    + rewrite (run_stops_at_step_2 _ _ _ _ _ _ e _ _ Hread Hstep).
      intros H. inversion H. reflexivity.
    + rewrite (run_on_file _ c chunks _ _ _ _ Hread Hstep).
      destruct (insertCSS webviewElement _ w1) as [[[]|e] w2].
      * destruct (executeJavaScript webviewElement _ w2) as [[[r|e] w3]|];
          intros H; inversion H; reflexivity.
      * intros H; inversion H; reflexivity.
  - unfold run, loadStylesheetCSSInWebview, read_and_inject, bind at 1, call_executeJavaScript at 1.
    rewrite Hread. intros H. inversion H. reflexivity.
  - unfold run, loadStylesheetCSSInWebview, read_and_inject, bind at 1, call_executeJavaScript at 1.
    rewrite Hread. discriminate.
Qed.

(** An empty file, read without error: the buffer is still undefined when
    the stream closes, the listener throws, and the callback is never
    called, for any webview and any registry that does not hold the path. *)
Theorem empty_file_never_calls_back
  (stylesheetPath : js_string) (result : option js_string) (l : list json) (w w1 : W) :
  executeJavaScript webviewElement read_registry_code w = Some (Resolved result, w1) ->
  previously_injected result stylesheetPath = inr l ->
  run webviewElement (fun _ => inr (stream_of_file [])) os_EOL cleanCSS_minify
    stylesheetPath w
  = Some ([ExecuteJavaScript read_registry_code; CreateReadStream stylesheetPath;
           Uncaught TypeError], w1) /\
  callbacks [ExecuteJavaScript read_registry_code; CreateReadStream stylesheetPath;
             Uncaught TypeError] = 0%nat.
Proof.
  intros Hread Hstep. split; [|reflexivity].
  unfold run, loadStylesheetCSSInWebview, read_and_inject, bind at 1, call_executeJavaScript at 1.
  rewrite Hread, Hstep. reflexivity.
Qed.

End InjectorCasesFacts.

Section InjectorCasesWitnesses.

Import Injector InjectorCases.

Lemma non_array_registry_is_a_type_error_witness :
  inject_file posix_EOL strip_EOL (stream_of_file [u "body{}"]) (u "/css/a.css")
    (page_with_registry (u "{}"))
  = Some ([ExecuteJavaScript read_registry_code; Callback (Some TypeError) None],
          page_with_registry (u "{}")).
Proof.
  apply (non_array_registry_is_a_type_error page_webview posix_EOL strip_EOL _
           (u "/css/a.css") (u "{}") (JObject [])).
  - reflexivity.
  - vm_compute. reflexivity.
  - discriminate.
Defined.

Lemma insertCSS_rejection_skips_registry_witness :
  run refusing_insertion (fun _ => inr (stream_of_file [u "body{}"])) posix_EOL strip_EOL
    (u "/css/a.css") fresh_page
  = Some ([ExecuteJavaScript read_registry_code; CreateReadStream (u "/css/a.css");
           Minify (u "undefinedbody{}" ++ posix_EOL); InsertCSS (u "undefinedbody{}");
           Callback (Some (External 1)) None], fresh_page).
Proof.
  apply (insertCSS_rejection_skips_registry refusing_insertion posix_EOL strip_EOL
           (u "/css/a.css") (u "body{}") [] None [] (External 1)
           fresh_page fresh_page fresh_page); reflexivity.
Defined.

Lemma registry_write_rejection_follows_insertion_witness :
  exists p,
    run refusing_write (fun _ => inr (stream_of_file [u "body{}"])) posix_EOL strip_EOL
      (u "/css/a.css") fresh_page
    = Some ([ExecuteJavaScript read_registry_code; CreateReadStream (u "/css/a.css");
             Minify (u "undefinedbody{}" ++ posix_EOL); InsertCSS (u "undefinedbody{}");
             ExecuteJavaScript
               (write_registry_code (JSON_stringify (JArray [JString (u "/css/a.css")])));
             Callback (Some (External 2)) None], p) /\
    stylesheets p = [u "undefinedbody{}"] /\ injectedstylesheets p = None.
Proof.
  set (p := {| injectedstylesheets := None; stylesheets := [u "undefinedbody{}"] |}).
  exists p. split.
  - apply (registry_write_rejection_follows_insertion refusing_write posix_EOL strip_EOL
             (u "/css/a.css") (u "body{}") [] None [] (External 2)
             fresh_page fresh_page p p); reflexivity.
  - split; reflexivity.
Defined.

Lemma callback_called_once_witness :
  exists actions p,
    inject_file posix_EOL strip_EOL (stream_of_file [u "body{}"]) (u "/css/a.css") fresh_page
      = Some (actions, p) /\
    callbacks actions = 1%nat.
Proof.
  do 2 eexists. split; [vm_compute; reflexivity|].
  eapply (callback_called_once page_webview posix_EOL strip_EOL
            (u "/css/a.css") (u "body{}") [] fresh_page).
  vm_compute. reflexivity.
Defined.

Lemma empty_file_never_calls_back_witness :
  inject_file posix_EOL strip_EOL (stream_of_file []) (u "/css/a.css") fresh_page
  = Some ([ExecuteJavaScript read_registry_code; CreateReadStream (u "/css/a.css");
           Uncaught TypeError], fresh_page).
Proof.
  apply (empty_file_never_calls_back page_webview posix_EOL strip_EOL
           (u "/css/a.css") None [] fresh_page fresh_page); reflexivity.
Defined.

End InjectorCasesWitnesses.

(** ** [loadStylesheetCSSInWebview]: injections one after the other *)

Section InjectorSequences.

Import Injector.

Lemma registry_round_trip_plain_paths_witness :
  exists p' registry,
    inject_all posix_EOL strip_EOL two_stylesheets fresh_page = Some p' /\
    injectedstylesheets p' = Some registry /\
    JSON_parse registry = Some (JArray [JString (u "/css/a.css"); JString (u "/css/b.css")]).
Proof.
  apply (registry_round_trip_plain_paths posix_EOL strip_EOL two_stylesheets).
  - discriminate.
  - apply (bool_decide_unpack _). vm_compute. exact I.
  - repeat constructor; discriminate.
Defined.

(** After the successful injections of distinct paths that need no escape,
    a further injection of any of them is refused: the callback receives
    the error that names the path, whatever file would have been read, and
    the page is left as it was. *)
Theorem injected_paths_are_refused
  (os_EOL : js_string) (cleanCSS_minify : js_string -> js_string)
  (files : list (js_string * list js_string)) :
  NoDup (map fst files) ->
  Forall (fun file => plain_path (fst file) /\ snd file <> []) files ->
  exists p',
    inject_all os_EOL cleanCSS_minify files fresh_page = Some p' /\
    forall (path : js_string) (events : list stream_event),
      In path (map fst files) ->
      inject_file os_EOL cleanCSS_minify events path p'
      = Some ([ExecuteJavaScript read_registry_code;
               Callback (Some (Error (u "stylesheet was previously injected from path: "
                                        ++ path))) None],
              p').
Proof.
  intros Hnd Hfiles.
  destruct (inject_all_plain_paths os_EOL cleanCSS_minify files fresh_page [])
    as (p' & Hrun & Hreg); try assumption.
  - left. split; reflexivity.
  - constructor.
  - exists p'. split; [exact Hrun|].
    intros path events Hin. cbn [app] in Hreg.
    destruct Hreg as [[_ Hnil]|Hsome]; [rewrite Hnil in Hin; contradiction|].
    assert (Hall : Forall plain_path (map fst files)).
    { apply Forall_fmap. eapply Forall_impl; [exact Hfiles|]. intros file [H _]. exact H. }
    pose proof (JSON_parse_stringify_paths _ Hall) as Hparse.
    unfold inject_file.
    apply run_stops_at_step_2 with (result := injectedstylesheets p'); [reflexivity|].
    rewrite Hsome. unfold previously_injected.
    rewrite (truthy_parsed _ _ Hparse). cbv [default from_option id]. rewrite Hparse.
    rewrite Array_join_strings, includes_In; [reflexivity|]. apply in_map. exact Hin.
Qed.

Lemma injected_paths_are_refused_witness :
  exists p',
    inject_all posix_EOL strip_EOL two_stylesheets fresh_page = Some p' /\
    inject_file posix_EOL strip_EOL (stream_of_file [u "body{}"]) (u "/css/a.css") p'
    = Some ([ExecuteJavaScript read_registry_code;
             Callback (Some (Error (u "stylesheet was previously injected from path: "
                                      ++ u "/css/a.css"))) None],
            p').
Proof.
  destruct (injected_paths_are_refused posix_EOL strip_EOL two_stylesheets)
    as (p' & Hrun & Hrefused).
  - apply (bool_decide_unpack _). vm_compute. exact I.
  - repeat constructor; discriminate.
  - exists p'. split; [exact Hrun|]. apply Hrefused. left. reflexivity.
Defined.

End InjectorSequences.

(** ** [addClassList] and [removeClassList] with classes *)

Section ClassListOperations.

Import ClassList.

Lemma validate_tokens (tokens : list js_string) :
  validate tokens = None -> Forall is_token tokens.
Proof.
  induction tokens as [|t rest IH]; cbn [validate]; intros H; [constructor|].
  destruct t as [|c t']; [discriminate|].
  destruct (existsb is_ascii_whitespace (c :: t')) eqn:Hws; [discriminate|].
  constructor; [split; [discriminate|exact Hws]|apply IH; exact H].
Qed.

Lemma append_token_elem (set : list js_string) (token t : js_string) :
  t ∈ append_token set token <-> t ∈ set \/ t = token.
Proof.
  unfold append_token. case_bool_decide as Hin.
  - split; [tauto|]. intros [H| ->]; assumption.
  - rewrite elem_of_app, list_elem_of_singleton. tauto.
Qed.

Lemma foldl_append_token_elem (tokens : list js_string) :
  forall set t, t ∈ foldl append_token set tokens <-> t ∈ set \/ t ∈ tokens.
Proof.
  induction tokens as [|x rest IH]; intros set t; cbn [foldl].
  - rewrite elem_of_nil. tauto.
  - rewrite IH, append_token_elem, elem_of_cons. tauto.
Qed.

Lemma foldl_append_token_absorbed (tokens : list js_string) :
  forall set, (forall t, t ∈ tokens -> t ∈ set) -> foldl append_token set tokens = set.
Proof.
  induction tokens as [|x rest IH]; intros set Hsub; cbn [foldl]; [reflexivity|].
  assert (Hx : append_token set x = set).
  { unfold append_token. rewrite bool_decide_eq_true_2; [reflexivity|].
    apply Hsub. left. }
  rewrite Hx. apply IH. intros t Ht. apply Hsub. right. exact Ht.
Qed.

(** The tokens an element has after the update steps are the tokens the
    steps were given. *)
Lemma token_set_update_steps (e : element) (set : list js_string) :
  NoDup set -> Forall is_token set -> token_set (update_steps e set) = set.
Proof.
  intros Hnd Hall. unfold update_steps.
  destruct (class_attribute e) as [value|] eqn:Hclass.
  - unfold token_set, class_attribute. cbn [attributes]. rewrite lookup_insert_eq.
    apply parser_serializer; assumption.
  - destruct set as [|t set'].
    + unfold token_set. rewrite Hclass. reflexivity.
    + unfold token_set, class_attribute. cbn [attributes]. rewrite lookup_insert_eq.
      apply parser_serializer; assumption.
Qed.

Lemma update_steps_twice (e : element) (set : list js_string) :
  update_steps (update_steps e set) set = update_steps e set.
Proof.
  assert (Hset : forall e0,
            update_steps {| tagName := tagName e0;
                            attributes := <[class_name:=ordered_set_serializer set]>
                                            (attributes e0) |} set
            = {| tagName := tagName e0;
                 attributes := <[class_name:=ordered_set_serializer set]>
                                 (attributes e0) |}).
  { intros e0. unfold update_steps, class_attribute. cbn [attributes tagName].
    rewrite lookup_insert_eq, insert_insert_eq. reflexivity. }
  destruct (class_attribute e) as [value|] eqn:Hclass.
  - assert (H1 : update_steps e set
                 = {| tagName := tagName e;
                      attributes := <[class_name:=ordered_set_serializer set]>
                                      (attributes e) |})
      by (unfold update_steps; rewrite Hclass; reflexivity).
    rewrite H1. apply Hset.
  - destruct set as [|t set'].
    + assert (H1 : update_steps e [] = e)
        by (unfold update_steps; rewrite Hclass; reflexivity).
      rewrite H1. exact H1.
    + assert (H1 : update_steps e (t :: set')
                   = {| tagName := tagName e;
                        attributes := <[class_name:=ordered_set_serializer (t :: set')]>
                                        (attributes e) |})
        by (unfold update_steps; rewrite Hclass; reflexivity).
      rewrite H1. apply Hset.
Qed.

Lemma update_steps_frame (e : element) (set : list js_string) :
  tagName (update_steps e set) = tagName e /\
  forall name, name <> class_name ->
    attributes (update_steps e set) !! name = attributes e !! name.
Proof.
  unfold update_steps.
  destruct (class_attribute e), set; cbn [tagName attributes];
    (split; [reflexivity|]); intros name Hname;
    try reflexivity; rewrite lookup_insert_ne by congruence; reflexivity.
Qed.

(** The element after [classList.add(...tokens)], and after
    [classList.remove(...tokens)]. *)
Lemma classList_add_valid (tokens : list js_string) (e : element) :
  validate tokens = None ->
  classList_add tokens e = inr (with_tokens_added tokens e).
Proof. intros H. unfold classList_add. rewrite H. reflexivity. Qed.

Lemma classList_remove_valid (tokens : list js_string) (e : element) :
  validate tokens = None ->
  classList_remove tokens e = inr (with_tokens_removed tokens e).
Proof. intros H. unfold classList_remove. rewrite H. reflexivity. Qed.

Lemma token_set_is_set (e : element) :
  NoDup (token_set e) /\ Forall is_token (token_set e).
Proof.
  unfold token_set. destruct (class_attribute e) as [value|].
  - apply parser_yields_set.
  - split; constructor.
Qed.

Lemma token_set_added (tokens : list js_string) (e : element) :
  Forall is_token tokens ->
  token_set (with_tokens_added tokens e) = foldl append_token (token_set e) tokens.
Proof.
  intros Htokens. destruct (token_set_is_set e) as [Hnd Hall].
  destruct (foldl_append_token_spec tokens (token_set e) Hnd) as [Hnd' Hall'].
  apply token_set_update_steps; [exact Hnd'|]. apply Hall'; assumption.
Qed.

Lemma token_set_removed (tokens : list js_string) (e : element) :
  token_set (with_tokens_removed tokens e)
  = filter (fun t => t ∉ tokens) (token_set e).
Proof.
  destruct (token_set_is_set e) as [Hnd Hall].
  apply token_set_update_steps.
  - apply NoDup_filter. exact Hnd.
  - apply Forall_forall. intros t Ht. apply list_elem_of_filter in Ht as [_ Ht].
    rewrite Forall_forall in Hall. apply Hall. exact Ht.
Qed.

Lemma with_tokens_added_twice (tokens : list js_string) (e : element) :
  Forall is_token tokens ->
  with_tokens_added tokens (with_tokens_added tokens e) = with_tokens_added tokens e.
Proof.
  intros Htokens. unfold with_tokens_added at 1.
  rewrite token_set_added by exact Htokens.
  rewrite foldl_append_token_absorbed.
  - apply update_steps_twice.
  - intros t Ht. apply foldl_append_token_elem. right. exact Ht.
Qed.

Lemma with_tokens_removed_twice (tokens : list js_string) (e : element) :
  with_tokens_removed tokens (with_tokens_removed tokens e)
  = with_tokens_removed tokens e.
Proof.
  unfold with_tokens_removed at 1. rewrite token_set_removed.
  rewrite list_filter_filter.
  rewrite (list_filter_iff _ (fun t => t ∉ tokens)) by tauto.
  apply update_steps_twice.
Qed.

(** A loop whose method never throws maps the selected elements, whatever
    the order and the repetitions of the selection. *)
End ClassListOperations.

Section ClassListHelpers.

Import ClassList.

Variable querySelectorAll : js_string -> document -> option (list nat).

Lemma filter_foldl_append_token (tokens l : list js_string) :
  forall set, (forall t, t ∈ l -> t ∈ tokens) ->
    filter (fun t => t ∉ tokens) (foldl append_token set l)
    = filter (fun t => t ∉ tokens) set.
Proof.
  induction l as [|x rest IH]; intros set Hsub; cbn [foldl]; [reflexivity|].
  rewrite IH by (intros t Ht; apply Hsub; right; exact Ht).
  unfold append_token. case_bool_decide; [reflexivity|].
  rewrite filter_app, filter_cons_False, filter_nil, app_nil_r; [reflexivity|].
  intros Hx. apply Hx, Hsub. left.
Qed.

Lemma forEach_throws (method : element -> dom_exception + element) (x : dom_exception) :
  (forall e, method e = inl x) ->
  forall (nodes : list nat) (doc : document),
    snd (forEach method nodes doc) = doc /\
    ((exists i, i ∈ nodes /\ is_Some (doc !! i)) -> fst (forEach method nodes doc) = Some x) /\
    ((forall i, i ∈ nodes -> doc !! i = None) -> fst (forEach method nodes doc) = None).
Proof.
  intros Hmethod nodes doc.
  induction nodes as [|n rest IH]; cbn [forEach].
  - split; [reflexivity|]. split; [|reflexivity].
    intros (i & Hi & _). apply elem_of_nil in Hi. contradiction.
  - destruct (doc !! n) as [e|] eqn:He.
    + rewrite Hmethod. split; [reflexivity|]. split; [reflexivity|].
      intros Hnone. rewrite (Hnone n) in He by left. discriminate.
    + destruct IH as (Hdoc & Hsome & Hnone). split; [exact Hdoc|]. split.
      * intros (i & Hi & Hdef). apply Hsome. exists i. split; [|exact Hdef].
        apply elem_of_cons in Hi as [->|Hi]; [|exact Hi].
        rewrite He in Hdef. destruct Hdef; discriminate.
      * intros Hall. apply Hnone. intros i Hi. apply Hall. right. exact Hi.
Qed.

(** After [addClassList] with valid class names nothing is thrown, and
    every selected element has its former tokens, in their order, followed
    by the new names it did not have; its tag and its other attributes are
    untouched, and so are the elements that are not selected. *)
Theorem addClassList_adds
  (selector : js_string) (tokens : list js_string) (nodes : list nat) (doc : document) :
  validate tokens = None ->
  querySelectorAll selector doc = Some nodes ->
  let result := addClassList querySelectorAll selector (Some tokens) doc in
  fst result = None /\
  length (snd result) = length doc /\
  forall i e, doc !! i = Some e ->
    exists e', snd result !! i = Some e' /\
      tagName e' = tagName e /\
      (forall name, name <> class_name -> attributes e' !! name = attributes e !! name) /\
      (i ∈ nodes ->
         token_set e' = foldl append_token (token_set e) tokens /\
         forall t, t ∈ token_set e' <-> t ∈ token_set e \/ t ∈ tokens) /\
      (i ∉ nodes -> e' = e).
Proof.
  intros Hvalid Hnodes result. unfold result, addClassList. cbn [default].
  cbv [default from_option id]. rewrite Hnodes.
  pose proof (validate_tokens _ Hvalid) as Htokens.
  rewrite (forEach_applies _ (with_tokens_added tokens)
             (fun e => classList_add_valid tokens e Hvalid)
             (fun e => with_tokens_added_twice tokens e Htokens)).
  cbn [fst snd]. split; [reflexivity|]. split; [apply length_imap|].
  intros i e He. rewrite list_lookup_imap, He. cbn.
  case_bool_decide as Hin; eexists; (split; [reflexivity|]).
  - destruct (update_steps_frame e (foldl append_token (token_set e) tokens))
      as [Htag Hattrs].
    split; [exact Htag|]. split; [exact Hattrs|]. split; [|contradiction].
    intros _. rewrite token_set_added by exact Htokens.
    split; [reflexivity|]. intros t. apply foldl_append_token_elem.
  - split; [reflexivity|]. split; [reflexivity|]. split; [contradiction|reflexivity].
Qed.

(** After [removeClassList] with valid class names nothing is thrown, and
    every selected element has its former tokens but the names given, in
    their order; its tag and its other attributes are untouched, and so are
    the elements that are not selected. *)
Theorem removeClassList_removes
  (selector : js_string) (tokens : list js_string) (nodes : list nat) (doc : document) :
  validate tokens = None ->
  querySelectorAll selector doc = Some nodes ->
  let result := removeClassList querySelectorAll selector (Some tokens) doc in
  fst result = None /\
  length (snd result) = length doc /\
  forall i e, doc !! i = Some e ->
    exists e', snd result !! i = Some e' /\
      tagName e' = tagName e /\
      (forall name, name <> class_name -> attributes e' !! name = attributes e !! name) /\
      (i ∈ nodes ->
         token_set e' = filter (fun t => t ∉ tokens) (token_set e) /\
         forall t, t ∈ token_set e' <-> t ∈ token_set e /\ t ∉ tokens) /\
      (i ∉ nodes -> e' = e).
Proof.
  intros Hvalid Hnodes result. unfold result, removeClassList.
  cbv [default from_option id]. rewrite Hnodes.
  rewrite (forEach_applies _ (with_tokens_removed tokens)
             (fun e => classList_remove_valid tokens e Hvalid)
             (with_tokens_removed_twice tokens)).
  cbn [fst snd]. split; [reflexivity|]. split; [apply length_imap|].
  intros i e He. rewrite list_lookup_imap, He. cbn.
  case_bool_decide as Hin; eexists; (split; [reflexivity|]).
  - destruct (update_steps_frame e (filter (fun t => t ∉ tokens) (token_set e)))
      as [Htag Hattrs].
    split; [exact Htag|]. split; [exact Hattrs|]. split; [|contradiction].
    intros _. rewrite token_set_removed.
    split; [reflexivity|]. intros t. rewrite list_elem_of_filter. tauto.
  - split; [reflexivity|]. split; [reflexivity|]. split; [contradiction|reflexivity].
Qed.

(** A class list with an empty name, or a name with whitespace, changes no
    element, whichever helper is called: the first selected element makes
    the loop throw, and when no element is selected nothing is thrown. *)
Theorem invalid_class_name_changes_nothing
  (selector : js_string) (tokens : list js_string) (nodes : list nat) (doc : document)
  (x : dom_exception) :
  validate tokens = Some x ->
  querySelectorAll selector doc = Some nodes ->
  let added := addClassList querySelectorAll selector (Some tokens) doc in
  let removed := removeClassList querySelectorAll selector (Some tokens) doc in
  snd added = doc /\ snd removed = doc /\
  ((exists i, i ∈ nodes /\ is_Some (doc !! i)) ->
     fst added = Some x /\ fst removed = Some x) /\
  ((forall i, i ∈ nodes -> doc !! i = None) ->
     fst added = None /\ fst removed = None).
Proof.
  intros Hinvalid Hnodes added removed.
  unfold added, removed, addClassList, removeClassList.
  cbv [default from_option id]. rewrite Hnodes.
  assert (Hadd : forall e, classList_add tokens e = inl x)
    by (intros e; unfold classList_add; rewrite Hinvalid; reflexivity).
  assert (Hrem : forall e, classList_remove tokens e = inl x)
    by (intros e; unfold classList_remove; rewrite Hinvalid; reflexivity).
  destruct (forEach_throws _ x Hadd nodes doc) as (Ha1 & Ha2 & Ha3).
  destruct (forEach_throws _ x Hrem nodes doc) as (Hr1 & Hr2 & Hr3).
  split; [exact Ha1|]. split; [exact Hr1|]. split.
  - intros H. split; [apply Ha2|apply Hr2]; exact H.
  - intros H. split; [apply Ha3|apply Hr3]; exact H.
Qed.

(** [addClassList] is idempotent: a second call that selects the same
    elements leaves the document as the first call left it. *)
Theorem addClassList_twice
  (selector : js_string) (tokens : list js_string) (nodes : list nat) (doc : document) :
  validate tokens = None ->
  querySelectorAll selector doc = Some nodes ->
  let doc' := snd (addClassList querySelectorAll selector (Some tokens) doc) in
  querySelectorAll selector doc' = Some nodes ->
  addClassList querySelectorAll selector (Some tokens) doc' = (None, doc').
Proof.
  intros Hvalid Hnodes doc'. unfold doc', addClassList.
  cbv [default from_option id]. rewrite Hnodes.
  pose proof (validate_tokens _ Hvalid) as Htokens.
  rewrite (forEach_applies _ (with_tokens_added tokens)
             (fun e => classList_add_valid tokens e Hvalid)
             (fun e => with_tokens_added_twice tokens e Htokens)).
  cbn [snd]. intros Hnodes'. rewrite Hnodes'.
  rewrite (forEach_applies _ (with_tokens_added tokens)
             (fun e => classList_add_valid tokens e Hvalid)
             (fun e => with_tokens_added_twice tokens e Htokens)).
  f_equal. apply list_eq. intros i. rewrite !list_lookup_imap.
  destruct (doc !! i) as [e|]; [|reflexivity]. cbn.
  case_bool_decide; [|reflexivity].
  rewrite with_tokens_added_twice by exact Htokens. reflexivity.
Qed.

(** [removeClassList] after [addClassList] with the same valid names, on
    the same selection: the tokens of a selected element are its tokens
    before the two calls, but the names given. *)
Theorem removeClassList_after_addClassList
  (selector : js_string) (tokens : list js_string) (nodes : list nat) (doc : document) :
  validate tokens = None ->
  querySelectorAll selector doc = Some nodes ->
  let doc' := snd (addClassList querySelectorAll selector (Some tokens) doc) in
  querySelectorAll selector doc' = Some nodes ->
  let result := removeClassList querySelectorAll selector (Some tokens) doc' in
  fst result = None /\
  forall i e, doc !! i = Some e ->
    exists e', snd result !! i = Some e' /\
      (i ∈ nodes -> token_set e' = filter (fun t => t ∉ tokens) (token_set e)) /\
      (i ∉ nodes -> e' = e).
Proof.
  intros Hvalid Hnodes doc'. unfold doc', addClassList, removeClassList.
  cbv [default from_option id]. rewrite Hnodes.
  pose proof (validate_tokens _ Hvalid) as Htokens.
  rewrite (forEach_applies _ (with_tokens_added tokens)
             (fun e => classList_add_valid tokens e Hvalid)
             (fun e => with_tokens_added_twice tokens e Htokens)).
  cbn [snd]. intros Hnodes'. rewrite Hnodes'.
  rewrite (forEach_applies _ (with_tokens_removed tokens)
             (fun e => classList_remove_valid tokens e Hvalid)
             (with_tokens_removed_twice tokens)).
  cbn [fst snd]. split; [reflexivity|].
  intros i e He. rewrite !list_lookup_imap, He. cbn.
  case_bool_decide as Hin; eexists; (split; [reflexivity|]).
  - split; [|contradiction]. intros _.
    rewrite token_set_removed, token_set_added by exact Htokens.
    apply filter_foldl_append_token. tauto.
  - split; [contradiction|reflexivity].
Qed.

End ClassListHelpers.

Section ClassListWitnesses.

Import ClassList.

Lemma addClassList_adds_witness :
  let result := addClassList by_tag (u "div") (Some [u "b"; u "c"]) three_elements in
  fst result = None /\
  map token_set (snd result) = [[u "a"; u "b"; u "c"]; []; [u "b"; u "c"]].
Proof.
  intros result.
  destruct (addClassList_adds by_tag (u "div") [u "b"; u "c"] [0; 2]%nat three_elements)
    as (Hexn & _ & _); [reflexivity|reflexivity|].
  split; [exact Hexn|]. vm_compute. reflexivity.
Defined.

Lemma removeClassList_removes_witness :
  let result := removeClassList by_tag (u "div") (Some [u "a"]) three_elements in
  fst result = None /\
  map token_set (snd result) = [[u "b"]; []; []].
Proof.
  intros result.
  destruct (removeClassList_removes by_tag (u "div") [u "a"] [0; 2]%nat three_elements)
    as (Hexn & _ & _); [reflexivity|reflexivity|].
  split; [exact Hexn|]. vm_compute. reflexivity.
Defined.

Lemma invalid_class_name_changes_nothing_witness :
  addClassList by_tag (u "div") (Some [u "c"; u "a b"]) three_elements
    = (Some InvalidCharacterError, three_elements) /\
  addClassList by_tag (u "p") (Some [u "c"; u "a b"]) three_elements
    = (None, three_elements).
Proof.
  destruct (invalid_class_name_changes_nothing by_tag (u "div") [u "c"; u "a b"]
              [0; 2]%nat three_elements InvalidCharacterError)
    as (Hdoc & _ & Hthrows & _); [reflexivity|reflexivity|].
  destruct (invalid_class_name_changes_nothing by_tag (u "p") [u "c"; u "a b"]
              [] three_elements InvalidCharacterError)
    as (Hdoc' & _ & _ & Hsilent); [reflexivity|reflexivity|].
  split.
  - apply injective_projections; [|exact Hdoc].
    apply Hthrows. exists 0%nat. split; [left|eexists; reflexivity].
  - apply injective_projections; [|exact Hdoc'].
    apply Hsilent. intros i Hi. apply elem_of_nil in Hi. contradiction.
Defined.

Lemma addClassList_twice_witness :
  let doc' := snd (addClassList by_tag (u "div") (Some [u "b"; u "c"]) three_elements) in
  addClassList by_tag (u "div") (Some [u "b"; u "c"]) doc' = (None, doc').
Proof.
  apply (addClassList_twice by_tag (u "div") [u "b"; u "c"] [0; 2]%nat three_elements);
    reflexivity.
Defined.

Lemma removeClassList_after_addClassList_witness :
  let doc' := snd (addClassList by_tag (u "div") (Some [u "b"; u "c"]) three_elements) in
  map token_set (snd (removeClassList by_tag (u "div") (Some [u "b"; u "c"]) doc'))
  = [[u "a"]; []; []].
Proof.
  intros doc'.
  destruct (removeClassList_after_addClassList by_tag (u "div") [u "b"; u "c"]
              [0; 2]%nat three_elements) as (_ & _); [reflexivity|reflexivity|reflexivity|].
  vm_compute. reflexivity.
Defined.

End ClassListWitnesses.

(** ** [findChildElementByDatasetValue] *)

Section DatasetFacts.

Import ClassList Dataset.

Variable querySelectorAll : js_string -> document -> option (list nat).

Lemma dataset_values_spec (e : element) (value : js_string) :
  value ∈ dataset_values e <-> has_data_value e value.
Proof.
  unfold dataset_values, has_data_value. rewrite list_elem_of_fmap. split.
  - intros ([name v] & -> & Hin). apply elem_of_map_to_list in Hin.
    apply map_lookup_filter_Some in Hin as [Hlook Hdata].
    exists name. split; [exact Hdata|exact Hlook].
  - intros (name & Hdata & Hlook). exists (name, value). split; [reflexivity|].
    apply elem_of_map_to_list. apply map_lookup_filter_Some. split; assumption.
Qed.

Lemma find_item_spec (value : js_string) (descendants : document) (nodes : list nat) :
  match find_item value descendants nodes with
  | Some itemElement =>
      exists k i, nodes !! k = Some i /\ descendants !! i = Some itemElement /\
        has_data_value itemElement value /\
        forall k' i' other, (k' < k)%nat -> nodes !! k' = Some i' ->
          descendants !! i' = Some other -> ~ has_data_value other value
  | None =>
      forall k i other, nodes !! k = Some i -> descendants !! i = Some other ->
        ~ has_data_value other value
  end.
Proof.
  induction nodes as [|n rest IH]; cbn [find_item].
  - intros k i other Hk. rewrite lookup_nil in Hk. discriminate.
  - assert (Hskip : (forall other, descendants !! n = Some other ->
                       ~ has_data_value other value) ->
              match find_item value descendants rest with
              | Some itemElement =>
                  exists k i, (n :: rest) !! k = Some i /\
                    descendants !! i = Some itemElement /\
                    has_data_value itemElement value /\
                    forall k' i' other, (k' < k)%nat -> (n :: rest) !! k' = Some i' ->
                      descendants !! i' = Some other -> ~ has_data_value other value
              | None =>
                  forall k i other, (n :: rest) !! k = Some i ->
                    descendants !! i = Some other -> ~ has_data_value other value
              end).
    { intros Hn. destruct (find_item value descendants rest) as [found|].
      - destruct IH as (k & i & Hk & Hi & Hhas & Hbefore).
        exists (S k), i. split; [exact Hk|]. split; [exact Hi|]. split; [exact Hhas|].
        intros [|k'] i' other Hlt Hk' Hi'.
        + cbn in Hk'. inversion Hk'; subst. apply Hn. exact Hi'.
        + apply (Hbefore k' i' other); [lia|exact Hk'|exact Hi'].
      - intros [|k] i other Hk Hi.
        + cbn in Hk. inversion Hk; subst. apply Hn. exact Hi.
        + apply (IH k i other); assumption. }
    destruct (descendants !! n) as [itemElement|] eqn:Hn.
    + case_bool_decide as Hin.
      * exists 0%nat, n. split; [reflexivity|]. split; [exact Hn|].
        split; [apply dataset_values_spec; exact Hin|]. intros k' i' other Hlt. lia.
      * apply Hskip. intros other Hother. inversion Hother; subst.
        rewrite <- dataset_values_spec. exact Hin.
    + apply Hskip. intros other Hother. discriminate.
Qed.

(** With a value that is not empty, the function returns the first selected
    descendant that has a data attribute holding the value, and undefined
    when no selected descendant has one; a selector that is not valid
    throws.  With an empty or missing value, or a missing element, it
    returns undefined without looking at any descendant. *)
Theorem findChildElementByDatasetValue_finds_first
  (descendants : document) (value : js_string) (tag : option js_string)
  (nodes : list nat) :
  value <> [] ->
  querySelectorAll (default (u "li") tag) descendants = Some nodes ->
  (match findChildElementByDatasetValue querySelectorAll (Some descendants)
           (Some value) tag with
   | inr (Some itemElement) =>
       exists k i, nodes !! k = Some i /\ descendants !! i = Some itemElement /\
         has_data_value itemElement value /\
         forall k' i' other, (k' < k)%nat -> nodes !! k' = Some i' ->
           descendants !! i' = Some other -> ~ has_data_value other value
   | inr None =>
       forall k i other, nodes !! k = Some i -> descendants !! i = Some other ->
         ~ has_data_value other value
   | inl _ => False
   end) /\
  findChildElementByDatasetValue querySelectorAll (Some descendants) (Some []) tag
    = inr None /\
  findChildElementByDatasetValue querySelectorAll (Some descendants) None tag
    = inr None /\
  findChildElementByDatasetValue querySelectorAll None (Some value) tag = inr None.
Proof.
  intros Hvalue Hnodes. split; [|repeat split].
  unfold findChildElementByDatasetValue.
  destruct value as [|c value']; [congruence|].
  cbn [Injector.truthy]. rewrite Hnodes. cbv [default from_option id].
  apply find_item_spec.
Qed.

End DatasetFacts.

Lemma findChildElementByDatasetValue_finds_first_witness :
  exists itemElement,
    Dataset.findChildElementByDatasetValue ClassList.by_tag (Some Dataset.menu)
      (Some (u "x")) None = inr (Some itemElement) /\
    Dataset.menu !! 1%nat = Some itemElement /\
    Dataset.has_data_value itemElement (u "x").
Proof.
  pose proof (findChildElementByDatasetValue_finds_first ClassList.by_tag Dataset.menu
                (u "x") None [0; 1; 2]%nat) as [Hfound _];
    [discriminate|reflexivity|].
  destruct (Dataset.findChildElementByDatasetValue ClassList.by_tag (Some Dataset.menu)
              (Some (u "x")) None) as [x|[itemElement|]] eqn:Hrun.
  - contradiction.
  - exists itemElement. split; [reflexivity|].
    destruct Hfound as (k & i & _ & _ & Hhas & _). split; [|exact Hhas].
    vm_compute in Hrun. inversion Hrun. reflexivity.
  - vm_compute in Hrun. discriminate.
Defined.

(** ** [setVisibility], [show] and [hide] *)

Section VisibilityFacts.

Import ClassList Visibility.

Lemma fire_visibility (element id d : N) (visible : bool) (e : ClassList.element)
  (later : window) :
  timers later !! id = Some (d, VisibilityTask element visible id) ->
  elements later !! element = Some e ->
  fire id later
  = Some (Return
            {| elements :=
                 <[element := with_tokens_removed [off_class visible]
                                (with_tokens_added [on_class visible] e)]>
                   (elements later);
               timers := delete id (timers later);
               next_timer := next_timer later |}).
Proof.
  intros Hpending He. unfold fire. rewrite Hpending. cbn [run_task elements].
  rewrite He. destruct visible; cbn [on_class off_class];
    unfold clearTimeout; cbn [elements timers next_timer];
    rewrite delete_delete_eq; reflexivity.
Qed.

Lemma tokens_after_visibility (visible : bool) (e : ClassList.element) :
  let e' := with_tokens_removed [off_class visible]
              (with_tokens_added [on_class visible] e) in
  on_class visible ∈ token_set e' /\
  (off_class visible ∉ token_set e') /\
  (forall t, t <> on_class visible -> t <> off_class visible ->
     (t ∈ token_set e' <-> t ∈ token_set e)) /\
  tagName e' = tagName e /\
  (forall name, name <> class_name -> attributes e' !! name = attributes e !! name).
Proof.
  intros e'.
  assert (Hon : Forall is_token [on_class visible])
    by (apply validate_tokens; destruct visible; reflexivity).
  assert (Hne : on_class visible <> off_class visible)
    by (destruct visible; discriminate).
  assert (Hmem : forall t, t ∈ token_set e' <->
            (t ∈ token_set e \/ t = on_class visible) /\ t <> off_class visible).
  { intros t. unfold e'. rewrite token_set_removed, token_set_added by exact Hon.
    rewrite list_elem_of_filter, foldl_append_token_elem, !list_elem_of_singleton.
    tauto. }
  split; [apply Hmem; tauto|]. split; [rewrite Hmem; tauto|].
  split; [intros t H1 H2; rewrite Hmem; tauto|].
  unfold e', with_tokens_removed, with_tokens_added.
  match goal with
  | |- context [update_steps (update_steps e ?s1) ?s2] =>
      destruct (update_steps_frame (update_steps e s1) s2) as [Htag2 Hattrs2];
      destruct (update_steps_frame e s1) as [Htag1 Hattrs1]
  end.
  split; [rewrite Htag2; exact Htag1|].
  intros name Hname. rewrite Hattrs2 by exact Hname. apply Hattrs1. exact Hname.
Qed.

(** A call of [setVisibility] registers one timer and changes no element.
    When the timer fires, at whatever later state of the window, nothing is
    thrown, and the element has the class of the call ([show] when visible,
    else [hide]) and not the other one; its other classes, its tag and its
    other attributes are as before, and no other element changes. *)
Theorem setVisibility_sets_one_class
  (element : N) (visible : bool) (delay : option N) (w later : window)
  (d : N) (e : ClassList.element) :
  let id := next_timer w in
  elements (setVisibility element visible delay w) = elements w /\
  timers (setVisibility element visible delay w)
    = <[id := (default 0 delay, VisibilityTask element visible id)]> (timers w) /\
  (timers later !! id = Some (d, VisibilityTask element visible id) ->
   elements later !! element = Some e ->
   exists after e',
     fire id later = Some (Return after) /\
     timers after = delete id (timers later) /\
     elements after = <[element := e']> (elements later) /\
     on_class visible ∈ token_set e' /\
     (off_class visible ∉ token_set e') /\
     (forall t, t <> show_class -> t <> hide_class ->
        (t ∈ token_set e' <-> t ∈ token_set e)) /\
     tagName e' = tagName e /\
     (forall name, name <> class_name -> attributes e' !! name = attributes e !! name)).
Proof.
  intros id. split; [reflexivity|]. split; [reflexivity|].
  intros Hpending He.
  rewrite (fire_visibility _ _ _ _ _ _ Hpending He).
  destruct (tokens_after_visibility visible e) as (Hon & Hoff & Hother & Htag & Hattrs).
  do 2 eexists. split; [reflexivity|]. cbn [timers elements].
  split; [reflexivity|]. split; [reflexivity|].
  split; [exact Hon|]. split; [exact Hoff|]. split; [|split; assumption].
  intros t Hs Hh. apply Hother; destruct visible; assumption.
Qed.

(** The timer of a showing call and then the timer of a hiding call on the
    same element, at whatever state of the window both are pending. *)
Lemma show_timer_then_hide_timer
  (element id1 id2 d1 d2 : N) (e : ClassList.element) (later : window) :
  id1 <> id2 ->
  timers later !! id1 = Some (d1, VisibilityTask element true id1) ->
  timers later !! id2 = Some (d2, VisibilityTask element false id2) ->
  elements later !! element = Some e ->
  exists w1 w2 e2,
    fire id1 later = Some (Return w1) /\
    fire id2 w1 = Some (Return w2) /\
    elements w2 !! element = Some e2 /\
    hide_class ∈ token_set e2 /\
    (show_class ∉ token_set e2) /\
    (forall t, t <> show_class -> t <> hide_class ->
       (t ∈ token_set e2 <-> t ∈ token_set e)) /\
    timers w2 = delete id2 (delete id1 (timers later)).
Proof.
  intros Hids H1 H2 He.
  rewrite (fire_visibility _ _ _ _ _ _ H1 He).
  do 2 eexists. eexists. split; [reflexivity|].
  rewrite (fire_visibility element id2 d2 false
             (with_tokens_removed [off_class true] (with_tokens_added [on_class true] e))).
  - split; [reflexivity|]. cbn [elements timers]. rewrite lookup_insert_eq.
    split; [reflexivity|].
    destruct (tokens_after_visibility true e) as (_ & _ & Hother1 & _).
    destruct (tokens_after_visibility false
                (with_tokens_removed [off_class true] (with_tokens_added [on_class true] e)))
      as (Hon & Hoff & Hother2 & _).
    split; [exact Hon|]. split; [exact Hoff|]. split; [|reflexivity].
    intros t Hs Hh. rewrite (Hother2 t) by assumption. apply Hother1; assumption.
  - cbn [timers]. rewrite lookup_delete_ne by exact Hids. exact H2.
  - cbn [elements]. apply lookup_insert_eq.
Qed.

(** [hide] after [show] on one element, once both timers have fired in
    that order: nothing is thrown, the element has the class [hide] and not
    the class [show], its other classes are those it had before the two
    calls, and the table of timers is as it was before them. *)
Theorem hide_after_show
  (element : N) (delay1 delay2 : option N) (e : ClassList.element) (w : window) :
  elements w !! element = Some e ->
  timers w !! next_timer w = None ->
  timers w !! (next_timer w + 1)%N = None ->
  let called := hide element delay2 (show element delay1 w) in
  exists w1 w2 e2,
    fire (next_timer w) called = Some (Return w1) /\
    fire (next_timer w + 1)%N w1 = Some (Return w2) /\
    elements w2 !! element = Some e2 /\
    hide_class ∈ token_set e2 /\
    (show_class ∉ token_set e2) /\
    (forall t, t <> show_class -> t <> hide_class ->
       (t ∈ token_set e2 <-> t ∈ token_set e)) /\
    timers w2 = timers w.
Proof.
  intros He Hfree1 Hfree2 called.
  assert (Hne : next_timer w <> (next_timer w + 1)%N) by lia.
  destruct (show_timer_then_hide_timer element (next_timer w) (next_timer w + 1)%N
              (default 0%N delay1) (default 0%N delay2) e called Hne)
    as (w1 & w2 & e2 & H1 & H2 & He2 & Hhide & Hshow & Hother & Htimers).
  - unfold called, hide, show, setVisibility, setTimeout. cbn [snd timers next_timer].
    rewrite lookup_insert_ne by lia. apply lookup_insert_eq.
  - unfold called, hide, show, setVisibility, setTimeout. cbn [snd timers next_timer].
    apply lookup_insert_eq.
  - exact He.
  - exists w1, w2, e2. repeat (split; [assumption|]).
    rewrite Htimers. unfold called, hide, show, setVisibility, setTimeout.
    cbn [snd timers next_timer].
    apply map_eq. intros i.
    destruct (decide (i = (next_timer w + 1)%N)) as [->|Hi2].
    { rewrite lookup_delete_eq. symmetry. exact Hfree2. }
    rewrite lookup_delete_ne by congruence.
    destruct (decide (i = next_timer w)) as [->|Hi1].
    { rewrite lookup_delete_eq. symmetry. exact Hfree1. }
    rewrite lookup_delete_ne by congruence.
    rewrite !lookup_insert_ne by congruence. reflexivity.
Qed.

End VisibilityFacts.

Lemma setVisibility_sets_one_class_witness :
  exists after e',
    Visibility.fire 1 (Visibility.show 1 None Visibility.one_panel)
      = Some (Visibility.Return after) /\
    Visibility.elements after !! 1 = Some e' /\
    ClassList.token_set e' = [u "panel"; u "show"].
Proof.
  destruct (setVisibility_sets_one_class 1 true None Visibility.one_panel
              (Visibility.show 1 None Visibility.one_panel) 0
              (ClassList.div (u "panel hide")))
    as (_ & _ & Hfire).
  destruct Hfire as (after & e' & Hrun & _ & Helements & _); [reflexivity|reflexivity|].
  exists after. vm_compute in Hrun. inversion Hrun; subst.
  eexists. split; [reflexivity|]. split; vm_compute; reflexivity.
Defined.

Lemma hide_after_show_witness :
  exists w1 w2 e2,
    Visibility.fire 1 (Visibility.hide 1 None (Visibility.show 1 None Visibility.one_panel))
      = Some (Visibility.Return w1) /\
    Visibility.fire 2 w1 = Some (Visibility.Return w2) /\
    Visibility.elements w2 !! 1%N = Some e2 /\
    Visibility.hide_class ∈ ClassList.token_set e2.
Proof.
  destruct (hide_after_show 1 None None (ClassList.div (u "panel hide"))
              Visibility.one_panel)
    as (w1 & w2 & e2 & H1 & H2 & He2 & Hhide & _);
    [reflexivity|reflexivity|reflexivity|].
  exists w1, w2, e2. repeat split; assumption.
Defined.

(** ** [didScrollIntoViewport] with its default arguments *)

Section ViewportDefaults.

Import Viewport.

(** From two elements on, and with the default threshold and count, the
    function throws nothing: it answers for the element number
    floor(3 L / 4), counted from one, whether its top edge is within the
    viewport height.  The length is that of a list of the language, below
    2^32. *)
Theorem didScrollIntoViewport_defaults (clientHeight : Z) (elementList : list element) :
  (2 <= length elementList)%nat ->
  (Z.of_nat (length elementList) < 2 ^ 32)%Z ->
  let T := (3 * Z.of_nat (length elementList) / 4)%Z in
  (1 <= T <= Z.of_nat (length elementList))%Z /\
  exists el, elementList !! Z.to_nat (T - 1) = Some el /\
    didScrollIntoViewport clientHeight elementList None None
    = Return (Some (Qle_bool (top el) (inject_Z clientHeight))).
Proof.
  intros Hlen Hbound T.
  set (L := Z.of_nat (length elementList)) in *.
  assert (HL : (2 <= L)%Z) by (unfold L; lia).
  assert (H1 : (1 <= T)%Z) by (apply Z.div_le_lower_bound; lia).
  assert (H2 : (T <= L)%Z) by (apply Z.div_le_upper_bound; lia).
  split; [lia|].
  assert (Hindex : Number.to_integer
                     (Number.sub (targetIndex elementList default_threshold
                                    (length_of elementList)) one) = Some (T - 1)%Z).
  { rewrite default_target_index by assumption. apply index_before.
    split; [exact H1|]. apply Z.le_lt_trans with L; [exact H2|].
    apply Z.lt_trans with (2 ^ 32)%Z; [exact Hbound|reflexivity]. }
  destruct (item_in_range elementList _ (T - 1) Hindex) as [el [Hel Hitem]];
    [fold L; lia|].
  exists el. split; [exact Hel|].
  unfold didScrollIntoViewport. cbv [default from_option id].
  destruct elementList as [|e0 rest]; [cbn in Hlen; lia|].
  rewrite Hitem. reflexivity.
Qed.

Lemma didScrollIntoViewport_defaults_witness :
  didScrollIntoViewport 150 ten_rows None None = Return (Some true).
Proof.
  destruct (didScrollIntoViewport_defaults 150 ten_rows) as (_ & el & Hel & Hrun).
  - vm_compute. lia.
  - vm_compute. reflexivity.
  - rewrite Hrun. vm_compute in Hel. inversion Hel; subst. reflexivity.
Defined.

End ViewportDefaults.

(** ** [addClassListInWebview]: the script and what the page makes of it *)

Section WebviewClassListFacts.

Import ClassList WebviewClassList.

Variable querySelectorAll : js_string -> document -> option (list nat).

(** With the single quote the evaluation is that of the registry script. *)
Lemma quoted_from_squote (n : nat) :
  forall (s : js_string) (st : literal_state),
    (length s <= n)%nat -> quoted_from squote st s = single_quoted_from st s.
Proof.
  induction n as [|n IH]; intros s st Hlen.
  - destruct s; [|cbn in Hlen; lia]. destruct st; reflexivity.
  - destruct s as [|c r]; [destruct st; reflexivity|].
    cbn [length] in Hlen.
    assert (H0 : forall st', quoted_from squote st' r = single_quoted_from st' r)
      by (intros; apply IH; lia).
    assert (H1 : forall st' x r1, r = x :: r1 ->
              quoted_from squote st' r1 = single_quoted_from st' r1)
      by (intros st' x r1 ->; apply IH; cbn in Hlen; lia).
    assert (H2 : forall st' x y r2, r = x :: y :: r2 ->
              quoted_from squote st' r2 = single_quoted_from st' r2)
      by (intros st' x y r2 ->; apply IH; cbn in Hlen; lia).
    assert (H3 : forall st' x y z r3, r = x :: y :: z :: r3 ->
              quoted_from squote st' r3 = single_quoted_from st' r3)
      by (intros st' x y z r3 ->; apply IH; cbn in Hlen; lia).
    assert (H5 : forall st' x y z a b r5, r = x :: y :: z :: a :: b :: r5 ->
              quoted_from squote st' r5 = single_quoted_from st' r5)
      by (intros st' x y z a b r5 ->; apply IH; cbn in Hlen; lia).
    destruct st as [|digits value]; cbn [quoted_from single_quoted_from].
    + rewrite !H0.
      destruct r as [|e r1]; [reflexivity|].
      rewrite !(H1 _ e r1 eq_refl).
      destruct r1 as [|h1 r2]; [reflexivity|].
      rewrite !(H2 _ e h1 r2 eq_refl).
      destruct r2 as [|h2 r3]; [reflexivity|].
      rewrite !(H3 _ e h1 h2 r3 eq_refl).
      destruct r3 as [|h3 [|h4 r5]]; try reflexivity.
      rewrite !(H5 _ e h1 h2 h3 h4 r5 eq_refl). reflexivity.
    + destruct (chr "}" c).
      * rewrite !H0. reflexivity.
      * destruct (hex_value c); [apply H0|reflexivity].
Qed.

Lemma quoted_safe (s rest : js_string) :
  forallb double_quote_safe s = true ->
  quoted_from dquote Plain (s ++ dquote :: rest) = Literal s rest.
Proof.
  induction s as [|c r IH]; [reflexivity|].
  cbn [forallb app quoted_from]. rewrite andb_true_iff. intros [Hc Hr].
  unfold double_quote_safe in Hc.
  rewrite !andb_true_iff, !negb_true_iff in Hc. destruct Hc as [[[H1 H2] H3] H4].
  rewrite H1, H2, H3, H4, IH by exact Hr. reflexivity.
Qed.

Lemma strip_prefix_app (p s : js_string) : strip_prefix p (p ++ s) = Some s.
Proof.
  induction p as [|a p IH]; [reflexivity|].
  cbn [app strip_prefix]. rewrite N.eqb_refl. exact IH.
Qed.

(** The literals of the call denote the class names, provided the text
    after the call does not go on with a comma. *)
Lemma arguments_of_joined (classList : list js_string) :
  forall (first tail : js_string) (fuel : nat),
    Forall (fun t => forallb double_quote_safe t = true) (first :: classList) ->
    strip_prefix (u ", ") tail = None ->
    (length classList < fuel)%nat ->
    arguments fuel (dquote :: join separator (first :: classList) ++ dquote :: tail)
    = Some (first :: classList, tail).
Proof.
  induction classList as [|second rest IH]; intros first tail fuel Hsafe Htail Hfuel.
  - destruct fuel as [|fuel]; [lia|].
    inversion Hsafe as [|? ? Hfirst _]; subst.
    cbn [join arguments]. change (dquote =? dquote) with true. cbv iota.
    rewrite quoted_safe by exact Hfirst. rewrite Htail. reflexivity.
  - destruct fuel as [|fuel]; [lia|]. cbn [length] in Hfuel.
    inversion Hsafe as [|? ? Hfirst Hrest]; subst.
    change (join separator (first :: second :: rest))
      with (first ++ separator ++ join separator (second :: rest)).
    rewrite <- !app_assoc.
    change (separator ++ join separator (second :: rest) ++ dquote :: tail)
      with (dquote :: u ", " ++
            dquote :: join separator (second :: rest) ++ dquote :: tail).
    cbn [arguments]. change (dquote =? dquote) with true. cbv iota.
    rewrite quoted_safe by exact Hfirst.
    rewrite strip_prefix_app.
    rewrite IH; [reflexivity|exact Hrest|exact Htail|lia].
Qed.

Lemma length_join (classList : list js_string) :
  (length classList <= S (length (join separator classList)))%nat.
Proof.
  induction classList as [|t rest IH]; [cbn; lia|].
  destruct rest as [|t' rest']; [cbn; lia|].
  change (join separator (t :: t' :: rest'))
    with (t ++ separator ++ join separator (t' :: rest')).
  rewrite !length_app. change (length separator) with 4%nat. cbn [length] in *. lia.
Qed.

(** The page evaluates the script of a selector and of class names that
    need no escape as the statements of [addClassList] with that selector
    and those names. *)
Lemma evaluate_code (selector first : js_string) (classList : list js_string)
  (doc : document) :
  forallb literal_safe selector = true ->
  Forall (fun t => forallb double_quote_safe t = true) (first :: classList) ->
  evaluate querySelectorAll
    (code_before_selector ++ selector ++ [squote] ++ code_after_selector ++
     [dquote] ++ join separator (first :: classList) ++ [dquote] ++ code_after_arguments)
    doc
  = Some (addClassList querySelectorAll selector (Some (first :: classList)) doc).
Proof.
  intros Hselector Hsafe. unfold evaluate.
  rewrite strip_prefix_app.
  change (selector ++ [squote] ++ code_after_selector ++ [dquote] ++
          join separator (first :: classList) ++ [dquote] ++ code_after_arguments)
    with (selector ++ squote :: (code_after_selector ++ [dquote] ++
          join separator (first :: classList) ++ [dquote] ++ code_after_arguments)).
  rewrite single_quoted_safe by exact Hselector.
  rewrite strip_prefix_app.
  change ([dquote] ++ join separator (first :: classList) ++ [dquote] ++ code_after_arguments)
    with (dquote :: join separator (first :: classList) ++ dquote :: code_after_arguments).
  rewrite arguments_of_joined; [|exact Hsafe|reflexivity|].
  - unfold js_string_eqb. rewrite bool_decide_eq_true_2 by reflexivity. reflexivity.
  - cbn [length]. rewrite length_app.
    pose proof (length_join (first :: classList)) as Hjoin. cbn [length] in *. lia.
Qed.

(** The script of a class list that is not empty, in the page: when the
    selector has no single quote, backslash or line break and the class
    names no double quote, backslash or line break, it does to the document
    of the page what [addClassList] does with the same arguments. *)
Theorem addClassListInWebview_script_is_addClassList
  (selector : js_string) (classList : list js_string) (doc : document) :
  classList <> [] ->
  forallb literal_safe selector = true ->
  Forall (fun t => forallb double_quote_safe t = true) classList ->
  evaluate querySelectorAll (addClassList_code selector classList) doc
  = Some (addClassList querySelectorAll selector (Some classList) doc).
Proof.
  intros Hne Hselector Hsafe.
  destruct classList as [|first rest]; [congruence|].
  apply evaluate_code; assumption.
Qed.

(** The empty class list: the script is the script of the one empty class
    name, [classList.add("")].  In the page it changes no element, and it
    throws a SyntaxError as soon as the selector matches an element, where
    [addClassList] with the empty list throws nothing. *)
Theorem addClassListInWebview_empty_list_throws
  (selector : js_string) (nodes : list nat) (doc : document) :
  forallb literal_safe selector = true ->
  querySelectorAll selector doc = Some nodes ->
  (exists i, i ∈ nodes /\ is_Some (doc !! i)) ->
  addClassList_code selector [] = addClassList_code selector [[]] /\
  evaluate querySelectorAll (addClassList_code selector []) doc
    = Some (Some SyntaxError, doc) /\
  fst (addClassList querySelectorAll selector (Some []) doc) = None.
Proof.
  intros Hselector Hnodes Hsome.
  split; [reflexivity|]. split.
  - change (addClassList_code selector []) with (addClassList_code selector [[]]).
    unfold addClassList_code. rewrite evaluate_code; [|exact Hselector|repeat constructor].
    f_equal. unfold addClassList. cbv [default from_option id]. rewrite Hnodes.
    destruct (forEach_throws (classList_add [[]]) SyntaxError (fun e => eq_refl) nodes doc)
      as (Hdoc & Hthrows & _).
    apply injective_projections; [apply Hthrows; exact Hsome|exact Hdoc].
  - unfold addClassList. cbv [default from_option id]. rewrite Hnodes.
    apply (forEach_reserialize _ classList_add_nothing nodes doc doc).
    split; [reflexivity|]. intros; left; assumption.
Qed.

(** The run on any webview: one script, the script above, then the
    callback, once. *)
Lemma addClassListInWebview_sends_one_script {W : Type} (webviewElement : webview W)
  (selector : js_string) (classList : list js_string) (w w' : W)
  (actions : list Injector.action) :
  addClassListInWebview webviewElement selector (Some classList) w
    = inr (Some (actions, w')) ->
  exists callback,
    actions = [Injector.ExecuteJavaScript (addClassList_code selector classList);
               callback]
    /\ InjectorCases.is_callback callback = true.
Proof.
  unfold addClassListInWebview. intros H.
  destruct (executeJavaScript webviewElement _ w) as [[[result|e] w0]|];
    inversion H; subst; eexists; split; reflexivity.
Qed.

End WebviewClassListFacts.

Lemma addClassListInWebview_script_is_addClassList_witness :
  WebviewClassList.evaluate ClassList.by_tag
    (WebviewClassList.addClassList_code (u "div") [u "b"; u "c"]) three_elements
  = Some (ClassList.addClassList ClassList.by_tag (u "div") (Some [u "b"; u "c"])
            three_elements).
Proof.
  apply (addClassListInWebview_script_is_addClassList ClassList.by_tag
           (u "div") [u "b"; u "c"] three_elements).
  - discriminate.
  - reflexivity.
  - repeat constructor.
Defined.

Lemma addClassListInWebview_empty_list_throws_witness :
  WebviewClassList.evaluate ClassList.by_tag
    (WebviewClassList.addClassList_code (u "div") []) three_elements
  = Some (Some ClassList.SyntaxError, three_elements).
Proof.
  destruct (addClassListInWebview_empty_list_throws ClassList.by_tag (u "div")
              [0; 2]%nat three_elements) as (_ & Hpage & _).
  - reflexivity.
  - reflexivity.
  - exists 0%nat. split; [left|eexists; reflexivity].
  - exact Hpage.
Defined.


(** ** [removeListeners] *)

Section ListenersFacts.
Import JsString Listeners.

Lemma removeEventListener_present (e : eventListener) (l : list eventListener) :
  e ∈ l ->
  l ≡ₚ e :: removeEventListener (type e) (listener e) (useCapture e) l.
Proof.
  induction l as [|x l IH]; intros Hin.
  - inversion Hin.
  - simpl. case_bool_decide as Hx.
    + destruct x as [t f c], e as [t' f' c']. simpl in Hx.
      destruct Hx as (-> & -> & ->). reflexivity.
    + apply elem_of_cons in Hin as [->|Hin].
      * exfalso. apply Hx. auto.
      * rewrite (IH Hin) at 1. apply perm_swap.
Qed.

Lemma removeEventListener_absent (e : eventListener) (l : list eventListener) :
  e ∉ l ->
  removeEventListener (type e) (listener e) (useCapture e) l = l.
Proof.
  induction l as [|x l IH]; intros Hin; [reflexivity|].
  simpl. apply not_elem_of_cons in Hin as [Hne Hin].
  case_bool_decide as Hx.
  - exfalso. apply Hne. destruct x as [t f c], e as [t' f' c']. simpl in Hx.
    destruct Hx as (-> & -> & ->). reflexivity.
  - f_equal. apply IH, Hin.
Qed.

Lemma remove_each_reported (r l : list eventListener) :
  r ⊆+ l ->
  foldl (fun acc e => removeEventListener (type e) (listener e) (useCapture e) acc)
        l r ++ r ≡ₚ l.
Proof.
  revert l. induction r as [|x r IH]; intros l Hsub.
  - simpl. rewrite app_nil_r. reflexivity.
  - simpl.
    assert (Hin : x ∈ l).
    { eapply elem_of_submseteq; [|exact Hsub]. left. }
    pose proof (removeEventListener_present x l Hin) as Hp.
    assert (Hsub' : r ⊆+ removeEventListener (type x) (listener x) (useCapture x) l).
    { rewrite Hp in Hsub. apply (submseteq_app_inv_l _ _ [x]). exact Hsub. }
    rewrite <- Permutation_middle, (IH _ Hsub'). symmetry. exact Hp.
Qed.

Variable getEventListeners :
  list eventListener -> list (js_string * list eventListener).

Lemma removeListeners_records (element : list eventListener) :
  removeListeners getEventListeners element
  = foldl (fun acc e => removeEventListener (type e) (listener e) (useCapture e) acc)
          element (records (getEventListeners element)).
Proof.
  unfold removeListeners, getListeners, records.
  generalize (getEventListeners element) as o. generalize element as l.
  intros l o. revert l. induction o as [|[t es] o IH]; intros l; [reflexivity|].
  simpl. rewrite foldl_app. apply IH.
Qed.

(** [removeListeners] takes from the element exactly the registrations the
    host reports for it: what is left, together with the reported records,
    is the list the element had.  When the host reports every registration,
    the element is left with no listener at all. *)
Theorem removeListeners_removes_the_reported (element : list eventListener) :
  records (getEventListeners element) ⊆+ element ->
  removeListeners getEventListeners element ++ records (getEventListeners element)
    ≡ₚ element
  /\ (records (getEventListeners element) ≡ₚ element ->
      removeListeners getEventListeners element = []).
Proof.
  intros Hsub. rewrite removeListeners_records.
  pose proof (remove_each_reported _ _ Hsub) as Hp. split; [exact Hp|].
  intros Hall. apply Permutation_length in Hp, Hall.
  rewrite length_app in Hp. apply length_zero_iff_nil. lia.
Qed.

End ListenersFacts.

Lemma removeListeners_removes_the_reported_witness :
  (Listeners.removeListeners Listeners.report_all Listeners.three_listeners
     ++ Listeners.records (Listeners.report_all Listeners.three_listeners)
     ≡ₚ Listeners.three_listeners
   /\ (Listeners.records (Listeners.report_all Listeners.three_listeners)
         ≡ₚ Listeners.three_listeners ->
       Listeners.removeListeners Listeners.report_all Listeners.three_listeners = []))
  /\ Listeners.removeListeners (Listeners.report_only (JsString.u "click"))
       Listeners.three_listeners
     = [ {| Listeners.type := JsString.u "keydown"; Listeners.listener := 2;
            Listeners.useCapture := false |} ].
Proof.
  split.
  - apply (removeListeners_removes_the_reported Listeners.report_all
             Listeners.three_listeners).
    apply (bool_decide_unpack _). vm_compute. exact I.
  - reflexivity.
Defined.
